(** * ELTT ledger: chain engine and full-state validator

    A shallow embedding of [ELTT-Blockchain.py] (serializer, hasher, energy
    evaluator, token/wallet registry, transaction validator/applier, chain
    engine) and of [ELTT-Validator.py] (the read-only full-state validator),
    and of the wallet, pool and launcher views of
    [PYTHON-ELTT-MODULE-PARITY/ELTT-Blockchain] ([ELTT-wallet.py],
    [ELTT-liquidity-pools.py], [ELTT-launcher.py]), which work on the
    aggregate of the chain engine, followed by the properties established
    about them.

    Conventions of the embedding:
    - a Python [int] is a [Z];
    - a Python [float] is a binary64 primitive float ([PrimFloat.float]), with
      the IEEE-754 operations the interpreter uses; the primitive floats have
      one NaN, so what the code reads of a NaN object beyond its value is
      given apart: its bit pattern where [struct.pack] writes it, its identity
      where [hash] reads it;
    - a Python [str] is a [string] whose characters are the code points below
      256, so [len] and slicing count characters and [encode("utf-8")] emits
      one or two bytes per character; strings with other code points, among
      them the lone surrogates, which [encode] refuses, are not covered;
    - [bytes] is a [list byte];
    - a function that can raise returns a [result]; a function that mutates
      the aggregate and can raise lives in the state-and-exception monad [M],
      which keeps the mutations made before the exception;
    - lists are indexed the way Python indexes them: a negative index counts
      from the end, anything else out of range raises [IndexError]. *)

From Stdlib Require Import ZArith List String Ascii Floats Lia Bool.
From Stdlib.Strings Require Import Byte.
Import ListNotations.
Open Scope Z_scope.

(* ------------------------------------------------------------------ *)
(** ** Python runtime: exceptions, indexing, packing                   *)
(* ------------------------------------------------------------------ *)

Module Py.

Inductive exn : Type :=
| IndexError
| StructError.

Inductive result (A : Type) : Type :=
| Ok (a : A)
| Raise (e : exn).
Arguments Ok {A} a.
Arguments Raise {A} e.

Definition rbind {A B : Type} (r : result A) (k : A -> result B) : result B :=
  match r with
  | Ok a => k a
  | Raise e => Raise e
  end.

Notation "x <-? c ;; k" := (rbind c (fun x => k))
  (at level 61, c at next level, right associativity).

(** [l[i]] resolves its index against [len(l)]. *)
Definition index {A : Type} (l : list A) (i : Z) : option nat :=
  let n := Z.of_nat (List.length l) in
  if (0 <=? i) && (i <? n) then Some (Z.to_nat i)
  else if (- n <=? i) && (i <? 0) then Some (Z.to_nat (i + n))
  else None.

Definition getitem {A : Type} (l : list A) (i : Z) : result A :=
  match index l i with
  | Some k =>
      match nth_error l k with
      | Some a => Ok a
      | None => Raise IndexError
      end
  | None => Raise IndexError
  end.

Fixpoint set_nth {A : Type} (l : list A) (k : nat) (v : A) : list A :=
  match l, k with
  | [], _ => []
  | _ :: r, O => v :: r
  | a :: r, S k' => a :: set_nth r k' v
  end.

(** [l[i] = v]. *)
Definition setitem {A : Type} (l : list A) (i : Z) (v : A) : result (list A) :=
  match index l i with
  | Some k => Ok (set_nth l k v)
  | None => Raise IndexError
  end.

(** [l[:n]]: a negative bound counts from the end, and slicing never raises. *)
Definition slice_to {A : Type} (l : list A) (n : Z) : list A :=
  if n <? 0 then firstn (Z.to_nat (Z.of_nat (List.length l) + n)) l
  else firstn (Z.to_nat n) l.

(** [l[lo:hi]] for bounds [0 <= lo <= hi]. *)
Definition slice {A : Type} (l : list A) (lo hi : nat) : list A :=
  firstn (hi - lo) (skipn lo l).

(** [s[:n]] on a string, for [n >= 0]. *)
Definition str_take (n : nat) (s : string) : string := substring 0 n s.

Definition bytes : Type := list byte.

Definition byte_of_Z (z : Z) : byte :=
  match Byte.of_N (Z.to_N (z mod 256)) with
  | Some b => b
  | None => x00
  end.

Definition Z_of_byte (b : byte) : Z := Z.of_N (Byte.to_N b).

Fixpoint bytes_eqb (a b : bytes) : bool :=
  match a, b with
  | [], [] => true
  | x :: a', y :: b' => Byte.eqb x y && bytes_eqb a' b'
  | _, _ => false
  end.

(** [s.encode("utf-8")] for code points below 256. *)
Definition utf8_char (c : ascii) : bytes :=
  let n := Z.of_N (N_of_ascii c) in
  if n <? 128 then [byte_of_Z n]
  else [byte_of_Z (Z.lor 192 (Z.shiftr n 6)); byte_of_Z (Z.lor 128 (Z.land n 63))].

Fixpoint utf8_encode (s : string) : bytes :=
  match s with
  | EmptyString => []
  | String c r => utf8_char c ++ utf8_encode r
  end.

(** The [n] low-order bytes of [z], most significant first. *)
Fixpoint be_bytes (n : nat) (z : Z) : bytes :=
  match n with
  | O => []
  | S n' => byte_of_Z (Z.shiftr z (8 * Z.of_nat n')) :: be_bytes n' z
  end.

(** [int.from_bytes(b, "big")]. *)
Definition int_from_bytes_big (b : bytes) : Z :=
  fold_left (fun acc x => acc * 256 + Z_of_byte x) b 0.

(** [struct.pack("!I", z)] and [struct.pack("!Q", z)]: unsigned, [n] bytes. *)
Definition pack_unsigned (n : nat) (z : Z) : result bytes :=
  if (0 <=? z) && (z <? 2 ^ (8 * Z.of_nat n)) then Ok (be_bytes n z)
  else Raise StructError.

(** [struct.pack("!i", z)]: signed, 4 bytes, two's complement. *)
Definition pack_int32 (z : Z) : result bytes :=
  if (- 2 ^ 31 <=? z) && (z <? 2 ^ 31) then Ok (be_bytes 4 (z mod 2 ^ 32))
  else Raise StructError.

(** The binary64 bit pattern of a float (sign, biased exponent, fraction).
    binary64 has many NaNs, which differ in sign and payload, and a float
    object keeps the one it was made with; a primitive float does not tell
    them apart, so the pattern of the object at hand, should it be a NaN, is
    given apart as [nan_bits]. *)
Definition float_bits (nan_bits : Z) (x : float) : Z :=
  let sign (s : bool) := if s then 2 ^ 63 else 0 in
  match Prim2SF x with
  | S754_zero s => sign s
  | S754_infinity s => sign s + 2047 * 2 ^ 52
  | S754_nan => nan_bits
  | S754_finite s m e =>
      if Z.pos m <? 2 ^ 52 then sign s + Z.pos m
      else sign s + (e + 1075) * 2 ^ 52 + (Z.pos m - 2 ^ 52)
  end.

(** [struct.pack("!d", x)], for a float object [x] whose bit pattern is
    [nan_bits] when it is a NaN. *)
Definition pack_double (nan_bits : Z) (x : float) : bytes :=
  be_bytes 8 (float_bits nan_bits x).

(** [float(z)] for an integer: the nearest binary64 value, ties to even. *)
Definition float_of_int (z : Z) : float :=
  SF2Prim (binary_normalize prec emax z 0 false).

End Py.

(* ------------------------------------------------------------------ *)
(** ** [hashlib.sha256]: SHA-256 as FIPS 180-4 defines it              *)
(* ------------------------------------------------------------------ *)

Module Sha256.

Definition w32 (x : Z) : Z := x mod 2 ^ 32.
Definition add32 (x y : Z) : Z := w32 (x + y).
Definition rotr (n x : Z) : Z := Z.lor (Z.shiftr x n) (w32 (Z.shiftl x (32 - n))).
Definition not32 (x : Z) : Z := Z.lxor x (2 ^ 32 - 1).

Definition Ch (x y z : Z) : Z := Z.lxor (Z.land x y) (Z.land (not32 x) z).
Definition Maj (x y z : Z) : Z :=
  Z.lxor (Z.lxor (Z.land x y) (Z.land x z)) (Z.land y z).
Definition Sigma0 (x : Z) : Z := Z.lxor (Z.lxor (rotr 2 x) (rotr 13 x)) (rotr 22 x).
Definition Sigma1 (x : Z) : Z := Z.lxor (Z.lxor (rotr 6 x) (rotr 11 x)) (rotr 25 x).
Definition sigma0 (x : Z) : Z := Z.lxor (Z.lxor (rotr 7 x) (rotr 18 x)) (Z.shiftr x 3).
Definition sigma1 (x : Z) : Z := Z.lxor (Z.lxor (rotr 17 x) (rotr 19 x)) (Z.shiftr x 10).

Definition K : list Z :=
  [ 1116352408; 1899447441; 3049323471; 3921009573; 961987163; 1508970993;
    2453635748; 2870763221; 3624381080; 310598401; 607225278; 1426881987;
    1925078388; 2162078206; 2614888103; 3248222580; 3835390401; 4022224774;
    264347078; 604807628; 770255983; 1249150122; 1555081692; 1996064986;
    2554220882; 2821834349; 2952996808; 3210313671; 3336571891; 3584528711;
    113926993; 338241895; 666307205; 773529912; 1294757372; 1396182291;
    1695183700; 1986661051; 2177026350; 2456956037; 2730485921; 2820302411;
    3259730800; 3345764771; 3516065817; 3600352804; 4094571909; 275423344;
    430227734; 506948616; 659060556; 883997877; 958139571; 1322822218;
    1537002063; 1747873779; 1955562222; 2024104815; 2227730452; 2361852424;
    2428436474; 2756734187; 3204031479; 3329325298 ].

(** The eight working variables. *)
Record hstate : Type := mkH {
  ha : Z; hb : Z; hc : Z; hd : Z; he : Z; hf : Z; hg : Z; hh : Z
}.

Definition H0 : hstate :=
  mkH 1779033703 3144134277 1013904242 2773480762
      1359893119 2600822924 528734635 1541459225.

Definition round (st : hstate) (k w : Z) : hstate :=
  let t1 := w32 (hh st + Sigma1 (he st) + Ch (he st) (hf st) (hg st) + k + w) in
  let t2 := w32 (Sigma0 (ha st) + Maj (ha st) (hb st) (hc st)) in
  mkH (add32 t1 t2) (ha st) (hb st) (hc st) (add32 (hd st) t1) (he st) (hf st) (hg st).

(** The message schedule is kept as a window of the last 16 words. *)
Definition schedule_next (win : list Z) : Z :=
  w32 (sigma1 (nth 14 win 0) + nth 9 win 0 + sigma0 (nth 1 win 0) + nth 0 win 0).

Fixpoint rounds (ks win : list Z) (st : hstate) : hstate :=
  match ks with
  | [] => st
  | k :: ks' => rounds ks' (tl win ++ [schedule_next win]) (round st k (nth 0 win 0))
  end.

Definition compress (st : hstate) (block : list Z) : hstate :=
  let r := rounds K block st in
  mkH (add32 (ha st) (ha r)) (add32 (hb st) (hb r)) (add32 (hc st) (hc r))
      (add32 (hd st) (hd r)) (add32 (he st) (he r)) (add32 (hf st) (hf r))
      (add32 (hg st) (hg r)) (add32 (hh st) (hh r)).

Definition pad (msg : Py.bytes) : Py.bytes :=
  let len := Z.of_nat (List.length msg) in
  msg ++ [x80] ++ repeat x00 (Z.to_nat ((55 - len) mod 64)) ++ Py.be_bytes 8 (8 * len).

Fixpoint words (l : Py.bytes) : list Z :=
  match l with
  | a :: b :: c :: d :: r => Py.int_from_bytes_big [a; b; c; d] :: words r
  | _ => []
  end.

Fixpoint blocks (fuel : nat) (ws : list Z) (st : hstate) : hstate :=
  match fuel with
  | O => st
  | S fuel' =>
      match ws with
      | [] => st
      | _ => blocks fuel' (skipn 16 ws) (compress st (firstn 16 ws))
      end
  end.

Definition digest_bytes (st : hstate) : Py.bytes :=
  Py.be_bytes 4 (ha st) ++ Py.be_bytes 4 (hb st) ++ Py.be_bytes 4 (hc st) ++
  Py.be_bytes 4 (hd st) ++ Py.be_bytes 4 (he st) ++ Py.be_bytes 4 (hf st) ++
  Py.be_bytes 4 (hg st) ++ Py.be_bytes 4 (hh st).

(** [hashlib.sha256(msg).digest()]. *)
Definition sha256 (msg : Py.bytes) : Py.bytes :=
  let ws := words (pad msg) in
  digest_bytes (blocks (List.length ws) ws H0).

Arguments sha256 : simpl never.

End Sha256.

(* ------------------------------------------------------------------ *)
(** ** [ELTT-Blockchain.py]                                            *)
(* ------------------------------------------------------------------ *)

Module Ledger.
Import Py.

Definition ELTT_MAX_TOKEN_SYMBOL_LEN : Z := 16.
Definition ELTT_MAX_TOKEN_NAME_LEN : Z := 64.
Definition ELTT_MAX_ADDRESS_LEN : Z := 64.
Definition ELTT_MAX_MEMO_LEN : Z := 128.
Definition ELTT_MAX_TOKEN_TYPES : Z := 64.
Definition ELTT_MAX_TX_PER_BLOCK : Z := 256.
Definition ELTT_MAX_WALLETS : Z := 1024.
Definition ELTT_MAX_POOLS : Z := 256.
Definition ELTT_MAX_STAKES : Z := 1024.

Definition len {A : Type} (l : list A) : Z := Z.of_nat (List.length l).

Definition _si_byte_value_from_size (size : Z) : float :=
  if size <=? 0 then 0%float else float_of_int size.

Definition _binary_byte_value_from_size (size : Z) : float :=
  if size <=? 0 then 0%float else float_of_int size.

Inductive TokenKind : Type := TTTC | ELTT | ELTC | GENERIC | LP.

Record TokenType : Type := mkTokenType {
  name : string;
  symbol : string;
  decimals : Z;
  token_kind : TokenKind;
  energy_binding_factor : float
}.

Record Wallet : Type := mkWallet {
  address : string;
  token_count : Z;
  tokens : list TokenType;
  balances : list float
}.

(** The 13 constants of class [TxKind]; a [kind] is one of them. *)
Inductive TxKind : Type :=
| TRANSFER | MINT | BURN | CREATE_TOKEN | CREATE_POOL | ADD_LIQUIDITY
| REMOVE_LIQUIDITY | STAKE | UNSTAKE | CLAIM_REWARDS | SWAP | PROFILE_UPDATE
| GOVERNANCE_PROPOSAL.

Record Transaction : Type := mkTransaction {
  from_address : string;
  to_address : string;
  amount : float;
  token_index : Z;
  kind : TxKind;
  memo : string
}.

Record Block : Type := mkBlock {
  index : Z;
  timestamp : Z;
  prev_hash : bytes;
  hash : bytes;
  txs : list Transaction
}.

Record LiquidityPool : Type := mkLiquidityPool {
  token_x_index : Z;
  token_y_index : Z;
  reserve_x : float;
  reserve_y : float;
  lp_token_index : Z
}.

Record StakingPosition : Type := mkStakingPosition {
  owner : string;
  stake_token_index : Z;
  stake_amount : float;
  start_timestamp : Z;
  lock_until : Z;
  accumulated_rewards : float
}.

Record Blockchain : Type := mkBlockchain {
  blocks : list Block;
  wallets : list Wallet;
  token_types : list TokenType;
  pools : list LiquidityPool;
  stakes : list StakingPosition
}.

Definition set_blocks (bc : Blockchain) (bs : list Block) : Blockchain :=
  mkBlockchain bs (wallets bc) (token_types bc) (pools bc) (stakes bc).
Definition set_wallets (bc : Blockchain) (ws : list Wallet) : Blockchain :=
  mkBlockchain (blocks bc) ws (token_types bc) (pools bc) (stakes bc).
Definition set_token_types (bc : Blockchain) (ts : list TokenType) : Blockchain :=
  mkBlockchain (blocks bc) (wallets bc) ts (pools bc) (stakes bc).
Definition set_balances (w : Wallet) (bs : list float) : Wallet :=
  mkWallet (address w) (token_count w) (tokens w) bs.

(** *** The state-and-exception monad of the mutating operations *)

Definition M (A : Type) : Type := Blockchain -> result A * Blockchain.

Definition ret {A : Type} (a : A) : M A := fun bc => (Ok a, bc).
Definition bind {A B : Type} (m : M A) (k : A -> M B) : M B :=
  fun bc =>
    match m bc with
    | (Ok a, bc') => k a bc'
    | (Raise e, bc') => (Raise e, bc')
    end.
Definition lift {A : Type} (r : result A) : M A := fun bc => (r, bc).
Definition get : M Blockchain := fun bc => (Ok bc, bc).
Definition put (bc' : Blockchain) : M unit := fun _ => (Ok tt, bc').

Notation "x <- c ;; k" := (bind c (fun x => k))
  (at level 61, c at next level, right associativity).
Notation "c ;;; k" := (bind c (fun _ => k))
  (at level 61, right associativity).

(** *** Serialization and hashing *)

Definition kind_code (k : TxKind) : Z :=
  match k with
  | TRANSFER => 0 | MINT => 1 | BURN => 2 | CREATE_TOKEN => 3
  | CREATE_POOL => 4 | ADD_LIQUIDITY => 5 | REMOVE_LIQUIDITY => 6
  | STAKE => 7 | UNSTAKE => 8 | CLAIM_REWARDS => 9 | SWAP => 10
  | PROFILE_UPDATE => 11 | GOVERNANCE_PROPOSAL => 12
  end.

(** [nan_bits] is the bit pattern of the float object [tx.amount] when it is
    a NaN (see [float_bits]); it is read in no other case. *)
Definition _serialize_transaction (nan_bits : Z) (tx : Transaction) : result bytes :=
  let from_bytes := utf8_encode (from_address tx) ++ [x00] in
  let to_bytes := utf8_encode (to_address tx) ++ [x00] in
  let memo_bytes := utf8_encode (memo tx) ++ [x00] in
  ti <-? pack_int32 (token_index tx) ;;
  kc <-? pack_int32 (kind_code (kind tx)) ;;
  Ok (from_bytes ++ to_bytes ++ pack_double nan_bits (amount tx) ++ ti ++ kc ++
      memo_bytes).

Definition _serialize_block_header (block : Block) : result bytes :=
  i <-? pack_unsigned 4 (index block) ;;
  t <-? pack_unsigned 8 (timestamp block) ;;
  n <-? pack_unsigned 8 (len (txs block)) ;;
  Ok (i ++ t ++ prev_hash block ++ n).

Definition compute_block_hash (block : Block) : result bytes :=
  header <-? _serialize_block_header block ;;
  Ok (Sha256.sha256 header).

(** *** Energy *)

Definition compute_tx_energy (nan_bits : Z) (tx : Transaction) : result float :=
  serialized <-? _serialize_transaction nan_bits tx ;;
  let si_value := _si_byte_value_from_size (len serialized) in
  let bin_value := _binary_byte_value_from_size (len serialized) in
  let h := Sha256.sha256 serialized in
  let last8 := int_from_bytes_big (slice h 24 32) in
  let frac := (float_of_int (last8 mod 1000000000) / 1000000000)%float in
  Ok (si_value + bin_value + frac)%float.

(** *** Wallets and token types *)

Fixpoint find_from (ws : list Wallet) (a : string) (i : Z) : Z :=
  match ws with
  | [] => -1
  | w :: r => if String.eqb (address w) a then i else find_from r a (i + 1)
  end.

Definition _find_wallet_index (bc : Blockchain) (a : string) : Z :=
  find_from (wallets bc) a 0.

Definition _add_wallet (a : string) : M Z :=
  bc <- get ;;
  if ELTT_MAX_WALLETS <=? len (wallets bc) then ret (-1)
  else
    let w := mkWallet a (len (token_types bc)) (token_types bc)
               (repeat 0%float (List.length (token_types bc))) in
    put (set_wallets bc (wallets bc ++ [w])) ;;;
    ret (len (wallets bc ++ [w]) - 1).

Definition _find_or_create_wallet (a : string) : M Z :=
  bc <- get ;;
  let idx := _find_wallet_index bc a in
  if 0 <=? idx then ret idx else _add_wallet a.

Definition add_token_type (nm sym : string) (dec : Z) (k : TokenKind)
    (ebf : float) : M Z :=
  bc <- get ;;
  if ELTT_MAX_TOKEN_TYPES <=? len (token_types bc) then ret (-1)
  else
    let t := mkTokenType (str_take (Z.to_nat ELTT_MAX_TOKEN_NAME_LEN) nm)
               (str_take (Z.to_nat ELTT_MAX_TOKEN_SYMBOL_LEN) sym) dec k ebf in
    let tts := token_types bc ++ [t] in
    let sync (w : Wallet) :=
      mkWallet (address w) (len tts) tts (balances w ++ [0%float]) in
    put (mkBlockchain (blocks bc) (map sync (wallets bc)) tts (pools bc) (stakes bc)) ;;;
    ret (len tts - 1).

(** *** Transaction validation and application *)

Definition sender_can_pay (bc : Blockchain) (tx : Transaction) (from_idx : Z)
    : result bool :=
  if from_idx <? 0 then Ok false
  else
    w <-? getitem (wallets bc) from_idx ;;
    b <-? getitem (balances w) (token_index tx) ;;
    if (b <? amount tx)%float then Ok false
    else if (amount tx <=? 0)%float then Ok false
    else Ok true.

Definition _validate_transaction (bc : Blockchain) (tx : Transaction) : result bool :=
  if (token_index tx <? 0) || (len (token_types bc) <=? token_index tx) then Ok false
  else if (amount tx <? 0)%float then Ok false
  else
    let from_idx := _find_wallet_index bc (from_address tx) in
    let to_idx := _find_wallet_index bc (to_address tx) in
    match kind tx with
    | TRANSFER | SWAP | STAKE => sender_can_pay bc tx from_idx
    | MINT =>
        if to_idx <? 0 then Ok false
        else if (amount tx <=? 0)%float then Ok false
        else Ok true
    | BURN => sender_can_pay bc tx from_idx
    | _ => Ok true
    end.

(** [bc.wallets[widx].balances[tidx] = op(bc.wallets[widx].balances[tidx], amt)],
    the augmented assignments [-=] and [+=] of the applier. *)
Definition update_balance (op : float -> float -> float) (widx tidx : Z)
    (amt : float) : M unit :=
  bc <- get ;;
  w <- lift (getitem (wallets bc) widx) ;;
  b <- lift (getitem (balances w) tidx) ;;
  bs <- lift (setitem (balances w) tidx (op b amt)) ;;
  ws <- lift (setitem (wallets bc) widx (set_balances w bs)) ;;
  put (set_wallets bc ws).

Definition isub_balance : Z -> Z -> float -> M unit := update_balance PrimFloat.sub.
Definition iadd_balance : Z -> Z -> float -> M unit := update_balance PrimFloat.add.

Definition _apply_transaction (tx : Transaction) : M unit :=
  from_idx <- _find_or_create_wallet (from_address tx) ;;
  to_idx <- _find_or_create_wallet (to_address tx) ;;
  match kind tx with
  | TRANSFER | SWAP =>
      isub_balance from_idx (token_index tx) (amount tx) ;;;
      iadd_balance to_idx (token_index tx) (amount tx)
  | MINT => iadd_balance to_idx (token_index tx) (amount tx)
  | BURN => isub_balance from_idx (token_index tx) (amount tx)
  | _ => ret tt
  end.

(** *** Block validation and chain construction *)

Definition zero_hash : bytes := repeat x00 32.

(** The genesis / non-genesis branch that opens [_validate_block]. *)
Definition check_linkage (bc : Blockchain) (block : Block) : result bool :=
  if index block =? 0 then
    if negb (bytes_eqb (prev_hash block) zero_hash) then Ok false else Ok true
  else
    match blocks bc with
    | [] => Ok false
    | _ =>
        prev <-? getitem (blocks bc) (-1) ;;
        if negb (index block =? index prev + 1) then Ok false
        else if negb (bytes_eqb (prev_hash block) (hash prev)) then Ok false
        else Ok true
    end.

(** [for tx in txs: if not _validate_transaction(bc, tx): return False]. *)
Fixpoint validate_all (bc : Blockchain) (l : list Transaction) : result bool :=
  match l with
  | [] => Ok true
  | tx :: r =>
      ok <-? _validate_transaction bc tx ;;
      if negb ok then Ok false else validate_all bc r
  end.

Definition _validate_block (bc : Blockchain) (block : Block) : result bool :=
  linked <-? check_linkage bc block ;;
  if negb linked then Ok false
  else
    let tmp := mkBlock (index block) (timestamp block) (prev_hash block) [] (txs block) in
    tmp_hash <-? compute_block_hash tmp ;;
    if negb (bytes_eqb tmp_hash (hash block)) then Ok false
    else validate_all bc (txs block).

(** [for tx in txs: _apply_transaction(bc, tx)]. *)
Fixpoint apply_all (l : list Transaction) : M unit :=
  match l with
  | [] => ret tt
  | tx :: r => _apply_transaction tx ;;; apply_all r
  end.

Definition append_block (block : Block) : M bool :=
  bc <- get ;;
  ok <- lift (_validate_block bc block) ;;
  if negb ok then ret false
  else
    put (set_blocks bc (blocks bc ++ [block])) ;;;
    apply_all (txs block) ;;;
    ret true.

(** *** Genesis *)

Definition empty_blockchain : Blockchain := mkBlockchain [] [] [] [] [].

Definition init_blockchain : Blockchain :=
  snd ((add_token_type "TTTC" "TTTC" 8 TTTC 0.75%float ;;;
        add_token_type "ELTT" "ELTT" 8 ELTT 0.75%float ;;;
        add_token_type "ELTC" "ELTC" 8 ELTC 0.75%float) empty_blockchain).

Definition build_genesis_block (owner_address : string) (ts : Z) : result Block :=
  let block := mkBlock 0 ts zero_hash [] [] in
  h <-? compute_block_hash block ;;
  Ok (mkBlock 0 ts zero_hash h []).

Definition create_genesis (owner_address : string) (ts : Z) : M unit :=
  genesis <- lift (build_genesis_block owner_address ts) ;;
  append_block genesis ;;;
  ret tt.

End Ledger.

(* ------------------------------------------------------------------ *)
(** ** [ELTT-Validator.py]                                             *)
(* ------------------------------------------------------------------ *)

Module Validator.
Import Py.

Definition ELTT_MAX_ADDRESS_LEN : Z := 64.
Definition ELTT_MAX_TX_PER_BLOCK : Z := 256.

Definition len {A : Type} (l : list A) : Z := Z.of_nat (List.length l).

Inductive TokenKind : Type := TTTC | ELTT | ELTC | GENERIC | LP.

Record TokenType : Type := mkTokenType {
  name : string;
  symbol : string;
  decimals : Z;
  token_kind : TokenKind;
  energy_binding_factor : float
}.

Record Wallet : Type := mkWallet {
  address : string;
  token_count : Z;
  tokens : list TokenType;
  balances : list float
}.

Inductive TxKind : Type :=
| TRANSFER | MINT | BURN | CREATE_TOKEN | CREATE_POOL | ADD_LIQUIDITY
| REMOVE_LIQUIDITY | STAKE | UNSTAKE | CLAIM_REWARDS | SWAP | PROFILE_UPDATE
| GOVERNANCE_PROPOSAL.

(** [kind.value]. *)
Definition value (k : TxKind) : string :=
  match k with
  | TRANSFER => "TRANSFER" | MINT => "MINT" | BURN => "BURN"
  | CREATE_TOKEN => "CREATE_TOKEN" | CREATE_POOL => "CREATE_POOL"
  | ADD_LIQUIDITY => "ADD_LIQUIDITY" | REMOVE_LIQUIDITY => "REMOVE_LIQUIDITY"
  | STAKE => "STAKE" | UNSTAKE => "UNSTAKE" | CLAIM_REWARDS => "CLAIM_REWARDS"
  | SWAP => "SWAP" | PROFILE_UPDATE => "PROFILE_UPDATE"
  | GOVERNANCE_PROPOSAL => "GOVERNANCE_PROPOSAL"
  end.

Definition TxKind_members : list TxKind :=
  [ TRANSFER; MINT; BURN; CREATE_TOKEN; CREATE_POOL; ADD_LIQUIDITY;
    REMOVE_LIQUIDITY; STAKE; UNSTAKE; CLAIM_REWARDS; SWAP; PROFILE_UPDATE;
    GOVERNANCE_PROPOSAL ].

(** [k in TxKind]. *)
Definition in_TxKind (k : TxKind) : bool :=
  existsb (fun m => String.eqb (value m) (value k)) TxKind_members.

(** The six fields of the dataclass, and [amount_id]: the identity
    [id(tx.amount)] of the float object that [amount] refers to.  Two
    transactions can hold the same float object or two objects of the same
    value; the validator can tell only through [hash], which derives the hash
    of a NaN from the identity of the object. *)
Record Transaction : Type := mkTransaction {
  from_address : string;
  to_address : string;
  amount : float;
  token_index : Z;
  kind : TxKind;
  memo : string;
  amount_id : Z
}.

Record Block : Type := mkBlock {
  index : Z;
  timestamp : Z;
  prev_hash : bytes;
  hash : bytes;
  txs : list Transaction
}.

Record LiquidityPool : Type := mkLiquidityPool {
  token_x_index : Z;
  token_y_index : Z;
  reserve_x : float;
  reserve_y : float;
  lp_token_index : Z
}.

Record StakingPosition : Type := mkStakingPosition {
  owner : string;
  stake_token_index : Z;
  stake_amount : float;
  start_timestamp : Z;
  lock_until : Z;
  accumulated_rewards : float
}.

Record BlockchainState : Type := mkBlockchainState {
  blocks : list Block;
  wallets : list Wallet;
  token_types : list TokenType;
  pools : list LiquidityPool;
  stakes : list StakingPosition
}.

Inductive ValidatorError : Type :=
| OK
| NULL_BLOCKCHAIN | NO_BLOCKS
| GENESIS_PREV_HASH | BLOCK_INDEX_SEQUENCE | BLOCK_PREV_HASH_MISMATCH
| BLOCK_HASH_MISMATCH | TIMESTAMP_NON_MONOTONIC
| TOKEN_SYMBOL_DUPLICATE | WALLET_ADDRESS_INVALID | WALLET_BALANCE_NEGATIVE
| POOL_INDEX_INVALID | POOL_RESERVE_NEGATIVE
| STAKE_OWNER_INVALID | STAKE_AMOUNT_NEGATIVE | STAKE_TIME_INCONSISTENT
| TX_TOKEN_INDEX_INVALID | TX_AMOUNT_NEGATIVE | TX_KIND_INVALID
| TX_REPLAY_DUPLICATE_IN_BLOCK
| UNKNOWN.

Definition chars (s : string) : list ascii := list_ascii_of_string s.

(** [ord(ch)]. *)
Definition ord (ch : ascii) : Z := Z.of_N (N_of_ascii ch).

Definition _is_address_valid (addr : string) : bool :=
  if (len (chars addr) =? 0) || (ELTT_MAX_ADDRESS_LEN <=? len (chars addr)) then false
  else forallb (fun ch => negb ((ord ch <? 32) || (ord ch =? 127))) (chars addr).

(** [len(symbols) == len(set(symbols))]; [nodup] keeps one copy of each. *)
Definition _check_token_symbols_unique (state : BlockchainState) : bool :=
  let symbols := map symbol (token_types state) in
  len symbols =? len (nodup string_dec symbols).

(** [for x in l: <body returning an error or falling through>; return None]. *)
Fixpoint first_error {A : Type} (body : A -> option ValidatorError) (l : list A)
    : option ValidatorError :=
  match l with
  | [] => None
  | x :: r =>
      match body x with
      | Some e => Some e
      | None => first_error body r
      end
  end.

Definition _check_wallets (state : BlockchainState) : option ValidatorError :=
  first_error (fun w =>
    if negb (_is_address_valid (address w)) then Some WALLET_ADDRESS_INVALID
    else if len (token_types state) <? token_count w then Some TX_TOKEN_INDEX_INVALID
    else if existsb (fun bal => (bal <? 0)%float) (slice_to (balances w) (token_count w))
         then Some WALLET_BALANCE_NEGATIVE
    else None) (wallets state).

Definition bad_index (token_len i : Z) : bool := (i <? 0) || (token_len <=? i).

Definition _check_pools (state : BlockchainState) : option ValidatorError :=
  let token_len := len (token_types state) in
  first_error (fun p =>
    if bad_index token_len (token_x_index p) then Some POOL_INDEX_INVALID
    else if bad_index token_len (token_y_index p) then Some POOL_INDEX_INVALID
    else if bad_index token_len (lp_token_index p) then Some POOL_INDEX_INVALID
    else if (reserve_x p <? 0)%float || (reserve_y p <? 0)%float
         then Some POOL_RESERVE_NEGATIVE
    else None) (pools state).

Definition _check_stakes (state : BlockchainState) : option ValidatorError :=
  let token_len := len (token_types state) in
  first_error (fun s =>
    if negb (_is_address_valid (owner s)) then Some STAKE_OWNER_INVALID
    else if bad_index token_len (stake_token_index s) then Some TX_TOKEN_INDEX_INVALID
    else if (stake_amount s <? 0)%float then Some STAKE_AMOUNT_NEGATIVE
    else if lock_until s <? start_timestamp s then Some STAKE_TIME_INCONSISTENT
    else None) (stakes state).

(** What [hash] reads of a float object: its value, or, when the value is a
    NaN, the identity of the object (since Python 3.10; before that every NaN
    hashed to 0, which is one of the functions [py_hash] below ranges
    over). *)
Inductive hashed_float : Type :=
| Number (x : float)
| NotANumber (id : Z).

Definition hashed_amount (tx : Transaction) : hashed_float :=
  if is_nan (amount tx) then NotANumber (amount_id tx) else Number (amount tx).

(** The tuple handed to [hash], as [hash] reads it. *)
Definition fingerprint : Type :=
  (string * string * Z * hashed_float * string * string)%type.

Definition fingerprint_of (tx : Transaction) : fingerprint :=
  (from_address tx, to_address tx, token_index tx, hashed_amount tx,
   value (kind tx), memo tx).

(** The field checks made on a transaction before it is fingerprinted. *)
Definition tx_field_error (state : BlockchainState) (tx : Transaction)
    : option ValidatorError :=
  if bad_index (len (token_types state)) (token_index tx) then Some TX_TOKEN_INDEX_INVALID
  else if (amount tx <? 0)%float then Some TX_AMOUNT_NEGATIVE
  else if negb (in_TxKind (kind tx)) then Some TX_KIND_INVALID
  else if negb (_is_address_valid (from_address tx)) then Some WALLET_ADDRESS_INVALID
  else if negb (_is_address_valid (to_address tx)) then Some WALLET_ADDRESS_INVALID
  else None.

Section WithHash.

(** The interpreter's built-in [hash] on fingerprint tuples: a function of
    what it reads of the tuple, which for a NaN amount is the identity of the
    float object and not its value. *)
Variable py_hash : fingerprint -> Z.

(** The loop of [_check_block_transactions]; [seen] is [seen_hashes]. *)
Fixpoint check_txs (state : BlockchainState) (seen : list Z) (l : list Transaction)
    : option ValidatorError :=
  match l with
  | [] => None
  | tx :: r =>
      match tx_field_error state tx with
      | Some e => Some e
      | None =>
          let h := py_hash (fingerprint_of tx) in
          if existsb (Z.eqb h) seen then Some TX_REPLAY_DUPLICATE_IN_BLOCK
          else check_txs state (seen ++ [h]) r
      end
  end.

Definition _check_block_transactions (state : BlockchainState) (blk : Block)
    : option ValidatorError :=
  if ELTT_MAX_TX_PER_BLOCK <? len (txs blk) then Some UNKNOWN
  else check_txs state [] (txs blk).

Definition zero_hash : bytes := repeat x00 32.

(** The loop of [_check_chain].  [prev] is [None] in the first iteration
    ([i == 0]) and afterwards the block of the previous iteration, which is
    [state.blocks[i - 1]]; [last_ts] is the loop variable of that name. *)
Fixpoint chain_loop (state : BlockchainState) (prev : option Block) (last_ts : Z)
    (l : list Block) : option ValidatorError :=
  match l with
  | [] => None
  | blk :: r =>
      let link :=
        match prev with
        | None =>
            if negb (bytes_eqb (prev_hash blk) zero_hash) then Some GENESIS_PREV_HASH
            else None
        | Some p =>
            if negb (index blk =? index p + 1) then Some BLOCK_INDEX_SEQUENCE
            else if negb (bytes_eqb (prev_hash blk) (hash p))
                 then Some BLOCK_PREV_HASH_MISMATCH
            else None
        end in
      match link with
      | Some e => Some e
      | None =>
          if (match prev with None => false | Some _ => true end)
             && (timestamp blk <? last_ts)
          then Some TIMESTAMP_NON_MONOTONIC
          else
            match _check_block_transactions state blk with
            | Some e => Some e
            | None => chain_loop state (Some blk) (timestamp blk) r
            end
      end
  end.

Definition _check_chain (state : BlockchainState) : option ValidatorError :=
  match blocks state with
  | [] => Some NO_BLOCKS
  | _ => chain_loop state None 0 (blocks state)
  end.

Definition validate_blockchain (state : option BlockchainState) : ValidatorError :=
  match state with
  | None => NULL_BLOCKCHAIN
  | Some state =>
      if negb (_check_token_symbols_unique state) then TOKEN_SYMBOL_DUPLICATE
      else
        match _check_wallets state with
        | Some err => err
        | None =>
            match _check_pools state with
            | Some err => err
            | None =>
                match _check_stakes state with
                | Some err => err
                | None =>
                    match _check_chain state with
                    | Some err => err
                    | None => OK
                    end
                end
            end
        end
  end.

End WithHash.

End Validator.

(* ------------------------------------------------------------------ *)
(** ** Notions used to state the properties of the ledger              *)
(* ------------------------------------------------------------------ *)

Module Spec.
Import Py Ledger.

(** Data-model invariant: every wallet's balance vector is as long as the
    list of token types. *)
Definition balances_aligned (bc : Blockchain) : bool :=
  forallb (fun w => Nat.eqb (List.length (balances w)) (List.length (token_types bc)))
          (wallets bc).

(** Data-model invariant: no balance is negative. *)
Definition no_negative_balance (bc : Blockchain) : bool :=
  forallb (fun w => forallb (fun b => negb (b <? 0)%float) (balances w)) (wallets bc).

(** Data-model invariant: wallet addresses are unique. *)
Fixpoint distinct (l : list string) : bool :=
  match l with
  | [] => true
  | a :: r => negb (existsb (String.eqb a) r) && distinct r
  end.

Definition addresses_unique (bc : Blockchain) : bool :=
  distinct (map address (wallets bc)).

(** The byte layout of a serialized transaction. *)
Definition tx_layout (nan_bits : Z) (tx : Transaction) : bytes :=
  (utf8_encode (from_address tx) ++ [x00]) ++
  (utf8_encode (to_address tx) ++ [x00]) ++
  pack_double nan_bits (amount tx) ++
  be_bytes 4 (token_index tx mod 2 ^ 32) ++
  be_bytes 4 (kind_code (kind tx) mod 2 ^ 32) ++
  (utf8_encode (memo tx) ++ [x00]).

(** The header fields fit the widths [_serialize_block_header] packs them in. *)
Definition header_in_range (b : Block) : bool :=
  (0 <=? index b) && (index b <? 2 ^ 32) &&
  (0 <=? timestamp b) && (timestamp b <? 2 ^ 64) &&
  (len (txs b) <? 2 ^ 64).

Definition is_move (tx : Transaction) : bool :=
  match kind tx with
  | TRANSFER | SWAP => true
  | _ => false
  end.

(** The exact value of a finite float, in units of [2^-1074] (every finite
    binary64 number is an integer multiple of it); 0 for infinities and NaN. *)
Definition ulps (x : float) : Z :=
  match Prim2SF x with
  | S754_finite s m e => (if s then -1 else 1) * (Z.pos m * 2 ^ (e + 1074))
  | _ => 0
  end.

(** A binary64 value that is at least zero and below one: plus zero, or a
    positive finite number with an exponent of at most [-53] (a mantissa has
    at most 53 bits). *)
Definition below_one (x : spec_float) : Prop :=
  match x with
  | S754_zero false => True
  | S754_finite false _ e => e <= -53
  | _ => False
  end.

Definition is_finite (x : float) : bool :=
  match Prim2SF x with
  | S754_zero _ | S754_finite _ _ _ => true
  | _ => false
  end.

(** What wallet [w] holds of token [t], in units of [2^-1074]. *)
Definition held (t : nat) (w : Wallet) : Z := ulps (nth t (balances w) 0%float).

(** The exact total of token [t] over all wallets, in units of [2^-1074]. *)
Definition total_balance (bc : Blockchain) (t : nat) : Z :=
  fold_right Z.add 0 (map (held t) (wallets bc)).

(** The same total as [sum(w.balances[t] for w in bc.wallets)] computes it. *)
Definition float_total (bc : Blockchain) (t : nat) : float :=
  fold_left (fun acc w => (acc + nth t (balances w) 0)%float) (wallets bc) 0%float.

(** [op x y] is finite and equals the real result [zop] of the operation. *)
Definition exact (op : float -> float -> float) (zop : Z -> Z -> Z) (x y : float)
    : bool :=
  is_finite (op x y) && (ulps (op x y) =? zop (ulps x) (ulps y)).

(** The augmented assignment [update_balance op widx tidx amt] rounds nothing
    in state [bc]. *)
Definition update_exact (op : float -> float -> float) (zop : Z -> Z -> Z)
    (widx tidx : Z) (amt : float) (bc : Blockchain) : bool :=
  match getitem (wallets bc) widx with
  | Ok w =>
      match getitem (balances w) tidx with
      | Ok b => exact op zop b amt
      | Raise _ => true
      end
  | Raise _ => true
  end.

(** The debit and the credit that [_apply_transaction] makes for a TRANSFER
    or SWAP in state [bc] both round nothing. *)
Definition move_rounding_free (tx : Transaction) (bc : Blockchain) : bool :=
  match _find_or_create_wallet (from_address tx) bc with
  | (Ok from_idx, bc1) =>
      match _find_or_create_wallet (to_address tx) bc1 with
      | (Ok to_idx, bc2) =>
          update_exact PrimFloat.sub Z.sub from_idx (token_index tx) (amount tx) bc2 &&
          match isub_balance from_idx (token_index tx) (amount tx) bc2 with
          | (Ok _, bc3) =>
              update_exact PrimFloat.add Z.add to_idx (token_index tx) (amount tx) bc3
          | (Raise _, _) => true
          end
      | (Raise _, _) => true
      end
  | (Raise _, _) => true
  end.

(** Every transaction of [l], applied in order from [bc], rounds nothing. *)
Fixpoint block_rounding_free (l : list Transaction) (bc : Blockchain) : bool :=
  match l with
  | [] => true
  | tx :: r =>
      move_rounding_free tx bc &&
      match _apply_transaction tx bc with
      | (Ok _, bc') => block_rounding_free r bc'
      | (Raise _, _) => true
      end
  end.

(** [ws] after [ws[k].balances[t] = op(ws[k].balances[t], amt)]. *)
Definition adjust (op : float -> float -> float) (ws : list Wallet) (k t : nat)
    (amt : float) : list Wallet :=
  match nth_error ws k with
  | Some w =>
      set_nth ws k
        (set_balances w (set_nth (balances w) t (op (nth t (balances w) 0%float) amt)))
  | None => ws
  end.

(** [ws] after a debit of wallet [s] followed by a credit of the last wallet. *)
Definition move_to_last (ws : list Wallet) (s t : nat) (amt : float) : list Wallet :=
  adjust PrimFloat.add (adjust PrimFloat.sub ws s t amt) (List.length ws - 1) t amt.

(** The balance of token [t] held by the wallet at position [i]. *)
Definition balance_at (bc : Blockchain) (i t : nat) : float :=
  match nth_error (wallets bc) i with
  | Some w => nth t (balances w) 0%float
  | None => 0%float
  end.

End Spec.

(* ------------------------------------------------------------------ *)
(** ** Concrete chains, built through the public operations            *)
(* ------------------------------------------------------------------ *)

Module Scenario.
Import Py Ledger.

(** [b] with its [hash] field set to the hash of its header. *)
Definition sealed (b : Block) : Block :=
  match compute_block_hash b with
  | Ok h => mkBlock (index b) (timestamp b) (prev_hash b) h (txs b)
  | Raise _ => b
  end.

Definition last_hash (bc : Blockchain) : bytes :=
  match getitem (blocks bc) (-1) with
  | Ok b => hash b
  | Raise _ => zero_hash
  end.

(** The well-formed successor of the last block of [bc], carrying [l]. *)
Definition next_block (bc : Blockchain) (ts : Z) (l : list Transaction) : Block :=
  sealed (mkBlock (len (blocks bc)) ts (last_hash bc) [] l).

Definition after {A : Type} (m : M A) (bc : Blockchain) : Blockchain := snd (m bc).

Definition genesis : Block := Eval vm_compute in
  sealed (mkBlock 0 0 zero_hash [] []).

(** [init_blockchain()] followed by [create_genesis(bc, "owner", 0)]. *)
Definition chain1 : Blockchain := Eval vm_compute in
  after (create_genesis "owner" 0) init_blockchain.

(** A PROFILE_UPDATE makes the applier create the wallets of alice and bob. *)
Definition block1 : Block := Eval vm_compute in
  next_block chain1 1 [mkTransaction "alice" "bob" 0 0 PROFILE_UPDATE ""].
Definition chain2 : Blockchain := Eval vm_compute in
  after (append_block block1) chain1.

(** alice is minted 10 units of token 0. *)
Definition block2 : Block := Eval vm_compute in
  next_block chain2 2 [mkTransaction "mint" "alice" 10 0 MINT ""].
Definition chain3 : Blockchain := Eval vm_compute in
  after (append_block block2) chain2.

(** alice pays bob her whole balance, twice in one block. *)
Definition pay : Transaction := mkTransaction "alice" "bob" 10 0 TRANSFER "".
Definition block3 : Block := Eval vm_compute in
  next_block chain3 3 [pay; pay].

(** The transaction of the specification's concrete energy case. *)
Definition tx_alice_bob : Transaction := mkTransaction "alice" "bob" 10 0 TRANSFER "".

(** The same transaction with a token index that needs 33 bits. *)
Definition tx_wide_index : Transaction :=
  mkTransaction "alice" "bob" 10 (2 ^ 31) TRANSFER "".

(** A registry of one token type and two wallets. *)
Definition gold : TokenType := mkTokenType "Gold" "GLD" 2 GENERIC 1.
Definition silver : TokenType := mkTokenType "Silver" "SLV" 2 GENERIC 1.
Definition registry2 : Blockchain :=
  mkBlockchain []
    [mkWallet "alice" 1 [gold] [5%float]; mkWallet "bob" 1 [gold] [0%float]]
    [gold] [] [].

(** A valid payment followed by one on a token index that does not exist. *)
Definition block_mixed : Block := Eval vm_compute in
  next_block chain3 3 [mkTransaction "alice" "bob" 4 0 TRANSFER "";
                       mkTransaction "alice" "bob" 1 99 TRANSFER ""].

(** A genesis candidate whose timestamp does not fit the 8 unsigned bytes of
    the header, carrying a payment on a token index that does not exist. *)
Definition block_early : Block :=
  mkBlock 0 (-1) zero_hash [] [mkTransaction "alice" "bob" 1 99 TRANSFER ""].

(** [chain3] with the balance vector of alice emptied, as an assignment to
    [bc.wallets[0].balances] leaves it. *)
Definition chain3_short : Blockchain :=
  mkBlockchain (blocks chain3)
    (match wallets chain3 with
     | w :: r => set_balances w [] :: r
     | [] => []
     end)
    (token_types chain3) (pools chain3) (stakes chain3).

(** A registry at its capacity of 1024 wallets, each holding 100 units of the
    one token type; the addresses are the two-character strings "00".."OO". *)
Definition crowd_address (i : nat) : string :=
  String (ascii_of_nat (48 + i / 32))
    (String (ascii_of_nat (48 + i mod 32)) EmptyString).
Definition crowd : list Wallet :=
  map (fun i => mkWallet (crowd_address i) 1 [gold] [100%float]) (seq 0 1024).
Definition full_registry : Blockchain := mkBlockchain [genesis] crowd [gold] [] [].
Definition pay_newcomer : Transaction :=
  mkTransaction "00" "newcomer" 30 0 TRANSFER "".
Definition block_newcomer : Block := Eval vm_compute in
  next_block full_registry 1 [pay_newcomer].

(** alice pays bob 4 units, then swaps 1 unit to frank, who has no wallet. *)
Definition block_moves : Block := Eval vm_compute in
  next_block chain3 3 [mkTransaction "alice" "bob" 4 0 TRANSFER "";
                       mkTransaction "alice" "frank" 1 0 SWAP ""].

(** Two blocks with the same header fields and different transactions. *)
Definition block_a : Block :=
  mkBlock 7 1000 zero_hash [] [mkTransaction "alice" "bob" 10 0 TRANSFER ""].
Definition block_b : Block :=
  mkBlock 7 1000 zero_hash [x01] [mkTransaction "carol" "dave" 3 1 BURN "memo"].

(** carol and dave hold 1 unit each and erin holds [2^53]; carol pays erin 1. *)
Definition block1' : Block := Eval vm_compute in
  next_block chain1 1 [mkTransaction "carol" "dave" 0 0 PROFILE_UPDATE "";
                       mkTransaction "erin" "erin" 0 0 PROFILE_UPDATE ""].
Definition chain2' : Blockchain := Eval vm_compute in
  after (append_block block1') chain1.
Definition block2' : Block := Eval vm_compute in
  next_block chain2' 2 [mkTransaction "mint" "carol" 1 0 MINT "";
                        mkTransaction "mint" "dave" 1 0 MINT "";
                        mkTransaction "mint" "erin" 9007199254740992 0 MINT ""].
Definition chain3' : Blockchain := Eval vm_compute in
  after (append_block block2') chain2'.
Definition block3' : Block := Eval vm_compute in
  next_block chain3' 3 [mkTransaction "carol" "erin" 1 0 TRANSFER ""].

End Scenario.

(* ------------------------------------------------------------------ *)
(** ** Notions used to state the properties of the validator           *)
(* ------------------------------------------------------------------ *)

Module ValidatorSpec.
Import Py Validator.

(** The two amounts are equal as members of a tuple: they compare equal with
    [==], which no NaN does, or they are one and the same NaN object. *)
Definition same_amount (tx1 tx2 : Transaction) : Prop :=
  (amount tx1 =? amount tx2)%float = true \/
  (is_nan (amount tx1) = true /\ is_nan (amount tx2) = true /\
   amount_id tx1 = amount_id tx2).

(** The fingerprint tuples of two transactions compare equal with [==]. *)
Definition same_fields (tx1 tx2 : Transaction) : Prop :=
  from_address tx1 = from_address tx2 /\
  to_address tx1 = to_address tx2 /\
  token_index tx1 = token_index tx2 /\
  same_amount tx1 tx2 /\
  kind tx1 = kind tx2 /\
  memo tx1 = memo tx2.

(** The six fingerprint fields of two transactions have the same values. *)
Definition same_values (tx1 tx2 : Transaction) : Prop :=
  from_address tx1 = from_address tx2 /\
  to_address tx1 = to_address tx2 /\
  token_index tx1 = token_index tx2 /\
  amount tx1 = amount tx2 /\
  kind tx1 = kind tx2 /\
  memo tx1 = memo tx2.

(** The contract of [hash]: tuples that compare equal hash alike.  Strings
    and integers compare equal when they are the same; floats compare equal
    by IEEE equality. *)
Definition hash_respects_eq (py_hash : fingerprint -> Z) : Prop :=
  forall (f t : string) (i : Z) (a1 a2 : float) (k m : string),
    (a1 =? a2)%float = true ->
    py_hash (f, t, i, Number a1, k, m) = py_hash (f, t, i, Number a2, k, m).

(** Every block after [p] continues its predecessor: next index, the
    predecessor's stored hash as previous-hash, and no earlier timestamp. *)
Fixpoint links_ok (p : Block) (l : list Block) : Prop :=
  match l with
  | [] => True
  | b :: r =>
      index b = index p + 1 /\ prev_hash b = hash p /\
      timestamp p <= timestamp b /\ links_ok b r
  end.

(** The chain is not empty, its first block has the all-zero previous-hash,
    and every later block continues its predecessor. *)
Definition chain_structure_ok (l : list Block) : Prop :=
  match l with
  | [] => False
  | g :: r => prev_hash g = zero_hash /\ links_ok g r
  end.

(** The block is within the size limit and each of its transactions passes
    the field checks. *)
Definition fields_ok (state : BlockchainState) (blk : Block) : Prop :=
  len (txs blk) <= ELTT_MAX_TX_PER_BLOCK /\
  Forall (fun tx => tx_field_error state tx = None) (txs blk).

(** The value appended to [seen_hashes] for a transaction. *)
Definition fp_hash (py_hash : fingerprint -> Z) (tx : Transaction) : Z :=
  py_hash (fingerprint_of tx).

(** No two transactions of the block have the same fingerprint hash. *)
Definition fingerprints_distinct (py_hash : fingerprint -> Z) (blk : Block) : Prop :=
  NoDup (map (fp_hash py_hash) (txs blk)).

(** Everything the validator checks; the correctness of a stored block hash
    is not part of it. *)
Definition consistent (py_hash : fingerprint -> Z) (state : BlockchainState) : Prop :=
  _check_token_symbols_unique state = true /\
  _check_wallets state = None /\
  _check_pools state = None /\
  _check_stakes state = None /\
  chain_structure_ok (blocks state) /\
  Forall (fields_ok state) (blocks state) /\
  Forall (fingerprints_distinct py_hash) (blocks state).

(** The chain engine's aggregate as the snapshot handed to the validator:
    the same fields, in the validator's own (frozen) classes. *)
Definition snapshot_token_kind (k : Ledger.TokenKind) : TokenKind :=
  match k with
  | Ledger.TTTC => TTTC | Ledger.ELTT => ELTT | Ledger.ELTC => ELTC
  | Ledger.GENERIC => GENERIC | Ledger.LP => LP
  end.

Definition snapshot_token (t : Ledger.TokenType) : TokenType :=
  mkTokenType (Ledger.name t) (Ledger.symbol t) (Ledger.decimals t)
    (snapshot_token_kind (Ledger.token_kind t)) (Ledger.energy_binding_factor t).

Definition snapshot_wallet (w : Ledger.Wallet) : Wallet :=
  mkWallet (Ledger.address w) (Ledger.token_count w)
    (map snapshot_token (Ledger.tokens w)) (Ledger.balances w).

Definition snapshot_kind (k : Ledger.TxKind) : TxKind :=
  match k with
  | Ledger.TRANSFER => TRANSFER | Ledger.MINT => MINT | Ledger.BURN => BURN
  | Ledger.CREATE_TOKEN => CREATE_TOKEN | Ledger.CREATE_POOL => CREATE_POOL
  | Ledger.ADD_LIQUIDITY => ADD_LIQUIDITY
  | Ledger.REMOVE_LIQUIDITY => REMOVE_LIQUIDITY
  | Ledger.STAKE => STAKE | Ledger.UNSTAKE => UNSTAKE
  | Ledger.CLAIM_REWARDS => CLAIM_REWARDS | Ledger.SWAP => SWAP
  | Ledger.PROFILE_UPDATE => PROFILE_UPDATE
  | Ledger.GOVERNANCE_PROPOSAL => GOVERNANCE_PROPOSAL
  end.

(** The aggregate of the chain engine holds values; in its snapshot every
    amount is given the identity 0. *)
Definition snapshot_tx (tx : Ledger.Transaction) : Transaction :=
  mkTransaction (Ledger.from_address tx) (Ledger.to_address tx) (Ledger.amount tx)
    (Ledger.token_index tx) (snapshot_kind (Ledger.kind tx)) (Ledger.memo tx) 0.

Definition snapshot_block (b : Ledger.Block) : Block :=
  mkBlock (Ledger.index b) (Ledger.timestamp b) (Ledger.prev_hash b)
    (Ledger.hash b) (map snapshot_tx (Ledger.txs b)).

Definition snapshot_pool (p : Ledger.LiquidityPool) : LiquidityPool :=
  mkLiquidityPool (Ledger.token_x_index p) (Ledger.token_y_index p)
    (Ledger.reserve_x p) (Ledger.reserve_y p) (Ledger.lp_token_index p).

Definition snapshot_stake (s : Ledger.StakingPosition) : StakingPosition :=
  mkStakingPosition (Ledger.owner s) (Ledger.stake_token_index s)
    (Ledger.stake_amount s) (Ledger.start_timestamp s) (Ledger.lock_until s)
    (Ledger.accumulated_rewards s).

Definition snapshot (bc : Ledger.Blockchain) : BlockchainState :=
  mkBlockchainState (map snapshot_block (Ledger.blocks bc))
    (map snapshot_wallet (Ledger.wallets bc))
    (map snapshot_token (Ledger.token_types bc))
    (map snapshot_pool (Ledger.pools bc))
    (map snapshot_stake (Ledger.stakes bc)).

(** The hash the chain engine computes for the header of a validator block. *)
Definition recomputed_hash (b : Block) : result bytes :=
  Ledger.compute_block_hash
    (Ledger.mkBlock (index b) (timestamp b) (prev_hash b) (hash b)
       (map (fun _ => Ledger.mkTransaction "" "" 0 0 Ledger.TRANSFER "") (txs b))).

Definition stored_hash_correct (b : Block) : bool :=
  match recomputed_hash b with
  | Ok h => bytes_eqb h (hash b)
  | Raise _ => false
  end.

(** The snapshot with every stored hash [h] replaced by [phi h], in the
    [hash] fields and in the previous-hash fields that refer to them (the
    previous-hash of the first block refers to no block and is kept). *)
Definition relabel_block (phi : bytes -> bytes) (first : bool) (b : Block) : Block :=
  mkBlock (index b) (timestamp b)
    (if first then prev_hash b else phi (prev_hash b)) (phi (hash b)) (txs b).

Definition relabel_chain (phi : bytes -> bytes) (l : list Block) : list Block :=
  match l with
  | [] => []
  | g :: r => relabel_block phi true g :: map (relabel_block phi false) r
  end.

Definition relabel (phi : bytes -> bytes) (state : BlockchainState) : BlockchainState :=
  mkBlockchainState (relabel_chain phi (blocks state)) (wallets state)
    (token_types state) (pools state) (stakes state).

(** A relabelling whose values are longer than any SHA-256 digest. *)
Definition obscure (h : bytes) : bytes := h ++ repeat x00 33.

(** A hash function on fingerprints, for the concrete snapshots below. *)
Definition demo_hash (fp : fingerprint) : Z :=
  let '(f, t, i, _, k, m) := fp in
  Z.of_nat (String.length f) +
  31 * (Z.of_nat (String.length t) +
        31 * (i + 31 * (Z.of_nat (String.length k) + 31 * Z.of_nat (String.length m)))).

Definition gold : TokenType := mkTokenType "Gold" "GLD" 2 GENERIC 1.

(** A first block holding the same payment at positions 0 and 2, followed in
    the same block by a transaction on a token index that does not exist, and
    then by a block that continues nothing. *)
Definition pay : Transaction := mkTransaction "alice" "bob" 5 0 TRANSFER "rent" 1.
Definition snapshot_replay : BlockchainState :=
  mkBlockchainState
    [mkBlock 0 10 zero_hash [x01]
       [pay; mkTransaction "bob" "alice" 1 0 TRANSFER "" 2; pay;
        mkTransaction "bob" "alice" 1 9 TRANSFER "" 3];
     mkBlock 5 3 [] [] []]
    [mkWallet "alice" 1 [gold] [7%float]] [gold] [] [].

(** A hash function on fingerprints that tells NaN objects apart by their
    identity, as the interpreter does. *)
Definition object_hash (fp : fingerprint) : Z :=
  let '(_, _, _, a, _, _) := fp in
  match a with
  | Number _ => demo_hash fp
  | NotANumber id => 1000003 * demo_hash fp + id
  end.

(** One block holding the same payment of a NaN amount twice: the amounts are
    two float objects. *)
Definition pay_nan (id : Z) : Transaction :=
  mkTransaction "alice" "bob" nan 0 TRANSFER "rent" id.
Definition snapshot_nan_twins : BlockchainState :=
  mkBlockchainState
    [mkBlock 0 10 zero_hash [x01] [pay_nan 1; pay_nan 2]]
    [mkWallet "alice" 1 [gold] [7%float]] [gold] [] [].

(** The same block with one NaN object held by both transactions. *)
Definition snapshot_nan_shared : BlockchainState :=
  mkBlockchainState
    [mkBlock 0 10 zero_hash [x01] [pay_nan 1; pay_nan 1]]
    [mkWallet "alice" 1 [gold] [7%float]] [gold] [] [].

(** Two linked blocks whose stored hashes are one byte and no byte long. *)
Definition snapshot_wrong_hashes : BlockchainState :=
  mkBlockchainState
    [mkBlock 0 10 zero_hash [x01] [pay];
     mkBlock 1 11 [x01] [] [mkTransaction "bob" "alice" 1 0 TRANSFER "" 2]]
    [mkWallet "alice" 1 [gold] [7%float]] [gold] [] [].

End ValidatorSpec.

(* ------------------------------------------------------------------ *)
(** ** The wallet, pool and launcher views on the ledger               *)
(* ------------------------------------------------------------------ *)

(** [PYTHON-ELTT-MODULE-PARITY/ELTT-Blockchain/ELTT-wallet.py]. *)
Module WalletView.
Import Py Ledger.

(** [w.address == address], the test of both loops over [bc.wallets]. *)
Definition has_address (a : string) (w : Wallet) : bool := String.eqb (address w) a.

Definition create_wallet (a : string) : M Wallet :=
  bc <- get ;;
  match find (has_address a) (wallets bc) with
  | Some w => ret w
  | None =>
      let w := mkWallet a (len (token_types bc)) (token_types bc)
                 (repeat 0%float (List.length (token_types bc))) in
      put (set_wallets bc (wallets bc ++ [w])) ;;;
      ret w
  end.

Definition get_wallet (bc : Blockchain) (a : string) : option Wallet :=
  find (has_address a) (wallets bc).

(** [zip] stops at the shorter of the two lists, as [combine] does. *)
Definition list_wallet_tokens (w : Wallet) : list (TokenType * float) :=
  combine (tokens w) (balances w).

Definition build_transfer_tx (from_addr to_addr : string) (amt : float)
    (tidx : Z) (memo_text : string) : Transaction :=
  mkTransaction from_addr to_addr amt tidx TRANSFER (str_take 128 memo_text).

End WalletView.

(** [PYTHON-ELTT-MODULE-PARITY/ELTT-Blockchain/ELTT-liquidity-pools.py]. *)
Module PoolView.
Import Py Ledger.

Definition set_pools (bc : Blockchain) (ps : list LiquidityPool) : Blockchain :=
  mkBlockchain (blocks bc) (wallets bc) (token_types bc) ps (stakes bc).

Definition set_reserves (p : LiquidityPool) (rx ry : float) : LiquidityPool :=
  mkLiquidityPool (token_x_index p) (token_y_index p) rx ry (lp_token_index p).

Definition create_pool (x y lp : Z) : M LiquidityPool :=
  bc <- get ;;
  let pool := mkLiquidityPool x y 0%float 0%float lp in
  put (set_pools bc (pools bc ++ [pool])) ;;;
  ret pool.

Definition get_pool (bc : Blockchain) (pool_index : Z) : result (option LiquidityPool) :=
  if (pool_index <? 0) || (len (pools bc) <=? pool_index) then Ok None
  else p <-? getitem (pools bc) pool_index ;; Ok (Some p).

(** The pool object is the element of [bc.pools]; assigning its reserves
    changes the list at [pool_index].  The pools of the list are distinct
    objects, as [create_pool] makes them. *)
Definition add_liquidity (pool_index : Z) (amount_x amount_y : float) : M unit :=
  bc <- get ;;
  found <- lift (get_pool bc pool_index) ;;
  match found with
  | None => ret tt
  | Some pool =>
      let rx := (reserve_x pool + amount_x)%float in
      let ry := (reserve_y pool + amount_y)%float in
      ps <- lift (setitem (pools bc) pool_index (set_reserves pool rx ry)) ;;
      put (set_pools bc ps)
  end.

Definition remove_liquidity (pool_index : Z) (share_x share_y : float) : M unit :=
  bc <- get ;;
  found <- lift (get_pool bc pool_index) ;;
  match found with
  | None => ret tt
  | Some pool =>
      let rx := (reserve_x pool - share_x)%float in
      let ry := (reserve_y pool - share_y)%float in
      let rx := if (rx <? 0)%float then 0%float else rx in
      let ry := if (ry <? 0)%float then 0%float else ry in
      ps <- lift (setitem (pools bc) pool_index (set_reserves pool rx ry)) ;;
      put (set_pools bc ps)
  end.

Definition build_add_liquidity_tx (from_addr pool_address : string) (amount_x : float)
    (tidx : Z) (memo_text : string) : Transaction :=
  mkTransaction from_addr pool_address amount_x tidx ADD_LIQUIDITY
    (str_take 128 memo_text).

Definition build_remove_liquidity_tx (from_addr pool_address : string)
    (amount_lp : float) (lp_idx : Z) (memo_text : string) : Transaction :=
  mkTransaction from_addr pool_address amount_lp lp_idx REMOVE_LIQUIDITY
    (str_take 128 memo_text).

End PoolView.

(** [PYTHON-ELTT-MODULE-PARITY/ELTT-Blockchain/ELTT-launcher.py]: its own
    copies of the pool operations, with the range test written in place. *)
Module Launcher.
Import Py Ledger.

Definition create_pool (x y lp : Z) : M LiquidityPool :=
  bc <- get ;;
  let pool := mkLiquidityPool x y 0%float 0%float lp in
  put (PoolView.set_pools bc (pools bc ++ [pool])) ;;;
  ret pool.

Definition add_liquidity (pool_index : Z) (amount_x amount_y : float) : M unit :=
  bc <- get ;;
  if (pool_index <? 0) || (len (pools bc) <=? pool_index) then ret tt
  else
    pool <- lift (getitem (pools bc) pool_index) ;;
    let rx := (reserve_x pool + amount_x)%float in
    let ry := (reserve_y pool + amount_y)%float in
    ps <- lift (setitem (pools bc) pool_index (PoolView.set_reserves pool rx ry)) ;;
    put (PoolView.set_pools bc ps).

Definition remove_liquidity (pool_index : Z) (share_x share_y : float) : M unit :=
  bc <- get ;;
  if (pool_index <? 0) || (len (pools bc) <=? pool_index) then ret tt
  else
    pool <- lift (getitem (pools bc) pool_index) ;;
    let rx := (reserve_x pool - share_x)%float in
    let ry := (reserve_y pool - share_y)%float in
    let rx := if (rx <? 0)%float then 0%float else rx in
    let ry := if (ry <? 0)%float then 0%float else ry in
    ps <- lift (setitem (pools bc) pool_index (PoolView.set_reserves pool rx ry)) ;;
    put (PoolView.set_pools bc ps).

(** [token_out_index] is a parameter of the builder and is not used by it. *)
Definition build_swap_tx (from_addr to_addr : string) (amount_in : float)
    (token_in_index token_out_index : Z) (memo_text : string) : Transaction :=
  mkTransaction from_addr to_addr amount_in token_in_index SWAP
    (str_take 128 memo_text).

End Launcher.

(* ------------------------------------------------------------------ *)
(** ** Notions used to state the properties of the chain as a whole    *)
(* ------------------------------------------------------------------ *)

Module ChainSpec.
Import Py Ledger.

(** The stored hash of [b] is the SHA-256 digest of its header. *)
Definition hash_correct (b : Block) : Prop := compute_block_hash b = Ok (hash b).

(** [b] has the shape of a genesis block: index 0 and the all-zero
    previous-hash. *)
Definition genesis_shaped (b : Block) : Prop :=
  index b = 0 /\ prev_hash b = zero_hash.

(** [b] continues [p]: next index and [p]'s stored hash as previous-hash. *)
Definition continues (p b : Block) : Prop :=
  index b = index p + 1 /\ prev_hash b = hash p.

(** Every block of [l] either continues the block before it ([p] for the
    first) or has the shape of a genesis block. *)
Fixpoint chain_from (p : Block) (l : list Block) : Prop :=
  match l with
  | [] => True
  | b :: r => (genesis_shaped b \/ continues p b) /\ chain_from b r
  end.

(** What the chain engine maintains of its list of blocks. *)
Definition chain_inv (l : list Block) : Prop :=
  Forall hash_correct l /\
  match l with
  | [] => True
  | g :: r => genesis_shaped g /\ chain_from g r
  end.

(** [b] with another timestamp and the hash of the header so obtained. *)
Definition retimed (b : Block) (ts : Z) : Block :=
  Scenario.sealed (mkBlock (index b) ts (prev_hash b) [] (txs b)).

(** Every wallet carries the registry's list of token types, its length as
    token count, and one balance per token type. *)
Definition wallet_synced (tts : list TokenType) (w : Wallet) : Prop :=
  tokens w = tts /\ token_count w = len tts /\
  List.length (balances w) = List.length tts.

Definition registry_synced (bc : Blockchain) : Prop :=
  Forall (wallet_synced (token_types bc)) (wallets bc).

(** The wallet that [_add_wallet] and [create_wallet] append. *)
Definition fresh_wallet (bc : Blockchain) (a : string) : Wallet :=
  mkWallet a (len (token_types bc)) (token_types bc)
    (repeat 0%float (List.length (token_types bc))).

(** How the applier may change the aggregate: blocks, token types, pools and
    stakes stay, the wallets keep their order and addresses and new ones are
    appended, and the registry invariants are kept. *)
Definition registry_step (bc bc' : Blockchain) : Prop :=
  blocks bc' = blocks bc /\ token_types bc' = token_types bc /\
  pools bc' = pools bc /\ stakes bc' = stakes bc /\
  (exists added, map address (wallets bc') = map address (wallets bc) ++ added) /\
  (Spec.balances_aligned bc = true -> Spec.balances_aligned bc' = true) /\
  (Spec.addresses_unique bc = true -> Spec.addresses_unique bc' = true) /\
  (registry_synced bc -> registry_synced bc').

(** [widx] designates a wallet of [bc]: a position, or [-1] for the last
    wallet of a registry that is not empty. *)
Definition designates (bc : Blockchain) (widx : Z) : Prop :=
  0 <= widx < len (wallets bc) \/ (widx = -1 /\ 0 < len (wallets bc)).

(** [x] after [if x < 0.0: x = 0.0]. *)
Definition clamped (x : float) : float := if (x <? 0)%float then 0%float else x.

(** The kinds for which [_apply_transaction] touches a balance. *)
Definition moves_balance (k : TxKind) : bool :=
  match k with
  | TRANSFER | SWAP | MINT | BURN => true
  | _ => false
  end.

(** The kinds whose validation looks at the sender's balance. *)
Definition checks_sender (k : TxKind) : bool :=
  match k with
  | TRANSFER | SWAP | STAKE | BURN => true
  | _ => false
  end.

(** The credit of a MINT, or the debit of a BURN, that [_apply_transaction]
    makes in state [bc] rounds nothing. *)
Definition supply_rounding_free (tx : Transaction) (bc : Blockchain) : bool :=
  match _find_or_create_wallet (from_address tx) bc with
  | (Ok from_idx, bc1) =>
      match _find_or_create_wallet (to_address tx) bc1 with
      | (Ok to_idx, bc2) =>
          match kind tx with
          | MINT =>
              Spec.update_exact PrimFloat.add Z.add to_idx (token_index tx) (amount tx) bc2
          | BURN =>
              Spec.update_exact PrimFloat.sub Z.sub from_idx (token_index tx) (amount tx) bc2
          | _ => true
          end
      | (Raise _, _) => true
      end
  | (Raise _, _) => true
  end.

(** What a MINT or a BURN of [tx]'s amount does to the exact total of its
    token, in units of [2^-1074]. *)
Definition supply_change (tx : Transaction) : Z :=
  match kind tx with
  | MINT => Spec.ulps (amount tx)
  | BURN => - Spec.ulps (amount tx)
  | _ => 0
  end.

End ChainSpec.

(* ------------------------------------------------------------------ *)
(** ** What the registry checks of the validator mean                  *)
(* ------------------------------------------------------------------ *)

Module ValidatorMeaning.
Import Py Validator.

(** An address the validator accepts: between 1 and 63 characters, none of
    them a control character (below 32, or 127). *)
Definition address_ok (a : string) : Prop :=
  0 < len (chars a) < ELTT_MAX_ADDRESS_LEN /\
  Forall (fun ch => 32 <= ord ch /\ ord ch <> 127) (chars a).

(** [x < 0.0] is false: [x] is zero, positive or not a number. *)
Definition not_negative (x : float) : Prop := (x <? 0)%float = false.

Definition wallet_ok (n : Z) (w : Wallet) : Prop :=
  address_ok (address w) /\ token_count w <= n /\
  Forall not_negative (slice_to (balances w) (token_count w)).

Definition pool_ok (n : Z) (p : LiquidityPool) : Prop :=
  0 <= token_x_index p < n /\ 0 <= token_y_index p < n /\
  0 <= lp_token_index p < n /\
  not_negative (reserve_x p) /\ not_negative (reserve_y p).


(** The snapshot with [k] added to the index of every block. *)
Definition shift_block (k : Z) (b : Block) : Block :=
  mkBlock (index b + k) (timestamp b) (prev_hash b) (hash b) (txs b).

Definition shift_indices (k : Z) (state : BlockchainState) : BlockchainState :=
  mkBlockchainState (map (shift_block k) (blocks state)) (wallets state)
    (token_types state) (pools state) (stakes state).

(** A rule of the chain that two neighbouring blocks [q], [b] break, with the
    error code that reports it. *)
Definition link_defect (e : ValidatorError) (q b : Block) : Prop :=
  (e = BLOCK_INDEX_SEQUENCE /\ index b <> index q + 1) \/
  (e = BLOCK_PREV_HASH_MISMATCH /\ prev_hash b <> hash q) \/
  (e = TIMESTAMP_NON_MONOTONIC /\ timestamp b < timestamp q).

End ValidatorMeaning.

(* ------------------------------------------------------------------ *)
(** ** Concrete states with pools                                      *)
(* ------------------------------------------------------------------ *)

Module Fixture.
Import Py Ledger.

(** Two token types and one pool over them, with reserves 5 and 7. *)
Definition pooled : Blockchain :=
  mkBlockchain [] [] [Scenario.gold; Scenario.silver]
    [mkLiquidityPool 0 1 5%float 7%float 0] [].

(** The same state after [create_pool(bc, 0, 9, 0)]: token index 9 does not
    exist. *)
Definition pooled_wrong : Blockchain :=
  PoolView.set_pools pooled (pools pooled ++ [mkLiquidityPool 0 9 0%float 0%float 0]).

End Fixture.

(* ------------------------------------------------------------------ *)
(** * Properties                                                       *)
(* ------------------------------------------------------------------ *)

Import Py.

(** Splits on every test of a chain of [if]s whose branches each return a
    fixed error, and finds that error in the list of the goal. *)
Ltac error_in_range :=
  repeat match goal with
         | |- context [if ?c then _ else _] => destruct c
         end;
  intros [= <-]; simpl; tauto.

(** ** Python runtime *)

Lemma bytes_eqb_eq (a b : bytes) : bytes_eqb a b = true <-> a = b.
Proof.
  revert b; induction a as [|x a IH]; intros [|y b]; simpl; split; intro H;
    try reflexivity; try discriminate.
  - apply andb_true_iff in H as [Hx Hr]. apply Byte.byte_dec_bl in Hx.
    apply IH in Hr. now subst.
  - injection H as -> ->. rewrite Byte.byte_dec_lb by reflexivity.
    now apply IH.
Qed.

Lemma bytes_eqb_neq (a b : bytes) : bytes_eqb a b = false <-> a <> b.
Proof.
  split.
  - intros H E. apply bytes_eqb_eq in E. congruence.
  - intro H. destruct (bytes_eqb a b) eqn:E; [|reflexivity].
    apply bytes_eqb_eq in E. contradiction.
Qed.

Lemma length_be_bytes (n : nat) (z : Z) : List.length (be_bytes n z) = n.
Proof. induction n as [|n IH]; simpl; [reflexivity | now rewrite IH]. Qed.

Lemma length_sha256 (msg : bytes) : List.length (Sha256.sha256 msg) = 32%nat.
Proof.
  unfold Sha256.sha256, Sha256.digest_bytes.
  repeat rewrite length_app. repeat rewrite length_be_bytes. reflexivity.
Qed.

Lemma pack_unsigned_ok (n : nat) (z : Z) :
  0 <= z < 2 ^ (8 * Z.of_nat n) -> pack_unsigned n z = Ok (be_bytes n z).
Proof.
  intros [H0 H1]. unfold pack_unsigned.
  apply Z.leb_le in H0. apply Z.ltb_lt in H1. now rewrite H0, H1.
Qed.

Lemma pack_int32_ok (z : Z) :
  - 2 ^ 31 <= z < 2 ^ 31 -> pack_int32 z = Ok (be_bytes 4 (z mod 2 ^ 32)).
Proof.
  intros [H0 H1]. unfold pack_int32.
  apply Z.leb_le in H0. apply Z.ltb_lt in H1. now rewrite H0, H1.
Qed.

Lemma index_nonneg {A : Type} (l : list A) (i : Z) :
  0 <= i < Z.of_nat (List.length l) -> index l i = Some (Z.to_nat i).
Proof.
  intros [H0 H1]. unfold index.
  apply Z.leb_le in H0. apply Z.ltb_lt in H1. now rewrite H0, H1.
Qed.

Lemma index_last {A : Type} (l : list A) :
  l <> [] -> index l (-1) = Some (List.length l - 1)%nat.
Proof.
  intro H. unfold index.
  assert (Hn : (1 <= List.length l)%nat)
    by (destruct l; [contradiction | simpl; lia]).
  replace (0 <=? -1) with false by reflexivity.
  replace (- Z.of_nat (List.length l) <=? -1) with true
    by (symmetry; apply Z.leb_le; lia).
  replace (-1 <? 0) with true by reflexivity. cbn [andb]. f_equal. lia.
Qed.

Lemma index_bound {A : Type} (l : list A) (i : Z) (k : nat) :
  index l i = Some k -> (k < List.length l)%nat.
Proof.
  unfold index. intro H.
  destruct ((0 <=? i) && (i <? Z.of_nat (List.length l))) eqn:E1.
  - apply andb_true_iff in E1 as [E0 E1]. apply Z.leb_le in E0.
    apply Z.ltb_lt in E1. injection H as <-. lia.
  - destruct ((- Z.of_nat (List.length l) <=? i) && (i <? 0)) eqn:E2; [|discriminate].
    apply andb_true_iff in E2 as [E2 E3]. apply Z.leb_le in E2.
    apply Z.ltb_lt in E3. injection H as <-. lia.
Qed.

Lemma getitem_nth_error {A : Type} (l : list A) (i : Z) (k : nat) :
  index l i = Some k ->
  exists a, nth_error l k = Some a /\ getitem l i = Ok a.
Proof.
  intro H. unfold getitem. rewrite H.
  destruct (nth_error l k) as [a|] eqn:E.
  - now exists a.
  - apply nth_error_None in E. apply index_bound in H. lia.
Qed.

Lemma length_set_nth {A : Type} (l : list A) (k : nat) (v : A) :
  List.length (set_nth l k v) = List.length l.
Proof.
  revert k; induction l as [|a l IH]; intros [|k]; simpl; try reflexivity.
  now rewrite IH.
Qed.

Lemma nth_error_set_nth_eq {A : Type} (l : list A) (k : nat) (v : A) :
  (k < List.length l)%nat -> nth_error (set_nth l k v) k = Some v.
Proof.
  revert k; induction l as [|a l IH]; intros [|k] H; simpl in *; try lia.
  - reflexivity.
  - apply IH. lia.
Qed.

Lemma nth_error_set_nth_neq {A : Type} (l : list A) (k j : nat) (v : A) :
  j <> k -> nth_error (set_nth l k v) j = nth_error l j.
Proof.
  revert k j; induction l as [|a l IH]; intros [|k] [|j] H; simpl; try reflexivity.
  - contradiction.
  - apply IH. lia.
Qed.

Lemma nth_set_nth_eq {A : Type} (l : list A) (k : nat) (v d : A) :
  (k < List.length l)%nat -> nth k (set_nth l k v) d = v.
Proof.
  revert k; induction l as [|a l IH]; intros [|k] H; simpl in *; try lia.
  - reflexivity.
  - apply IH. lia.
Qed.

Lemma nth_set_nth_neq {A : Type} (l : list A) (k j : nat) (v d : A) :
  j <> k -> nth j (set_nth l k v) d = nth j l d.
Proof.
  revert k j; induction l as [|a l IH]; intros [|k] [|j] H; simpl; try reflexivity.
  - contradiction.
  - apply IH. lia.
Qed.

Lemma is_nan_spec (x : float) : PrimFloat.is_nan x = true <-> Prim2SF x = S754_nan.
Proof.
  unfold PrimFloat.is_nan. rewrite FloatAxioms.eqb_spec. unfold SFeqb, SFcompare.
  destruct (Prim2SF x) as [s|s| |s m e].
  - split; discriminate.
  - destruct s; split; discriminate.
  - split; reflexivity.
  - rewrite Z.compare_refl, Pos.compare_cont_refl. destruct s; split; discriminate.
Qed.

(** Floats that compare equal are numbers. *)
Lemma eqb_not_nan (x y : float) :
  (x =? y)%float = true ->
  PrimFloat.is_nan x = false /\ PrimFloat.is_nan y = false.
Proof.
  rewrite FloatAxioms.eqb_spec. intro H.
  split; apply not_true_is_false; intro N; apply is_nan_spec in N;
    rewrite N in H; unfold SFeqb, SFcompare in H;
    [|destruct (Prim2SF x)]; discriminate.
Qed.

(** ** Binary64: conversion and division of small integers *)

Section Binary64.

Lemma fexp_value (e : Z) : fexp prec emax e = Z.max (e - 53) (-1074).
Proof. reflexivity. Qed.

Lemma digits2_pos_bounds (p : positive) :
  2 ^ (Z.pos (digits2_pos p) - 1) <= Z.pos p < 2 ^ Z.pos (digits2_pos p).
Proof.
  induction p as [p IH|p IH|]; cbn [digits2_pos].
  - rewrite Pos2Z.inj_succ. replace (Z.succ (Z.pos (digits2_pos p)) - 1)
      with (Z.succ (Z.pos (digits2_pos p) - 1)) by lia.
    rewrite !Z.pow_succ_r by lia. lia.
  - rewrite Pos2Z.inj_succ. replace (Z.succ (Z.pos (digits2_pos p)) - 1)
      with (Z.succ (Z.pos (digits2_pos p) - 1)) by lia.
    rewrite !Z.pow_succ_r by lia. lia.
  - simpl. lia.
Qed.

Lemma Zdigits2_le (m k : Z) : 0 <= m < 2 ^ k -> 0 <= k -> Zdigits2 m <= k.
Proof.
  intros [H0 H1] Hk. destruct m as [|p|p]; cbn [Zdigits2]; [lia| |lia].
  destruct (digits2_pos_bounds p) as [Hl _].
  destruct (Z.le_gt_cases (Z.pos (digits2_pos p)) k) as [H|H]; [exact H|].
  exfalso. assert (2 ^ k <= 2 ^ (Z.pos (digits2_pos p) - 1))
    by (apply Z.pow_le_mono_r; lia). lia.
Qed.

Lemma digits2_pos_iter_xO (p k : positive) :
  Z.pos (digits2_pos (Pos.iter xO p k)) = Z.pos (digits2_pos p) + Z.pos k.
Proof.
  induction k as [|k IH] using Pos.peano_ind.
  - cbn. lia.
  - rewrite Pos.iter_succ. cbn [digits2_pos]. lia.
Qed.

Lemma iter_xO_value (p k : positive) :
  Z.pos (Pos.iter xO p k) = Z.pos p * 2 ^ Z.pos k.
Proof.
  induction k as [|k IH] using Pos.peano_ind.
  - cbn. lia.
  - rewrite Pos.iter_succ, Pos2Z.inj_xO, IH, Pos2Z.inj_succ, Z.pow_succ_r by lia. lia.
Qed.

Lemma shr_1_m (mrs : shr_record) :
  0 <= shr_m mrs -> shr_m (shr_1 mrs) = shr_m mrs / 2.
Proof.
  destruct mrs as [m r s]. cbn [shr_m]. intro H.
  destruct m as [|[p|p|]|p]; cbn [shr_1 shr_m]; try reflexivity; try lia.
  - apply (Z.div_unique _ _ _ 1); lia.
  - apply (Z.div_unique _ _ _ 0); lia.
Qed.

Lemma pow2_xI (n : positive) : 2 ^ Z.pos n~1 = 2 * (2 ^ Z.pos n * 2 ^ Z.pos n).
Proof.
  rewrite Pos2Z.inj_xI. replace (2 * Z.pos n + 1) with (1 + Z.pos n + Z.pos n) by lia.
  rewrite Z.pow_add_r by lia. rewrite Z.pow_add_r by lia. lia.
Qed.

Lemma pow2_xO (n : positive) : 2 ^ Z.pos n~0 = 2 ^ Z.pos n * 2 ^ Z.pos n.
Proof.
  rewrite (Pos2Z.inj_xO n). replace (2 * Z.pos n) with (Z.pos n + Z.pos n) by lia.
  now rewrite Z.pow_add_r by lia.
Qed.

Lemma iter_shr_1_m (n : positive) (mrs : shr_record) :
  0 <= shr_m mrs ->
  shr_m (iter_pos shr_1 n mrs) = shr_m mrs / 2 ^ Z.pos n.
Proof.
  revert mrs; induction n as [n IH|n IH|]; intros mrs H; cbn [iter_pos].
  - assert (Hp : 0 < 2 ^ Z.pos n) by (apply Z.pow_pos_nonneg; lia).
    assert (H1 : 0 <= shr_m (shr_1 mrs)).
    { rewrite shr_1_m by exact H. apply Z.div_pos; lia. }
    assert (H2 : 0 <= shr_m (iter_pos shr_1 n (shr_1 mrs))).
    { rewrite IH by exact H1. apply Z.div_pos; lia. }
    rewrite IH by exact H2. rewrite IH by exact H1. rewrite shr_1_m by exact H.
    rewrite pow2_xI. rewrite Z.div_div by lia. rewrite Z.div_div by lia.
    reflexivity.
  - assert (Hp : 0 < 2 ^ Z.pos n) by (apply Z.pow_pos_nonneg; lia).
    assert (H2 : 0 <= shr_m (iter_pos shr_1 n mrs)).
    { rewrite IH by exact H. apply Z.div_pos; lia. }
    rewrite IH by exact H2. rewrite IH by exact H.
    rewrite pow2_xO. rewrite Z.div_div by lia. reflexivity.
  - rewrite shr_1_m by exact H. reflexivity.
Qed.

Lemma shr_record_of_loc_m (m : Z) (l : location) : shr_m (shr_record_of_loc m l) = m.
Proof. destruct l as [|[]]; reflexivity. Qed.

(** [shr_fexp]: the new exponent is the larger of the old one and the
    exponent the format prescribes; the mantissa is divided accordingly. *)
Lemma shr_fexp_spec (m e : Z) (l : location) :
  0 <= m ->
  let '(mrs, e') := shr_fexp prec emax m e l in
  e' = Z.max e (fexp prec emax (Zdigits2 m + e)) /\
  0 <= shr_m mrs /\ shr_m mrs * 2 ^ (e' - e) <= m /\
  (e' = e -> shr_m mrs = m).
Proof.
  intro H. unfold shr_fexp, shr.
  destruct (fexp prec emax (Zdigits2 m + e) - e) as [|n|n] eqn:E.
  - rewrite shr_record_of_loc_m. replace (Z.max e _) with e by lia.
    rewrite Z.sub_diag. cbn. repeat split; lia.
  - pose proof (iter_shr_1_m n (shr_record_of_loc m l)) as Hi.
    rewrite shr_record_of_loc_m in Hi. specialize (Hi H).
    assert (Hp : 0 < 2 ^ Z.pos n) by (apply Z.pow_pos_nonneg; lia).
    split; [lia|]. rewrite Hi. split; [apply Z.div_pos; lia|]. split.
    + replace (e + Z.pos n - e) with (Z.pos n) by lia.
      rewrite Z.mul_comm. apply Z.mul_div_le. exact Hp.
    + lia.
  - rewrite shr_record_of_loc_m. replace (Z.max e _) with e by lia.
    rewrite Z.sub_diag. cbn. repeat split; lia.
Qed.

Lemma round_nearest_even_bounds (m : Z) (l : location) :
  m <= round_nearest_even m l <= m + 1.
Proof.
  destruct l as [|[]]; cbn [round_nearest_even]; try lia.
  destruct (Z.even m); lia.
Qed.

Lemma below_one_compares (x : float) :
  Spec.below_one (Prim2SF x) -> (0 <=? x)%float = true /\ (x <? 1)%float = true.
Proof.
  intro H. rewrite leb_spec, ltb_spec.
  replace (Prim2SF 0) with (S754_zero false) by reflexivity.
  replace (Prim2SF 1) with (S754_finite false 4503599627370496 (-52)) by reflexivity.
  destruct (Prim2SF x) as [[|]|[|]| |[|] m e]; cbn in H; try contradiction.
  - split; reflexivity.
  - split; [reflexivity|]. unfold SFltb, SFcompare.
    replace (e ?= -52) with Lt by (symmetry; apply Z.compare_lt_iff; lia).
    reflexivity.
Qed.

(** Rounding a non-negative quantity [mx * 2^ex] that does not exceed
    [1 - 10^-9], held with an exponent of at most [-53], gives a float below
    one. *)
Lemma binary_round_aux_below_one (mx ex : Z) (lx : location) :
  0 <= mx -> ex <= -53 ->
  mx * 1000000000 <= 999999999 * 2 ^ (- ex) ->
  Spec.below_one (binary_round_aux prec emax false mx ex lx).
Proof.
  intros Hm He Hv. unfold binary_round_aux.
  pose proof (shr_fexp_spec mx ex lx Hm) as S1.
  destruct (shr_fexp prec emax mx ex lx) as [mrs1 e1].
  destruct S1 as (He1 & Hm1 & Hv1 & _).
  assert (Hpow : forall k, 0 <= k -> 0 < 2 ^ k) by (intros; apply Z.pow_pos_nonneg; lia).
  (* the first exponent stays at or below -53 *)
  assert (Hmx : mx < 2 ^ (- ex)).
  { pose proof (Hpow (- ex) ltac:(lia)). nia. }
  assert (Hd : Zdigits2 mx <= - ex) by (apply Zdigits2_le; lia).
  assert (He1' : e1 <= -53 /\ ex <= e1).
  { rewrite He1, fexp_value. lia. }
  destruct He1' as [He1u He1l].
  (* the shifted mantissa keeps the bound *)
  assert (Hv1' : shr_m mrs1 * 1000000000 <= 999999999 * 2 ^ (- e1)).
  { assert (Hsplit : 2 ^ (- ex) = 2 ^ (- e1) * 2 ^ (e1 - ex)).
    { rewrite <- Z.pow_add_r by lia. f_equal. lia. }
    pose proof (Hpow (e1 - ex) ltac:(lia)) as Hp1.
    pose proof (Hpow (- e1) ltac:(lia)) as Hp2.
    rewrite Hsplit in Hv.
    apply (Z.mul_le_mono_pos_r _ _ (2 ^ (e1 - ex)) Hp1). nia. }
  set (m2 := round_nearest_even (shr_m mrs1) (loc_of_shr_record mrs1)).
  pose proof (round_nearest_even_bounds (shr_m mrs1) (loc_of_shr_record mrs1)) as Hr.
  fold m2 in Hr.
  assert (Hbig : 2 ^ 53 <= 2 ^ (- e1)) by (apply Z.pow_le_mono_r; lia).
  assert (Hm2 : 0 <= m2 < 2 ^ (- e1)).
  { change (2 ^ 53) with 9007199254740992 in Hbig. lia. }
  pose proof (shr_fexp_spec m2 e1 loc_Exact (proj1 Hm2)) as S2.
  destruct (shr_fexp prec emax m2 e1 loc_Exact) as [mrs2 e2].
  destruct S2 as (He2 & Hm2' & _ & _).
  assert (Hd2 : Zdigits2 m2 <= - e1) by (apply Zdigits2_le; lia).
  assert (He2u : e2 <= -53) by (rewrite He2, fexp_value; lia).
  destruct (shr_m mrs2) as [|m|m]; cbn [Spec.below_one]; [exact I| |lia].
  replace (e2 <=? emax - prec) with true
    by (symmetry; apply Z.leb_le; change (emax - prec) with 971; lia).
  cbn [Spec.below_one]. exact He2u.
Qed.

Lemma shr_fexp_exact (m e : Z) (l : location) :
  fexp prec emax (Zdigits2 m + e) = e ->
  shr_fexp prec emax m e l = (shr_record_of_loc m l, e).
Proof. intro H. unfold shr_fexp. rewrite H, Z.sub_diag. reflexivity. Qed.

(** [float(n)] for [0 < n < 2^53]: the mantissa is [n] shifted to 53 bits,
    nothing is rounded. *)
Lemma binary_normalize_small (p : positive) :
  Z.pos (digits2_pos p) < 53 ->
  exists k : positive,
    Z.pos k = 53 - Z.pos (digits2_pos p) /\
    binary_normalize prec emax (Z.pos p) 0 false =
      S754_finite false (Pos.iter xO p k) (Z.pos (digits2_pos p) - 53).
Proof.
  intro Hd. cbn [binary_normalize]. unfold binary_round, shl_align.
  rewrite fexp_value.
  replace (Z.max (Z.pos (digits2_pos p) + 0 - 53) (-1074) - 0)
    with (Z.pos (digits2_pos p) - 53) by lia.
  replace (Z.max (Z.pos (digits2_pos p) + 0 - 53) (-1074))
    with (Z.pos (digits2_pos p) - 53) by lia.
  destruct (Z.pos (digits2_pos p) - 53) as [|k|k] eqn:E; try lia.
  exists k. split; [lia|].
  assert (Hk : Z.pos (digits2_pos (Pos.iter xO p k)) = 53).
  { rewrite digits2_pos_iter_xO. lia. }
  assert (Hf : fexp prec emax (Zdigits2 (Z.pos (Pos.iter xO p k)) + Z.neg k) = Z.neg k).
  { cbn [Zdigits2]. rewrite Hk, fexp_value. lia. }
  unfold binary_round_aux. rewrite (shr_fexp_exact _ _ _ Hf).
  cbn [shr_record_of_loc shr_m loc_of_shr_record round_nearest_even].
  rewrite (shr_fexp_exact _ _ _ Hf). cbn [shr_record_of_loc shr_m].
  replace (Z.neg k <=? emax - prec) with true by reflexivity.
  reflexivity.
Qed.

Lemma float_of_int_small (p : positive) :
  Z.pos (digits2_pos p) < 53 ->
  Prim2SF (float_of_int (Z.pos p)) = binary_normalize prec emax (Z.pos p) 0 false.
Proof.
  intro Hd. unfold float_of_int. apply Prim2SF_SF2Prim.
  destruct (binary_normalize_small p Hd) as (k & Hk & ->).
  cbn [valid_binary]. unfold bounded, canonical_mantissa.
  rewrite digits2_pos_iter_xO, fexp_value.
  apply andb_true_iff. split; [apply Z.eqb_eq | apply Z.leb_le]; [lia|].
  change (emax - prec) with 971. lia.
Qed.

(** The quotient of an integer below [10^9] by [10^9] is below one. *)
Lemma div_below_one (p : positive) :
  Z.pos p < 1000000000 ->
  Spec.below_one
    (SFdiv prec emax (binary_normalize prec emax (Z.pos p) 0 false)
       (S754_finite false 8388608000000000 (-23))).
Proof.
  intro Hp.
  assert (Hd : Z.pos (digits2_pos p) <= 30).
  { apply (Zdigits2_le (Z.pos p) 30); [|lia]. change (2 ^ 30) with 1073741824. lia. }
  destruct (binary_normalize_small p ltac:(lia)) as (k & Hk & ->).
  set (d := Z.pos (digits2_pos p)) in *.
  cbn [SFdiv xorb]. unfold SFdiv_core_binary.
  cbn [Zdigits2]. rewrite digits2_pos_iter_xO. fold d.
  replace (Z.pos (digits2_pos 8388608000000000)) with 53 by reflexivity.
  rewrite fexp_value.
  replace (Z.min (Z.max (d + Z.pos k + (d - 53) - (53 + -23) - 53) (-1074)) (d - 53 - -23))
    with (d - 83) by lia.
  replace (d - 53 - -23 - (d - 83)) with 53 by lia.
  rewrite Z.shiftl_mul_pow2 by lia. rewrite iter_xO_value.
  pose proof (Z_div_mod (Z.pos p * 2 ^ Z.pos k * 2 ^ 53) 8388608000000000 eq_refl) as Hdm.
  destruct (Z.div_eucl (Z.pos p * 2 ^ Z.pos k * 2 ^ 53) 8388608000000000) as [q r].
  destruct Hdm as [Heq Hr].
  assert (Hpow : 2 ^ Z.pos k * 2 ^ 53 = 2 ^ (- (d - 83)) * 8388608).
  { change 8388608 with (2 ^ 23). rewrite <- !Z.pow_add_r by lia. f_equal. lia. }
  assert (HX : 0 < 2 ^ (- (d - 83))) by (apply Z.pow_pos_nonneg; lia).
  apply binary_round_aux_below_one; [nia | lia | nia].
Qed.

(** The fractional part of the energy: an integer below [10^9], converted
    and divided by [1e9], lies in [0, 1). *)
Lemma frac_in_unit_interval (n : Z) :
  0 <= n < 1000000000 ->
  (0 <=? float_of_int n / 1000000000)%float = true /\
  (float_of_int n / 1000000000 <? 1)%float = true.
Proof.
  intro Hn. apply below_one_compares. rewrite div_spec.
  replace (Prim2SF 1000000000) with (S754_finite false 8388608000000000 (-23))
    by reflexivity.
  destruct n as [|p|p]; [| |lia].
  - replace (Prim2SF (float_of_int 0)) with (S754_zero false) by reflexivity.
    exact I.
  - assert (Hd : Z.pos (digits2_pos p) <= 30).
    { apply (Zdigits2_le (Z.pos p) 30); [|lia]. change (2 ^ 30) with 1073741824. lia. }
    rewrite float_of_int_small by lia. apply div_below_one. lia.
Qed.

(** [float(n) + float(n)] is [float(2 * n)] for [0 <= n < 2^51]: nothing is
    rounded. *)
Lemma float_of_int_double (n : Z) :
  0 <= n < 2 ^ 51 ->
  (float_of_int n + float_of_int n)%float = float_of_int (2 * n).
Proof.
  intros [H0 H1]. destruct n as [|p|p]; [reflexivity| |lia].
  assert (Hd : Z.pos (digits2_pos p) <= 51) by (apply (Zdigits2_le (Z.pos p) 51); lia).
  change (2 * Z.pos p) with (Z.pos p~0).
  assert (Hd' : Z.pos (digits2_pos (xO p)) = Z.pos (digits2_pos p) + 1)
    by (cbn [digits2_pos]; lia).
  apply Prim2SF_inj. rewrite add_spec.
  rewrite (float_of_int_small p) by lia.
  rewrite (float_of_int_small (xO p)) by lia.
  destruct (binary_normalize_small p ltac:(lia)) as (k & Hk & ->).
  destruct (binary_normalize_small (xO p) ltac:(lia)) as (k' & Hk' & ->).
  assert (Ek : k = Pos.succ k') by lia. subst k.
  rewrite Pos.iter_succ_r. set (M := Pos.iter xO (xO p) k').
  assert (HM : Z.pos (digits2_pos M) = 53).
  { unfold M. rewrite digits2_pos_iter_xO. lia. }
  set (e := Z.pos (digits2_pos p) - 53) in *.
  replace (Z.pos (digits2_pos (xO p)) - 53) with (e + 1) by lia.
  unfold SF64add, SFadd.
  rewrite Z.min_id. unfold shl_align at 1 2. rewrite Z.sub_diag. cbn [fst cond_Zopp].
  replace (Z.pos M + Z.pos M) with (Z.pos M~0) by lia.
  cbn [binary_normalize]. unfold binary_round, shl_align.
  assert (HM' : Z.pos (digits2_pos (xO M)) = 54) by (cbn [digits2_pos]; lia).
  rewrite HM', fexp_value.
  replace (Z.max (54 + e - 53) (-1074) - e) with 1 by lia.
  unfold binary_round_aux, shr_fexp. cbn [Zdigits2]. rewrite HM', fexp_value.
  replace (Z.max (54 + e - 53) (-1074) - e) with 1 by lia.
  cbn [shr_record_of_loc shr iter_pos shr_1 shr_m loc_of_shr_record round_nearest_even
       Zdigits2 orb].
  rewrite HM, fexp_value.
  replace (Z.max (53 + (e + 1) - 53) (-1074) - (e + 1)) with 0 by lia.
  cbn [shr shr_record_of_loc shr_m].
  replace (e + 1 <=? emax - prec) with true
    by (symmetry; apply Z.leb_le; change (emax - prec) with 971; lia).
  reflexivity.
Qed.

End Binary64.

(** ** Serializer, hasher, energy *)

Section Serializer.
Import Ledger.

Lemma header_depends_on_count (b1 b2 : Block) :
  index b1 = index b2 -> timestamp b1 = timestamp b2 ->
  prev_hash b1 = prev_hash b2 ->
  List.length (txs b1) = List.length (txs b2) ->
  _serialize_block_header b1 = _serialize_block_header b2.
Proof.
  intros Hi Ht Hp Hn. unfold _serialize_block_header, len.
  now rewrite Hi, Ht, Hp, Hn.
Qed.

Lemma header_in_range_serializes (b : Block) :
  Spec.header_in_range b = true ->
  exists h, _serialize_block_header b = Ok h.
Proof.
  unfold Spec.header_in_range. intro H.
  apply andb_true_iff in H as [H H5]. apply andb_true_iff in H as [H H4].
  apply andb_true_iff in H as [H H3]. apply andb_true_iff in H as [H1 H2].
  apply Z.leb_le in H1, H3. apply Z.ltb_lt in H2, H4, H5.
  unfold _serialize_block_header.
  change (2 ^ 32) with (2 ^ (8 * Z.of_nat 4)) in H2.
  change (2 ^ 64) with (2 ^ (8 * Z.of_nat 8)) in H4, H5.
  rewrite (pack_unsigned_ok 4 (index b)) by lia.
  rewrite (pack_unsigned_ok 8 (timestamp b)) by lia.
  rewrite (pack_unsigned_ok 8 (len (txs b))) by (unfold len in *; lia).
  simpl. eauto.
Qed.

(** Claim C7.  The block hash is a function of the header fields index,
    timestamp, previous-hash and transaction count: two blocks that agree on
    these four values, whatever their transaction lists contain, have the same
    hash; the hash, when the header can be packed, is 32 bytes long, and it
    can be packed whenever the fields fit their widths. *)
Theorem C7_block_hash_ignores_tx_contents (b1 b2 : Block) :
  index b1 = index b2 ->
  timestamp b1 = timestamp b2 ->
  prev_hash b1 = prev_hash b2 ->
  List.length (txs b1) = List.length (txs b2) ->
  compute_block_hash b1 = compute_block_hash b2 /\
  (forall d, compute_block_hash b1 = Ok d -> List.length d = 32%nat) /\
  (Spec.header_in_range b1 = true -> exists d, compute_block_hash b1 = Ok d).
Proof.
  intros Hi Ht Hp Hn. unfold compute_block_hash.
  rewrite (header_depends_on_count b1 b2 Hi Ht Hp Hn). split; [reflexivity|]. split.
  - intros d. destruct (_serialize_block_header b2) as [h|e]; cbn [rbind];
      [|discriminate].
    intros [= <-]. apply length_sha256.
  - intro Hr. rewrite <- (header_depends_on_count b1 b2 Hi Ht Hp Hn).
    destruct (header_in_range_serializes b1 Hr) as [h ->]. cbn [rbind]. eauto.
Qed.

Lemma C7_witness :
  txs Scenario.block_a <> txs Scenario.block_b /\
  compute_block_hash Scenario.block_a = compute_block_hash Scenario.block_b /\
  (forall d, compute_block_hash Scenario.block_a = Ok d -> List.length d = 32%nat) /\
  (Spec.header_in_range Scenario.block_a = true ->
   exists d, compute_block_hash Scenario.block_a = Ok d).
Proof.
  split; [discriminate|].
  apply (C7_block_hash_ignores_tx_contents Scenario.block_a Scenario.block_b);
    reflexivity.
Defined.

Lemma kind_code_range (k : TxKind) : - 2 ^ 31 <= kind_code k < 2 ^ 31.
Proof. destruct k; simpl; lia. Qed.

Lemma serialize_transaction_ok (nan_bits : Z) (tx : Transaction) :
  - 2 ^ 31 <= token_index tx < 2 ^ 31 ->
  _serialize_transaction nan_bits tx = Ok (Spec.tx_layout nan_bits tx).
Proof.
  intro Hti. unfold _serialize_transaction.
  rewrite (pack_int32_ok _ Hti), (pack_int32_ok _ (kind_code_range _)).
  reflexivity.
Qed.

Lemma tx_layout_nonempty (nan_bits : Z) (tx : Transaction) :
  0 < len (Spec.tx_layout nan_bits tx).
Proof.
  unfold len, Spec.tx_layout. rewrite !length_app. simpl List.length. lia.
Qed.

(** A serialization, when there is one, has the layout of [tx_layout]. *)
Lemma serialize_transaction_layout (nan_bits : Z) (tx : Transaction) (ser : bytes) :
  _serialize_transaction nan_bits tx = Ok ser ->
  - 2 ^ 31 <= token_index tx < 2 ^ 31 /\ ser = Spec.tx_layout nan_bits tx.
Proof.
  intro H.
  assert (Hti : - 2 ^ 31 <= token_index tx < 2 ^ 31).
  { unfold _serialize_transaction, pack_int32 in H.
    destruct ((- 2 ^ 31 <=? token_index tx) && (token_index tx <? 2 ^ 31)) eqn:E;
      [|discriminate].
    apply andb_true_iff in E as [E1 E2]. apply Z.leb_le in E1. apply Z.ltb_lt in E2.
    lia. }
  split; [exact Hti|]. rewrite (serialize_transaction_ok nan_bits tx Hti) in H.
  now injection H.
Qed.

(** Claim C4, counterexample.  A TRANSFER whose token index is [2^31] has no
    energy: packing the index as a 4-byte signed integer raises, so there is
    no serialization whose length and hash the formula could be about. *)
Lemma C4_counterexample_wide_token_index :
  kind Scenario.tx_wide_index = TRANSFER /\
  forall nan_bits,
    _serialize_transaction nan_bits Scenario.tx_wide_index = Raise StructError /\
    compute_tx_energy nan_bits Scenario.tx_wide_index = Raise StructError.
Proof. split; [reflexivity|]. intro nan_bits. split; reflexivity. Qed.

(** Claim C4, amended.  Whenever a transaction has a serialization [ser]
    (packing raises when the token index does not fit a 4-byte signed
    integer), whatever bit pattern its amount has when that is a NaN: the
    length [L] of [ser] is positive; the number [n], the last 8 bytes of the
    SHA-256 of [ser] read big-endian and reduced modulo [10^9], is at least 0
    and below [10^9]; [frac = float(n) / 1e9] is a float that is at least 0
    and below 1; the energy is [float(L) + float(L) + frac], where
    [float(L) + float(L)] is [2 * L] exactly as long as [L < 2^51]; and the
    energy is determined by the six fields, the amount taken with its bit
    pattern.  For alice, bob, 10.0, token 0,
    TRANSFER and the empty memo, [L = 27], [n = 94828902], and the energy is
    [54 + frac]. *)
Theorem C4_energy_formula :
  (forall (nan_bits : Z) (tx : Transaction) (ser : bytes),
     _serialize_transaction nan_bits tx = Ok ser ->
     let n := int_from_bytes_big (slice (Sha256.sha256 ser) 24 32) mod 1000000000 in
     let frac := (float_of_int n / 1000000000)%float in
     0 < len ser /\
     0 <= n < 1000000000 /\
     (0 <=? frac)%float = true /\ (frac <? 1)%float = true /\
     compute_tx_energy nan_bits tx =
       Ok (float_of_int (len ser) + float_of_int (len ser) + frac)%float /\
     (len ser < 2 ^ 51 ->
      (float_of_int (len ser) + float_of_int (len ser))%float =
        float_of_int (2 * len ser)) /\
     (forall tx' : Transaction,
        from_address tx' = from_address tx -> to_address tx' = to_address tx ->
        amount tx' = amount tx -> token_index tx' = token_index tx ->
        kind tx' = kind tx -> memo tx' = memo tx ->
        compute_tx_energy nan_bits tx' = compute_tx_energy nan_bits tx)) /\
  (forall nan_bits : Z,
   exists ser frac,
     _serialize_transaction nan_bits Scenario.tx_alice_bob = Ok ser /\
     len ser = 27 /\
     int_from_bytes_big (slice (Sha256.sha256 ser) 24 32) mod 1000000000 = 94828902 /\
     frac = (float_of_int 94828902 / 1000000000)%float /\
     compute_tx_energy nan_bits Scenario.tx_alice_bob = Ok (54 + frac)%float).
Proof.
  split.
  - intros nan_bits tx ser Hser n frac.
    assert (Hn : 0 <= n < 1000000000) by (apply Z.mod_pos_bound; lia).
    destruct (serialize_transaction_layout nan_bits tx ser Hser) as [_ Hlay].
    assert (HL : 0 < len ser) by (rewrite Hlay; apply tx_layout_nonempty).
    split; [exact HL|]. split; [exact Hn|].
    destruct (frac_in_unit_interval n Hn) as [H0 H1].
    split; [exact H0|]. split; [exact H1|]. split; [|split].
    + unfold compute_tx_energy. rewrite Hser. cbn [rbind].
      unfold _si_byte_value_from_size, _binary_byte_value_from_size.
      apply Z.leb_gt in HL. rewrite HL. reflexivity.
    + intro Hsmall. apply float_of_int_double. lia.
    + intros [f' t' a' i' k' m'] Hf Ht Ha Hi' Hk Hm.
      destruct tx as [f t a i k m].
      cbn [from_address to_address amount token_index kind memo]
        in Hf, Ht, Ha, Hi', Hk, Hm.
      subst. reflexivity.
  - intro nan_bits.
    exists (utf8_encode "alice" ++ [x00] ++ utf8_encode "bob" ++ [x00] ++
            pack_double 0 10 ++ be_bytes 4 0 ++ be_bytes 4 0 ++ [x00]).
    exists (float_of_int 94828902 / 1000000000)%float.
    split; [vm_compute; reflexivity|]. split; [vm_compute; reflexivity|].
    split; [vm_compute; reflexivity|].
    split; [reflexivity|]. vm_compute; reflexivity.
Qed.

Lemma C4_witness :
  let ser := Spec.tx_layout 0 Scenario.tx_alice_bob in
  let n := int_from_bytes_big (slice (Sha256.sha256 ser) 24 32) mod 1000000000 in
  let frac := (float_of_int n / 1000000000)%float in
  0 < len ser /\
  0 <= n < 1000000000 /\
  (0 <=? frac)%float = true /\ (frac <? 1)%float = true /\
  compute_tx_energy 0 Scenario.tx_alice_bob =
    Ok (float_of_int (len ser) + float_of_int (len ser) + frac)%float /\
  (len ser < 2 ^ 51 ->
   (float_of_int (len ser) + float_of_int (len ser))%float =
     float_of_int (2 * len ser)) /\
  (forall tx' : Transaction,
     from_address tx' = from_address Scenario.tx_alice_bob ->
     to_address tx' = to_address Scenario.tx_alice_bob ->
     amount tx' = amount Scenario.tx_alice_bob ->
     token_index tx' = token_index Scenario.tx_alice_bob ->
     kind tx' = kind Scenario.tx_alice_bob -> memo tx' = memo Scenario.tx_alice_bob ->
     compute_tx_energy 0 tx' = compute_tx_energy 0 Scenario.tx_alice_bob).
Proof.
  apply (proj1 C4_energy_formula 0 Scenario.tx_alice_bob
           (Spec.tx_layout 0 Scenario.tx_alice_bob)).
  vm_compute. reflexivity.
Defined.

End Serializer.

(** ** Token/wallet registry *)

Section Registry.
Import Ledger.

Lemma length_str_take (n : nat) (s : string) :
  String.length (str_take n s) = Nat.min n (String.length s).
Proof.
  unfold str_take. revert n; induction s as [|c s IH]; intros [|n]; simpl;
    try reflexivity.
  now rewrite IH.
Qed.

Lemma prefix_str_take (n : nat) (s : string) : prefix (str_take n s) s = true.
Proof.
  unfold str_take. revert n; induction s as [|c s IH]; intros [|n]; simpl;
    try reflexivity.
  destruct (ascii_dec c c) as [_|Hc]; [apply IH | contradiction].
Qed.

Lemma aligned_after_sync (ws : list Wallet) (tts : list TokenType) (t : TokenType)
    (f : Wallet -> Wallet) :
  (forall w, balances (f w) = balances w ++ [0%float]) ->
  forallb (fun w => Nat.eqb (List.length (balances w)) (List.length tts)) ws = true ->
  forallb (fun w => Nat.eqb (List.length (balances w)) (List.length (tts ++ [t])))
          (map f ws) = true.
Proof.
  intros Hf. induction ws as [|w ws IH]; simpl; [reflexivity|].
  intro H. apply andb_true_iff in H as [Hw Hr]. apply Nat.eqb_eq in Hw.
  rewrite (IH Hr), andb_true_r. apply Nat.eqb_eq.
  rewrite Hf, !length_app, Hw. reflexivity.
Qed.

(** Claim C5.  [add_token_type] returns -1 and leaves the aggregate as it is
    when 64 token types exist already.  Otherwise it appends the new type,
    whose name is the first 64 characters of the given name and whose symbol
    is the first 16 characters of the given symbol, appends 0.0 to the balance
    vector of every wallet and sets every wallet's token list and token count
    to the new list and its length; blocks, pools and stakes are untouched.
    So balance vectors that were as long as the token-type list before are so
    afterwards. *)
Theorem C5_add_token_type (nm sym : string) (dec : Z) (k : TokenKind) (ebf : float)
    (bc : Blockchain) :
  let t := mkTokenType (str_take 64 nm) (str_take 16 sym) dec k ebf in
  let tts := token_types bc ++ [t] in
  (64 <= len (token_types bc) ->
   add_token_type nm sym dec k ebf bc = (Ok (-1), bc)) /\
  (len (token_types bc) < 64 ->
   add_token_type nm sym dec k ebf bc =
     (Ok (len (token_types bc)),
      mkBlockchain (blocks bc)
        (map (fun w => mkWallet (address w) (len tts) tts (balances w ++ [0%float]))
             (wallets bc))
        tts (pools bc) (stakes bc))) /\
  (String.length (name t) = Nat.min 64 (String.length nm) /\
   prefix (name t) nm = true /\
   String.length (symbol t) = Nat.min 16 (String.length sym) /\
   prefix (symbol t) sym = true) /\
  (Spec.balances_aligned bc = true ->
   Spec.balances_aligned (snd (add_token_type nm sym dec k ebf bc)) = true).
Proof.
  intros t tts.
  assert (Hfull : 64 <= len (token_types bc) ->
                  add_token_type nm sym dec k ebf bc = (Ok (-1), bc)).
  { intro H. unfold add_token_type, bind, get, ret, ELTT_MAX_TOKEN_TYPES.
    apply Z.leb_le in H. now rewrite H. }
  assert (Hroom : len (token_types bc) < 64 ->
                  add_token_type nm sym dec k ebf bc =
                    (Ok (len (token_types bc)),
                     mkBlockchain (blocks bc)
                       (map (fun w => mkWallet (address w) (len tts) tts
                                        (balances w ++ [0%float])) (wallets bc))
                       tts (pools bc) (stakes bc))).
  { intro H. unfold add_token_type, bind, get, put, ret, ELTT_MAX_TOKEN_TYPES.
    apply Z.leb_gt in H. rewrite H. cbn iota.
    change (Z.to_nat ELTT_MAX_TOKEN_NAME_LEN) with 64%nat.
    change (Z.to_nat ELTT_MAX_TOKEN_SYMBOL_LEN) with 16%nat.
    fold t. fold tts. f_equal. f_equal.
    unfold len, tts. rewrite length_app. simpl List.length. lia. }
  split; [exact Hfull|]. split; [exact Hroom|]. split.
  - cbn [name symbol t].
    split; [apply length_str_take|]. split; [apply prefix_str_take|].
    split; [apply length_str_take | apply prefix_str_take].
  - intro Hal. destruct (Z_lt_le_dec (len (token_types bc)) 64) as [H|H].
    + rewrite (Hroom H). cbn [snd]. unfold Spec.balances_aligned.
      cbn [wallets token_types]. apply aligned_after_sync; [reflexivity|exact Hal].
    + rewrite (Hfull H). exact Hal.
Qed.

Lemma C5_witness :
  Spec.balances_aligned Scenario.registry2 = true /\
  add_token_type "Silver" "SLV" 2 GENERIC 1 Scenario.registry2 =
    (Ok 1,
     mkBlockchain []
       [mkWallet "alice" 2 [Scenario.gold; Scenario.silver] [5%float; 0%float];
        mkWallet "bob" 2 [Scenario.gold; Scenario.silver] [0%float; 0%float]]
       [Scenario.gold; Scenario.silver] [] []) /\
  Spec.balances_aligned
    (snd (add_token_type "Silver" "SLV" 2 GENERIC 1 Scenario.registry2)) = true.
Proof.
  pose proof (C5_add_token_type "Silver" "SLV" 2 GENERIC 1 Scenario.registry2) as H.
  cbv zeta in H. destruct H as (_ & Hroom & _ & Hal).
  split; [reflexivity|]. split.
  - rewrite Hroom by (vm_compute; reflexivity). reflexivity.
  - apply Hal. reflexivity.
Defined.

End Registry.

(** ** Chain engine: what the code does on concrete chains *)

Section ConcreteChains.
Import Ledger Scenario.

(** Claim C1, failing input.  [chain3] is reached from [init_blockchain] by
    accepted blocks, satisfies the data-model invariants and is reported OK
    by the validator; alice holds 10 units of token 0.  [block3] pays bob 10
    units twice.  Each payment is valid against the pre-block state, the block
    is accepted, and alice ends with -10: the validator reports the resulting
    state as WALLET_BALANCE_NEGATIVE. *)
Theorem C1_double_spend_in_one_block :
  append_block genesis init_blockchain = (Ok true, chain1) /\
  append_block block1 chain1 = (Ok true, chain2) /\
  append_block block2 chain2 = (Ok true, chain3) /\
  Spec.balances_aligned chain3 = true /\
  Spec.no_negative_balance chain3 = true /\
  Spec.addresses_unique chain3 = true /\
  map address (wallets chain3) = ["alice"; "bob"; "mint"]%string /\
  Spec.balance_at chain3 0 0 = 10%float /\
  txs block3 = [pay; pay] /\
  _validate_transaction chain3 pay = Ok true /\
  Validator.validate_blockchain ValidatorSpec.demo_hash
    (Some (ValidatorSpec.snapshot chain3)) = Validator.OK /\
  exists bc',
    append_block block3 chain3 = (Ok true, bc') /\
    Spec.balance_at bc' 0 0 = (-10)%float /\
    Spec.no_negative_balance bc' = false /\
    Validator.validate_blockchain ValidatorSpec.demo_hash
      (Some (ValidatorSpec.snapshot bc')) = Validator.WALLET_BALANCE_NEGATIVE.
Proof.
  do 11 (split; [vm_compute; reflexivity|]).
  exists (after (append_block block3) chain3).
  do 3 (split; [vm_compute; reflexivity|]). vm_compute; reflexivity.
Qed.

(** Claim C3, failing input.  [chain1] is the chain made of the genesis block
    alone.  Appending the genesis block once more is accepted: the chain then
    holds a block of index 0 at position 1, and the validator reports it as
    BLOCK_INDEX_SEQUENCE. *)
Theorem C3_second_genesis_accepted :
  append_block genesis init_blockchain = (Ok true, chain1) /\
  map index (blocks chain1) = [0] /\
  Validator.validate_blockchain ValidatorSpec.demo_hash
    (Some (ValidatorSpec.snapshot chain1)) = Validator.OK /\
  exists bc',
    append_block genesis chain1 = (Ok true, bc') /\
    map index (blocks bc') = [0; 0] /\
    Validator.validate_blockchain ValidatorSpec.demo_hash
      (Some (ValidatorSpec.snapshot bc')) = Validator.BLOCK_INDEX_SEQUENCE.
Proof.
  do 3 (split; [vm_compute; reflexivity|]).
  exists (after (append_block genesis) chain1).
  do 2 (split; [vm_compute; reflexivity|]). vm_compute; reflexivity.
Qed.

(** Claim C2, failing input.  [chain1] is the chain made of the genesis block
    alone, as [create_genesis] builds it.  The genesis block offered once
    more is a candidate whose previous-hash (32 zero bytes) is not the hash
    of the last block and whose index is not the last index plus one; its
    stored hash is the hash of its header and it carries no transaction.
    [append_block] returns True and appends it.  With any other index in
    place of 0 the same candidate is turned down and the aggregate is left as
    it was: the test on the previous-hash is made in the branch for the other
    indices only. *)
Theorem C2_unlinked_block_accepted :
  create_genesis "owner" 0 init_blockchain = (Ok tt, chain1) /\
  getitem (blocks chain1) (-1) = Ok genesis /\
  index genesis <> index genesis + 1 /\
  prev_hash genesis <> hash genesis /\
  compute_block_hash genesis = Ok (hash genesis) /\
  txs genesis = [] /\
  (exists bc',
     append_block genesis chain1 = (Ok true, bc') /\
     blocks bc' = blocks chain1 ++ [genesis] /\
     bc' <> chain1) /\
  (forall i : Z,
     i <> 0 ->
     append_block
       (mkBlock i (timestamp genesis) (prev_hash genesis) (hash genesis) (txs genesis))
       chain1 = (Ok false, chain1)).
Proof.
  split; [vm_compute; reflexivity|]. split; [vm_compute; reflexivity|].
  split; [lia|]. split; [apply bytes_eqb_neq; vm_compute; reflexivity|].
  split; [vm_compute; reflexivity|]. split; [reflexivity|]. split.
  - exists (after (append_block genesis) chain1).
    split; [vm_compute; reflexivity|]. split; [vm_compute; reflexivity|].
    intro E. apply (f_equal (fun bc => List.length (blocks bc))) in E.
    vm_compute in E. discriminate.
  - intros i Hi. unfold append_block, bind, get, lift.
    replace (_validate_block chain1 _) with (@Ok bool false); [reflexivity|].
    unfold _validate_block, check_linkage. cbn [index prev_hash].
    apply Z.eqb_neq in Hi. rewrite Hi.
    replace (blocks chain1) with [genesis] by reflexivity.
    replace (getitem [genesis] (-1)) with (Ok genesis) by reflexivity.
    cbn [rbind].
    destruct (i =? index genesis + 1); cbn [negb]; [|reflexivity].
    replace (bytes_eqb (prev_hash genesis) (hash genesis)) with false
      by (vm_compute; reflexivity).
    reflexivity.
Qed.

(** Claim C6, counterexample.  In [chain3'] carol and dave hold 1 unit of
    token 0 and erin holds [2^53].  The accepted block [block3'] is a single
    TRANSFER of 1 unit from carol to erin; [2^53 + 1] rounds to [2^53], so the
    total of token 0 drops by one unit, both as an exact sum and as the
    interpreter's float sum ([2^53 + 2] before, [2^53] after). *)
Lemma C6_counterexample_rounding :
  append_block block1' chain1 = (Ok true, chain2') /\
  append_block block2' chain2' = (Ok true, chain3') /\
  forallb Spec.is_move (txs block3') = true /\
  exists bc',
    append_block block3' chain3' = (Ok true, bc') /\
    Spec.total_balance bc' 0 <> Spec.total_balance chain3' 0 /\
    Spec.float_total chain3' 0 = 9007199254740994%float /\
    Spec.float_total bc' 0 = 9007199254740992%float.
Proof.
  do 3 (split; [vm_compute; reflexivity|]).
  exists (after (append_block block3') chain3').
  split; [vm_compute; reflexivity|]. split.
  - intro E. vm_compute in E. discriminate.
  - split; vm_compute; reflexivity.
Qed.

End ConcreteChains.

(** ** Chain engine: validation never mutates, and when it succeeds *)

Section Validation.
Import Ledger.

Lemma getitem_in_range {A : Type} (l : list A) (i : Z) :
  0 <= i < len l ->
  exists a, nth_error l (Z.to_nat i) = Some a /\ getitem l i = Ok a.
Proof.
  intro H. apply getitem_nth_error. now apply index_nonneg.
Qed.

Lemma find_from_range (ws : list Wallet) (a : string) (i : Z) :
  find_from ws a i = -1 \/ i <= find_from ws a i < i + len ws.
Proof.
  revert i; induction ws as [|w ws IH]; intro i; cbn [find_from]; [now left|].
  unfold len. change (List.length (w :: ws)) with (S (List.length ws)).
  rewrite Nat2Z.inj_succ.
  destruct (String.eqb (address w) a).
  - right. lia.
  - destruct (IH (i + 1)) as [H|H]; [now left|]. right. unfold len in H. lia.
Qed.

Lemma aligned_wallet (bc : Blockchain) (k : nat) (w : Wallet) :
  Spec.balances_aligned bc = true -> nth_error (wallets bc) k = Some w ->
  List.length (balances w) = List.length (token_types bc).
Proof.
  unfold Spec.balances_aligned. intros H Hn. rewrite forallb_forall in H.
  apply Nat.eqb_eq. apply H. eapply nth_error_In. exact Hn.
Qed.

Lemma sender_can_pay_total (bc : Blockchain) (tx : Transaction) :
  Spec.balances_aligned bc = true ->
  0 <= token_index tx < len (token_types bc) ->
  exists b, sender_can_pay bc tx (_find_wallet_index bc (from_address tx)) = Ok b.
Proof.
  intros Hal Hti. unfold sender_can_pay, _find_wallet_index.
  destruct (find_from (wallets bc) (from_address tx) 0 <? 0) eqn:E; [eauto|].
  apply Z.ltb_ge in E.
  destruct (find_from_range (wallets bc) (from_address tx) 0) as [Hm|Hr]; [lia|].
  destruct (getitem_in_range (wallets bc) _ Hr) as (w & Hn & ->). cbn [rbind].
  pose proof (aligned_wallet bc _ w Hal Hn) as Hlen.
  destruct (getitem_in_range (balances w) (token_index tx)) as (b & _ & ->).
  { unfold len in *. lia. }
  cbn [rbind].
  destruct (b <? amount tx)%float; [eauto|].
  destruct (amount tx <=? 0)%float; eauto.
Qed.

Lemma validate_transaction_total (bc : Blockchain) (tx : Transaction) :
  Spec.balances_aligned bc = true ->
  exists b, _validate_transaction bc tx = Ok b.
Proof.
  intro Hal. unfold _validate_transaction.
  destruct ((token_index tx <? 0) || (len (token_types bc) <=? token_index tx)) eqn:E;
    [eauto|].
  apply orb_false_iff in E as [E1 E2]. apply Z.ltb_ge in E1. apply Z.leb_gt in E2.
  destruct (amount tx <? 0)%float; [eauto|].
  destruct (kind tx); eauto; try (apply sender_can_pay_total; [assumption|lia]).
  destruct (_find_wallet_index bc (to_address tx) <? 0); [eauto|].
  destruct (amount tx <=? 0)%float; eauto.
Qed.

Lemma validate_all_rejects (bc : Blockchain) (l : list Transaction) (tx : Transaction) :
  Spec.balances_aligned bc = true ->
  In tx l -> _validate_transaction bc tx = Ok false ->
  validate_all bc l = Ok false.
Proof.
  intros Hal. induction l as [|tx' l IH]; intros Hin Hbad; [contradiction|].
  simpl. destruct (validate_transaction_total bc tx' Hal) as [[|] Hb].
  - rewrite Hb. cbn [rbind negb]. destruct Hin as [->|Hin]; [congruence|].
    now apply IH.
  - rewrite Hb. reflexivity.
Qed.

Lemma validate_all_accepts (bc : Blockchain) (l : list Transaction) :
  validate_all bc l = Ok true ->
  Forall (fun tx => _validate_transaction bc tx = Ok true) l.
Proof.
  induction l as [|tx l IH]; intro H; [constructor|].
  simpl in H. destruct (_validate_transaction bc tx) as [[|]|e] eqn:E;
    cbn [rbind negb] in H; try discriminate.
  constructor; [exact E | now apply IH].
Qed.

Lemma check_linkage_total (bc : Blockchain) (block : Block) :
  exists b, check_linkage bc block = Ok b.
Proof.
  unfold check_linkage. destruct (index block =? 0).
  - destruct (negb (bytes_eqb (prev_hash block) zero_hash)); eauto.
  - destruct (blocks bc) as [|b0 bs] eqn:E; [eauto|].
    assert (Hne : b0 :: bs <> []) by discriminate.
    destruct (getitem_nth_error (b0 :: bs) (-1) _ (index_last (b0 :: bs) Hne))
      as (prev & _ & ->).
    cbn [rbind].
    destruct (negb (index block =? index prev + 1)); [eauto|].
    destruct (negb (bytes_eqb (prev_hash block) (hash prev))); eauto.
Qed.

(** The block rebuilt by [_validate_block] has the header of the candidate. *)
Lemma tmp_block_hash (block : Block) :
  compute_block_hash
    (mkBlock (index block) (timestamp block) (prev_hash block) [] (txs block)) =
  compute_block_hash block.
Proof. reflexivity. Qed.

Lemma append_rejected (bc : Blockchain) (block : Block) :
  _validate_block bc block = Ok false -> append_block block bc = (Ok false, bc).
Proof.
  intro H. unfold append_block, bind, get, lift. rewrite H. reflexivity.
Qed.

Lemma unlinked_rejected (bc : Blockchain) (block : Block) :
  check_linkage bc block = Ok false -> _validate_block bc block = Ok false.
Proof. intro H. unfold _validate_block. rewrite H. reflexivity. Qed.

(** What [append_block] keeps of the rejection contract.  It returns False
    and leaves the whole aggregate as it was when the candidate is a
    non-genesis block on an empty chain, or a non-genesis block whose index is
    not the last index plus one or whose previous-hash is not the last block's
    hash, or a genesis candidate whose previous-hash is not 32 zero bytes, or
    a block whose stored hash differs from the SHA-256 of its header, or -- in
    a state whose balance vectors are as long as the token-type list, for a
    block whose header fields fit their widths -- a block one of whose
    transactions fails validation against the pre-block state. *)
Lemma rejected_block_leaves_state (bc : Blockchain) (block : Block) :
  (index block <> 0 /\ blocks bc = []) \/
  (index block <> 0 /\
   exists prev, getitem (blocks bc) (-1) = Ok prev /\
     (index block <> index prev + 1 \/ prev_hash block <> hash prev)) \/
  (index block = 0 /\ prev_hash block <> zero_hash) \/
  (exists h, compute_block_hash block = Ok h /\ h <> hash block) \/
  (Spec.balances_aligned bc = true /\ Spec.header_in_range block = true /\
   exists tx, In tx (txs block) /\ _validate_transaction bc tx = Ok false) ->
  append_block block bc = (Ok false, bc).
Proof.
  intro H. apply append_rejected.
  destruct H as [[Hi He]|[[Hi (prev & Hp & Hbad)]|[[Hi Hz]|[(h & Hh & Hne)|H]]]];
    [| | | |destruct H as (Hal & Hr & tx & Hin & Hbad)].
  - apply unlinked_rejected. unfold check_linkage.
    apply Z.eqb_neq in Hi. now rewrite Hi, He.
  - apply unlinked_rejected. unfold check_linkage.
    apply Z.eqb_neq in Hi. rewrite Hi.
    destruct (blocks bc) as [|b0 bs] eqn:E; [reflexivity|].
    rewrite Hp. cbn [rbind].
    destruct (index block =? index prev + 1) eqn:E1; cbn [negb]; [|reflexivity].
    apply Z.eqb_eq in E1. destruct Hbad as [Hbad|Hbad]; [contradiction|].
    apply bytes_eqb_neq in Hbad. now rewrite Hbad.
  - apply unlinked_rejected. unfold check_linkage.
    apply Z.eqb_eq in Hi. rewrite Hi. apply bytes_eqb_neq in Hz. now rewrite Hz.
  - unfold _validate_block. destruct (check_linkage_total bc block) as [[|] ->];
      cbn [rbind negb]; [|reflexivity].
    rewrite tmp_block_hash, Hh. cbn [rbind].
    apply bytes_eqb_neq in Hne. now rewrite Hne.
  - unfold _validate_block. destruct (check_linkage_total bc block) as [[|] ->];
      cbn [rbind negb]; [|reflexivity].
    rewrite tmp_block_hash.
    unfold compute_block_hash.
    destruct (header_in_range_serializes block Hr) as [d ->]. cbn [rbind].
    destruct (bytes_eqb (Sha256.sha256 d) (hash block)); cbn [negb]; [|reflexivity].
    now apply (validate_all_rejects bc (txs block) tx).
Qed.

Lemma rejected_block_example :
  append_block Scenario.block_mixed Scenario.chain3 = (Ok false, Scenario.chain3).
Proof.
  apply rejected_block_leaves_state. do 4 right.
  split; [vm_compute; reflexivity|]. split; [vm_compute; reflexivity|].
  exists (mkTransaction "alice" "bob" 1 99 TRANSFER "").
  split; [right; left; reflexivity | vm_compute; reflexivity].
Qed.

(** Outside the ranges of [rejected_block_leaves_state] the answer is an
    exception.  A candidate whose timestamp cannot be packed has no header
    hash to compare, and [struct.pack] raises before its invalid transaction
    is looked at. *)
Lemma unpackable_header_raises :
  Spec.balances_aligned init_blockchain = true /\
  Spec.header_in_range Scenario.block_early = false /\
  (exists tx, In tx (txs Scenario.block_early) /\
     _validate_transaction init_blockchain tx = Ok false) /\
  compute_block_hash Scenario.block_early = Raise StructError /\
  append_block Scenario.block_early init_blockchain =
    (Raise StructError, init_blockchain).
Proof.
  split; [reflexivity|]. split; [reflexivity|]. split.
  - exists (mkTransaction "alice" "bob" 1 99 TRANSFER "").
    split; [left; reflexivity | reflexivity].
  - split; vm_compute; reflexivity.
Qed.

(** In a state where a balance vector is shorter than the token-type list,
    validating a payment of that wallet raises before the invalid
    transaction behind it is reached. *)
Lemma short_balance_vector_raises :
  Spec.balances_aligned Scenario.chain3_short = false /\
  Spec.header_in_range Scenario.block_mixed = true /\
  (exists tx, In tx (txs Scenario.block_mixed) /\
     _validate_transaction Scenario.chain3_short tx = Ok false) /\
  append_block Scenario.block_mixed Scenario.chain3_short =
    (Raise IndexError, Scenario.chain3_short).
Proof.
  split; [vm_compute; reflexivity|]. split; [vm_compute; reflexivity|]. split.
  - exists (mkTransaction "alice" "bob" 1 99 TRANSFER "").
    split; [right; left; reflexivity | vm_compute; reflexivity].
  - vm_compute. reflexivity.
Qed.

End Validation.

(** ** Transaction applier *)

Section Applier.
Import Ledger.

Lemma update_balance_run (op : float -> float -> float) (widx tidx : Z) (amt : float)
    (bc : Blockchain) (k : nat) (w : Wallet) :
  Py.index (wallets bc) widx = Some k ->
  nth_error (wallets bc) k = Some w ->
  0 <= tidx < len (balances w) ->
  update_balance op widx tidx amt bc =
    (Ok tt, set_wallets bc (Spec.adjust op (wallets bc) k (Z.to_nat tidx) amt)).
Proof.
  intros Hk Hw Ht. unfold update_balance, bind, get, lift, put, getitem, setitem.
  rewrite Hk, Hw. rewrite (index_nonneg (balances w) tidx Ht).
  destruct (nth_error (balances w) (Z.to_nat tidx)) as [b|] eqn:Hb.
  - unfold Spec.adjust. rewrite Hw.
    rewrite (nth_error_nth (balances w) (Z.to_nat tidx) 0%float Hb). reflexivity.
  - apply nth_error_None in Hb. unfold len in Ht. lia.
Qed.

Lemma update_balance_inv (op : float -> float -> float) (widx tidx : Z) (amt : float)
    (bc bc' : Blockchain) (u : unit) :
  0 <= tidx ->
  update_balance op widx tidx amt bc = (Ok u, bc') ->
  exists k w,
    Py.index (wallets bc) widx = Some k /\
    nth_error (wallets bc) k = Some w /\
    tidx < len (balances w) /\
    bc' = set_wallets bc (Spec.adjust op (wallets bc) k (Z.to_nat tidx) amt).
Proof.
  intros Ht H0. pose proof H0 as H. unfold update_balance, bind, get, lift in H.
  unfold getitem at 1 in H.
  destruct (Py.index (wallets bc) widx) as [k|] eqn:Hk; [|discriminate].
  destruct (nth_error (wallets bc) k) as [w|] eqn:Hw; [|discriminate].
  unfold getitem in H.
  destruct (Py.index (balances w) tidx) as [j|] eqn:Hj; [|discriminate].
  assert (Hlt : tidx < len (balances w)).
  { apply index_bound in Hj as Hb. unfold Py.index in Hj.
    destruct ((0 <=? tidx) && (tidx <? Z.of_nat (List.length (balances w)))) eqn:E.
    - apply andb_true_iff in E as [_ E]. apply Z.ltb_lt in E. exact E.
    - destruct ((- Z.of_nat (List.length (balances w)) <=? tidx) && (tidx <? 0)) eqn:E2;
        [|discriminate].
      apply andb_true_iff in E2 as [_ E2]. apply Z.ltb_lt in E2. lia. }
  exists k, w. repeat split; try assumption.
  rewrite (update_balance_run op widx tidx amt bc k w Hk Hw (conj Ht Hlt)) in H0.
  now injection H0 as <-.
Qed.

Lemma add_wallet_full (a : string) (bc : Blockchain) :
  ELTT_MAX_WALLETS <= len (wallets bc) -> _add_wallet a bc = (Ok (-1), bc).
Proof.
  intro H. unfold _add_wallet, bind, get, ret. apply Z.leb_le in H. now rewrite H.
Qed.

Lemma add_wallet_room (a : string) (bc : Blockchain) :
  len (wallets bc) < ELTT_MAX_WALLETS ->
  _add_wallet a bc =
    (Ok (len (wallets bc)),
     set_wallets bc
       (wallets bc ++
        [mkWallet a (len (token_types bc)) (token_types bc)
           (repeat 0%float (List.length (token_types bc)))])).
Proof.
  intro H. unfold _add_wallet, bind, get, put, ret. apply Z.leb_gt in H. rewrite H.
  f_equal. f_equal. unfold len. rewrite length_app. simpl List.length. lia.
Qed.

Lemma find_or_create_found (a : string) (bc : Blockchain) :
  0 <= _find_wallet_index bc a ->
  _find_or_create_wallet a bc = (Ok (_find_wallet_index bc a), bc).
Proof.
  intro H. unfold _find_or_create_wallet, bind, get, ret.
  apply Z.leb_le in H. now rewrite H.
Qed.

Lemma find_or_create_missing (a : string) (bc : Blockchain) :
  _find_wallet_index bc a = -1 ->
  _find_or_create_wallet a bc = _add_wallet a bc.
Proof.
  intro H. unfold _find_or_create_wallet, bind, get. now rewrite H.
Qed.

(** What a successful validation of a TRANSFER or SWAP says of the sender. *)
Lemma validated_move (bc : Blockchain) (tx : Transaction) :
  Spec.is_move tx = true ->
  _validate_transaction bc tx = Ok true ->
  0 <= token_index tx < len (token_types bc) /\
  0 <= _find_wallet_index bc (from_address tx) < len (wallets bc) /\
  exists w,
    nth_error (wallets bc) (Z.to_nat (_find_wallet_index bc (from_address tx))) = Some w /\
    token_index tx < len (balances w).
Proof.
  intros Hm H. unfold _validate_transaction in H.
  destruct ((token_index tx <? 0) || (len (token_types bc) <=? token_index tx)) eqn:E;
    [discriminate|].
  apply orb_false_iff in E as [E1 E2]. apply Z.ltb_ge in E1. apply Z.leb_gt in E2.
  split; [lia|].
  destruct (amount tx <? 0)%float; [discriminate|].
  assert (Hs : sender_can_pay bc tx (_find_wallet_index bc (from_address tx)) = Ok true).
  { unfold Spec.is_move in Hm. destruct (kind tx); try discriminate; exact H. }
  clear H. unfold sender_can_pay in Hs.
  destruct (_find_wallet_index bc (from_address tx) <? 0) eqn:E; [discriminate|].
  apply Z.ltb_ge in E.
  destruct (find_from_range (wallets bc) (from_address tx) 0) as [Hr|Hr];
    [unfold _find_wallet_index in E; lia|].
  fold (_find_wallet_index bc (from_address tx)) in Hr. split; [lia|].
  destruct (getitem_in_range (wallets bc) _ ltac:(exact (conj E (proj2 Hr))))
    as (w & Hw & Hg).
  rewrite Hg in Hs. cbn [rbind] in Hs. exists w. split; [exact Hw|].
  unfold getitem in Hs.
  destruct (Py.index (balances w) (token_index tx)) as [j|] eqn:Hj; [|discriminate].
  unfold Py.index in Hj.
  destruct ((0 <=? token_index tx) &&
            (token_index tx <? Z.of_nat (List.length (balances w)))) eqn:E3.
  - apply andb_true_iff in E3 as [_ E3]. apply Z.ltb_lt in E3. exact E3.
  - destruct ((- Z.of_nat (List.length (balances w)) <=? token_index tx) &&
              (token_index tx <? 0)) eqn:E4; [|discriminate].
    apply andb_true_iff in E4 as [_ E4]. apply Z.ltb_lt in E4. lia.
Qed.

Lemma length_adjust (op : float -> float -> float) (ws : list Wallet) (k t : nat)
    (amt : float) :
  List.length (Spec.adjust op ws k t amt) = List.length ws.
Proof.
  unfold Spec.adjust. destruct (nth_error ws k); [apply length_set_nth|reflexivity].
Qed.

Lemma addresses_set_nth (ws : list Wallet) (k : nat) (w w' : Wallet) :
  nth_error ws k = Some w -> address w' = address w ->
  map address (set_nth ws k w') = map address ws.
Proof.
  revert k; induction ws as [|x ws IH]; intros [|k] H Ha; simpl in *;
    try discriminate.
  - injection H as ->. now rewrite Ha.
  - f_equal. now apply IH.
Qed.

Lemma addresses_adjust (op : float -> float -> float) (ws : list Wallet) (k t : nat)
    (amt : float) :
  map address (Spec.adjust op ws k t amt) = map address ws.
Proof.
  unfold Spec.adjust. destruct (nth_error ws k) as [w|] eqn:E; [|reflexivity].
  now apply (addresses_set_nth ws k w).
Qed.

Lemma find_from_addresses (ws ws' : list Wallet) (a : string) (i : Z) :
  map address ws = map address ws' -> find_from ws a i = find_from ws' a i.
Proof.
  revert ws' i; induction ws as [|w ws IH]; intros [|w' ws'] i H; simpl in *;
    try discriminate; [reflexivity|].
  injection H as Ha Hr. rewrite Ha. destruct (String.eqb (address w') a);
    [reflexivity | now apply IH].
Qed.

Lemma nth_error_adjust_eq (op : float -> float -> float) (ws : list Wallet)
    (k t : nat) (amt : float) (w : Wallet) :
  nth_error ws k = Some w ->
  nth_error (Spec.adjust op ws k t amt) k =
    Some (set_balances w (set_nth (balances w) t (op (nth t (balances w) 0%float) amt))).
Proof.
  intro H. unfold Spec.adjust. rewrite H. apply nth_error_set_nth_eq.
  apply nth_error_Some. congruence.
Qed.

Lemma nth_error_adjust_neq (op : float -> float -> float) (ws : list Wallet)
    (k j t : nat) (amt : float) :
  j <> k -> nth_error (Spec.adjust op ws k t amt) j = nth_error ws j.
Proof.
  intro H. unfold Spec.adjust. destruct (nth_error ws k); [|reflexivity].
  now apply nth_error_set_nth_neq.
Qed.

Lemma aligned_adjust (op : float -> float -> float) (bc : Blockchain) (k t : nat)
    (amt : float) :
  Spec.balances_aligned bc = true ->
  Spec.balances_aligned (set_wallets bc (Spec.adjust op (wallets bc) k t amt)) = true.
Proof.
  unfold Spec.balances_aligned. cbn [wallets token_types set_wallets].
  rewrite !forallb_forall. intros H w Hin.
  apply In_nth_error in Hin as [j Hj].
  destruct (Nat.eq_dec j k) as [->|Hne].
  - destruct (nth_error (wallets bc) k) as [w0|] eqn:E.
    + rewrite (nth_error_adjust_eq _ _ _ _ _ _ E) in Hj. injection Hj as <-.
      cbn [balances set_balances]. rewrite length_set_nth. apply H.
      eapply nth_error_In. exact E.
    + unfold Spec.adjust in Hj. rewrite E in Hj. congruence.
  - rewrite nth_error_adjust_neq in Hj by assumption. apply H.
    eapply nth_error_In. exact Hj.
Qed.

(** [_apply_transaction] does not look at the blocks. *)
Lemma apply_move_full (bc : Blockchain) (tx : Transaction) :
  ELTT_MAX_WALLETS <= len (wallets bc) ->
  Spec.balances_aligned bc = true ->
  Spec.is_move tx = true ->
  _validate_transaction bc tx = Ok true ->
  _find_wallet_index bc (to_address tx) = -1 ->
  _apply_transaction tx bc =
    (Ok tt,
     set_wallets bc
       (Spec.move_to_last (wallets bc)
          (Z.to_nat (_find_wallet_index bc (from_address tx)))
          (Z.to_nat (token_index tx)) (amount tx))).
Proof.
  intros Hfull Hal Hm Hv Hto.
  destruct (validated_move bc tx Hm Hv) as (Hti & Hs & w & Hw & Hlen).
  unfold _apply_transaction, bind.
  rewrite (find_or_create_found _ bc (proj1 Hs)).
  rewrite (find_or_create_missing _ bc Hto), (add_wallet_full _ bc Hfull).
  assert (Hmove : (isub_balance (_find_wallet_index bc (from_address tx))
                     (token_index tx) (amount tx) ;;;
                   iadd_balance (-1) (token_index tx) (amount tx)) bc =
                  (Ok tt,
                   set_wallets bc
                     (Spec.move_to_last (wallets bc)
                        (Z.to_nat (_find_wallet_index bc (from_address tx)))
                        (Z.to_nat (token_index tx)) (amount tx)))).
  { unfold bind, isub_balance, iadd_balance.
    rewrite (update_balance_run _ _ _ _ bc _ w (index_nonneg _ _ Hs) Hw
               (conj (proj1 Hti) Hlen)).
    set (bc1 := set_wallets bc _).
    assert (Hne : wallets bc1 <> []).
    { intro E. apply (f_equal (@List.length Wallet)) in E.
      unfold bc1 in E. cbn [wallets set_wallets] in E. rewrite length_adjust in E.
      simpl in E. unfold len in Hs. lia. }
    destruct (getitem_nth_error (wallets bc1) (-1) _ (index_last _ Hne))
      as (wl & Hwl & _).
    assert (Hal1 : Spec.balances_aligned bc1 = true) by (apply aligned_adjust; exact Hal).
    pose proof (aligned_wallet bc1 _ wl Hal1 Hwl) as Hll.
    rewrite (update_balance_run _ (-1) _ _ bc1 _ wl (index_last _ Hne) Hwl).
    - unfold bc1. cbn [wallets set_wallets]. unfold Spec.move_to_last.
      rewrite length_adjust. reflexivity.
    - unfold len. rewrite Hll. unfold bc1. cbn [token_types set_wallets].
      unfold len in Hti. lia. }
  unfold Spec.is_move in Hm. destruct (kind tx); try discriminate; exact Hmove.
Qed.


Lemma balance_at_adjust_eq (op : float -> float -> float) (bc : Blockchain)
    (k t : nat) (amt : float) (w : Wallet) :
  nth_error (wallets bc) k = Some w ->
  (t < List.length (balances w))%nat ->
  Spec.balance_at (set_wallets bc (Spec.adjust op (wallets bc) k t amt)) k t =
    op (Spec.balance_at bc k t) amt.
Proof.
  intros Hw Ht. unfold Spec.balance_at. cbn [wallets set_wallets].
  rewrite (nth_error_adjust_eq op _ k t amt w Hw), Hw. cbn [balances set_balances].
  now apply nth_set_nth_eq.
Qed.

Lemma balance_at_adjust_neq (op : float -> float -> float) (bc : Blockchain)
    (k j t t' : nat) (amt : float) :
  j <> k ->
  Spec.balance_at (set_wallets bc (Spec.adjust op (wallets bc) k t amt)) j t' =
    Spec.balance_at bc j t'.
Proof.
  intro H. unfold Spec.balance_at. cbn [wallets set_wallets].
  now rewrite nth_error_adjust_neq.
Qed.

(** Claim C10.  With 1024 wallets in the registry, wallet creation returns -1
    and changes nothing.  Applying a validated TRANSFER or SWAP whose
    recipient has no wallet then debits the sender and credits the amount to
    the wallet at the last position of the registry ([bc.wallets[-1]]): no
    wallet is created, no exception is raised, the recipient's address is
    still unknown afterwards, and [append_block] on a valid block carrying
    that transaction returns True. *)
Theorem C10_full_registry_credits_last_wallet (bc : Blockchain) (tx : Transaction) :
  1024 <= len (wallets bc) ->
  Spec.balances_aligned bc = true ->
  Spec.is_move tx = true ->
  _validate_transaction bc tx = Ok true ->
  _find_wallet_index bc (to_address tx) = -1 ->
  let n := List.length (wallets bc) in
  let s := Z.to_nat (_find_wallet_index bc (from_address tx)) in
  let t := Z.to_nat (token_index tx) in
  let ws' := Spec.move_to_last (wallets bc) s t (amount tx) in
  _add_wallet (to_address tx) bc = (Ok (-1), bc) /\
  _find_or_create_wallet (to_address tx) bc = (Ok (-1), bc) /\
  _apply_transaction tx bc = (Ok tt, set_wallets bc ws') /\
  List.length ws' = n /\
  find_from ws' (to_address tx) 0 = -1 /\
  Spec.balance_at (set_wallets bc ws') (n - 1) t =
    ((if Nat.eqb s (n - 1)
      then Spec.balance_at bc s t - amount tx
      else Spec.balance_at bc (n - 1) t) + amount tx)%float /\
  (s <> (n - 1)%nat ->
   Spec.balance_at (set_wallets bc ws') s t =
     (Spec.balance_at bc s t - amount tx)%float) /\
  (forall block : Block,
     _validate_block bc block = Ok true -> txs block = [tx] ->
     append_block block bc =
       (Ok true,
        mkBlockchain (blocks bc ++ [block]) ws' (token_types bc) (pools bc)
          (stakes bc))).
Proof.
  intros Hfull Hal Hm Hv Hto n s t ws'.
  destruct (validated_move bc tx Hm Hv) as (Hti & Hs & w & Hw & Hlen).
  fold s in Hw.
  pose proof (aligned_wallet bc s w Hal Hw) as Hwlen.
  assert (Ht : (t < List.length (token_types bc))%nat) by (unfold t, len in *; lia).
  set (bc1 := set_wallets bc (Spec.adjust PrimFloat.sub (wallets bc) s t (amount tx))).
  assert (Hal1 : Spec.balances_aligned bc1 = true) by (apply aligned_adjust; exact Hal).
  assert (Hn1 : List.length (wallets bc1) = n)
    by (unfold bc1; cbn [wallets set_wallets]; apply length_adjust).
  assert (Hpos : (0 < n)%nat) by (unfold n, len in *; lia).
  destruct (nth_error (wallets bc1) (n - 1)) as [wl|] eqn:Hwl;
    [|apply nth_error_None in Hwl; lia].
  pose proof (aligned_wallet bc1 _ wl Hal1 Hwl) as Hll.
  split; [now apply add_wallet_full|].
  split; [rewrite (find_or_create_missing _ bc Hto); now apply add_wallet_full|].
  split; [now apply apply_move_full|].
  split; [unfold ws', Spec.move_to_last; now rewrite !length_adjust|].
  split.
  { rewrite <- Hto. unfold _find_wallet_index. apply find_from_addresses.
    unfold ws', Spec.move_to_last. now rewrite !addresses_adjust. }
  split.
  { change (set_wallets bc ws')
      with (set_wallets bc1 (Spec.adjust PrimFloat.add (wallets bc1) (n - 1) t (amount tx))).
    rewrite (balance_at_adjust_eq _ bc1 (n - 1) t _ wl Hwl)
      by (rewrite Hll; exact Ht).
    f_equal. destruct (Nat.eqb s (n - 1)) eqn:E.
    - apply Nat.eqb_eq in E. rewrite <- E. unfold bc1.
      apply (balance_at_adjust_eq _ bc s t _ w Hw). rewrite Hwlen. exact Ht.
    - apply Nat.eqb_neq in E. unfold bc1. apply balance_at_adjust_neq. congruence. }
  split.
  { intro Hne.
    change (set_wallets bc ws')
      with (set_wallets bc1 (Spec.adjust PrimFloat.add (wallets bc1) (n - 1) t (amount tx))).
    rewrite balance_at_adjust_neq by exact Hne. unfold bc1.
    apply (balance_at_adjust_eq _ bc s t _ w Hw). rewrite Hwlen. exact Ht. }
  intros block Hvb Htxs. unfold append_block, bind, get, lift, put, ret.
  rewrite Hvb. cbn [negb]. rewrite Htxs. cbn [apply_all]. unfold bind, ret.
  rewrite (apply_move_full (set_blocks bc (blocks bc ++ [block])) tx Hfull Hal Hm Hv Hto).
  reflexivity.
Qed.

Lemma C10_witness :
  _add_wallet "newcomer" Scenario.full_registry = (Ok (-1), Scenario.full_registry) /\
  _apply_transaction Scenario.pay_newcomer Scenario.full_registry =
    (Ok tt,
     set_wallets Scenario.full_registry
       (Spec.move_to_last (wallets Scenario.full_registry) 0 0 30)) /\
  List.length (Spec.move_to_last (wallets Scenario.full_registry) 0 0 30) = 1024%nat /\
  Spec.balance_at
    (set_wallets Scenario.full_registry
       (Spec.move_to_last (wallets Scenario.full_registry) 0 0 30)) 1023 0 = 130%float /\
  Spec.balance_at
    (set_wallets Scenario.full_registry
       (Spec.move_to_last (wallets Scenario.full_registry) 0 0 30)) 0 0 = 70%float /\
  fst (append_block Scenario.block_newcomer Scenario.full_registry) = Ok true.
Proof.
  pose proof (C10_full_registry_credits_last_wallet Scenario.full_registry
                Scenario.pay_newcomer) as H.
  cbv zeta in H.
  destruct H as (Hadd & _ & Happly & Hlen & _ & Hlast & Hsender & Happend);
    try (vm_compute; reflexivity).
  { vm_compute. discriminate. }
  split; [exact Hadd|]. split; [exact Happly|]. split; [exact Hlen|].
  split; [vm_compute; reflexivity|]. split; [vm_compute; reflexivity|].
  rewrite (Happend Scenario.block_newcomer); [reflexivity | vm_compute; reflexivity
    | reflexivity].
Defined.

End Applier.

(** ** Conservation *)

Section Conservation.
Import Ledger.

Lemma total_set_nth (ws : list Wallet) (k t : nat) (w w' : Wallet) :
  nth_error ws k = Some w ->
  fold_right Z.add 0 (map (Spec.held t) (set_nth ws k w')) =
  fold_right Z.add 0 (map (Spec.held t) ws) - Spec.held t w + Spec.held t w'.
Proof.
  revert k; induction ws as [|x ws IH]; intros [|k] H; simpl in *; try discriminate.
  - injection H as ->. lia.
  - rewrite (IH k H). lia.
Qed.

Lemma total_adjust (op : float -> float -> float) (bc : Blockchain) (k tk t : nat)
    (amt : float) (w : Wallet) :
  nth_error (wallets bc) k = Some w ->
  (tk < List.length (balances w))%nat ->
  Spec.total_balance (set_wallets bc (Spec.adjust op (wallets bc) k tk amt)) t =
    Spec.total_balance bc t +
    (if Nat.eqb t tk
     then Spec.ulps (op (nth tk (balances w) 0%float) amt) -
          Spec.ulps (nth tk (balances w) 0%float)
     else 0).
Proof.
  intros Hw Htk. unfold Spec.total_balance, Spec.adjust. cbn [wallets set_wallets].
  rewrite Hw. rewrite (total_set_nth _ k t w _ Hw).
  unfold Spec.held. cbn [balances set_balances].
  destruct (Nat.eqb t tk) eqn:E.
  - apply Nat.eqb_eq in E. subst t. rewrite nth_set_nth_eq by exact Htk. lia.
  - apply Nat.eqb_neq in E. rewrite nth_set_nth_neq by exact E. lia.
Qed.

Lemma total_find_or_create (a : string) (bc : Blockchain) :
  exists i bc1,
    _find_or_create_wallet a bc = (Ok i, bc1) /\
    forall t, Spec.total_balance bc1 t = Spec.total_balance bc t.
Proof.
  destruct (Z_le_gt_dec 0 (_find_wallet_index bc a)) as [H|H].
  - rewrite (find_or_create_found a bc H). eauto.
  - assert (Hm : _find_wallet_index bc a = -1).
    { unfold _find_wallet_index in *.
      destruct (find_from_range (wallets bc) a 0); [assumption|lia]. }
    rewrite (find_or_create_missing a bc Hm).
    destruct (Z_lt_le_dec (len (wallets bc)) ELTT_MAX_WALLETS) as [Hr|Hf].
    + rewrite (add_wallet_room a bc Hr). do 2 eexists. split; [reflexivity|].
      intro t. unfold Spec.total_balance. cbn [wallets set_wallets].
      rewrite map_app, fold_right_app. cbn [map fold_right]. unfold Spec.held at 1.
      cbn [balances]. rewrite nth_repeat. reflexivity.
    + rewrite (add_wallet_full a bc Hf). eauto.
Qed.

Lemma getitem_balance (w : Wallet) (i : Z) :
  0 <= i < len (balances w) ->
  getitem (balances w) i = Ok (nth (Z.to_nat i) (balances w) 0%float).
Proof.
  intro H. destruct (getitem_in_range (balances w) i H) as (b & Hb & ->).
  now rewrite (nth_error_nth _ _ 0%float Hb).
Qed.

(** An exact update moves the total by exactly the amount. *)
Lemma total_update_exact (op : float -> float -> float) (zop : Z -> Z -> Z)
    (widx tidx : Z) (amt : float) (bc bc' : Blockchain) (u : unit) (t : nat) :
  0 <= tidx ->
  update_balance op widx tidx amt bc = (Ok u, bc') ->
  Spec.update_exact op zop widx tidx amt bc = true ->
  exists b : Z,
    Spec.total_balance bc' t =
      Spec.total_balance bc t +
      (if Nat.eqb t (Z.to_nat tidx) then zop b (Spec.ulps amt) - b else 0).
Proof.
  intros Ht Hrun Hex.
  destruct (update_balance_inv op widx tidx amt bc bc' u Ht Hrun)
    as (k & w & Hk & Hw & Hlt & ->).
  unfold Spec.update_exact, getitem in Hex. rewrite Hk, Hw in Hex.
  fold (getitem (balances w) tidx) in Hex.
  rewrite (getitem_balance w tidx (conj Ht Hlt)) in Hex.
  unfold Spec.exact in Hex. apply andb_true_iff in Hex as [_ Hex].
  apply Z.eqb_eq in Hex.
  exists (Spec.ulps (nth (Z.to_nat tidx) (balances w) 0%float)).
  rewrite (total_adjust op bc k (Z.to_nat tidx) t amt w Hw)
    by (unfold len in Hlt; lia).
  now rewrite Hex.
Qed.

Lemma apply_move_conserves (tx : Transaction) (bc bc' : Blockchain) (u : unit) :
  Spec.is_move tx = true ->
  0 <= token_index tx ->
  _apply_transaction tx bc = (Ok u, bc') ->
  Spec.move_rounding_free tx bc = true ->
  forall t, Spec.total_balance bc' t = Spec.total_balance bc t.
Proof.
  intros Hm Hti Hrun Hfree t.
  unfold _apply_transaction, bind in Hrun. unfold Spec.move_rounding_free in Hfree.
  destruct (total_find_or_create (from_address tx) bc) as (fi & bc1 & Hf & Ht1).
  rewrite Hf in Hrun, Hfree.
  destruct (total_find_or_create (to_address tx) bc1) as (ti & bc2 & Hto & Ht2).
  rewrite Hto in Hrun, Hfree.
  apply andb_true_iff in Hfree as [Hsub Hadd].
  assert (Hmove : (isub_balance fi (token_index tx) (amount tx) ;;;
                   iadd_balance ti (token_index tx) (amount tx)) bc2 = (Ok u, bc')).
  { unfold Spec.is_move in Hm. destruct (kind tx); try discriminate; exact Hrun. }
  clear Hrun. unfold bind in Hmove.
  destruct (isub_balance fi (token_index tx) (amount tx) bc2) as [[u3|e] bc3] eqn:H3;
    [|discriminate].
  unfold isub_balance in H3. unfold iadd_balance in Hmove.
  destruct (total_update_exact _ _ _ _ _ _ _ _ t Hti H3 Hsub) as [b Hb].
  destruct (total_update_exact _ _ _ _ _ _ _ _ t Hti Hmove Hadd) as [b' Hb'].
  rewrite Hb', Hb, Ht2, Ht1. destruct (Nat.eqb t (Z.to_nat (token_index tx))); lia.
Qed.

Lemma apply_all_conserves (l : list Transaction) (bc bc' : Blockchain) (u : unit) :
  forallb Spec.is_move l = true ->
  Forall (fun tx => 0 <= token_index tx) l ->
  apply_all l bc = (Ok u, bc') ->
  Spec.block_rounding_free l bc = true ->
  forall t, Spec.total_balance bc' t = Spec.total_balance bc t.
Proof.
  revert bc; induction l as [|tx l IH]; intros bc Hm Hti Hrun Hfree t.
  - simpl in Hrun. unfold ret in Hrun. now injection Hrun as _ <-.
  - cbn [forallb] in Hm. apply andb_true_iff in Hm as [Hm1 Hm2].
    inversion Hti as [|? ? Hti1 Hti2]; subst.
    cbn [apply_all] in Hrun. unfold bind in Hrun.
    cbn [Spec.block_rounding_free] in Hfree.
    apply andb_true_iff in Hfree as [Hf1 Hf2].
    destruct (_apply_transaction tx bc) as [[u1|e] bc1] eqn:E; [|discriminate].
    rewrite (IH bc1 Hm2 Hti2 Hrun Hf2 t).
    exact (apply_move_conserves tx bc bc1 u1 Hm1 Hti1 E Hf1 t).
Qed.

Lemma validated_token_index (bc : Blockchain) (tx : Transaction) :
  _validate_transaction bc tx = Ok true -> 0 <= token_index tx.
Proof.
  unfold _validate_transaction. intro H.
  destruct ((token_index tx <? 0) || (len (token_types bc) <=? token_index tx)) eqn:E;
    [discriminate|].
  apply orb_false_iff in E as [E _]. now apply Z.ltb_ge in E.
Qed.

Lemma append_accepted (bc bc' : Blockchain) (block : Block) :
  append_block block bc = (Ok true, bc') ->
  validate_all bc (txs block) = Ok true /\
  exists u, apply_all (txs block) (set_blocks bc (blocks bc ++ [block])) = (Ok u, bc').
Proof.
  unfold append_block, bind, get, lift, put, ret. intro H.
  destruct (_validate_block bc block) as [[|]|e] eqn:Hv; cbn [negb] in H;
    try discriminate.
  split.
  - unfold _validate_block in Hv.
    destruct (check_linkage bc block) as [[|]|e]; cbn [rbind negb] in Hv;
      try discriminate.
    destruct (compute_block_hash _) as [h|e]; cbn [rbind] in Hv; [|discriminate].
    destruct (negb (bytes_eqb h (hash block))); [discriminate | exact Hv].
  - destruct (apply_all (txs block) _) as [[u|e] bc1]; [|discriminate].
    injection H as <-. eauto.
Qed.

(** Claim C6, amended.  For a block of TRANSFER and SWAP transactions that
    [append_block] accepts, if every floating-point debit and credit made
    while the block is applied is exact (its result is finite and equals the
    real difference or sum), then the exact total of every token over all
    wallets is the same before and after. *)
Theorem C6_conservation_without_rounding (bc bc' : Blockchain) (block : Block) :
  append_block block bc = (Ok true, bc') ->
  forallb Spec.is_move (txs block) = true ->
  Spec.block_rounding_free (txs block) (set_blocks bc (blocks bc ++ [block])) = true ->
  forall t : nat, Spec.total_balance bc' t = Spec.total_balance bc t.
Proof.
  intros Happ Hm Hfree t.
  destruct (append_accepted bc bc' block Happ) as (Hv & u & Hrun).
  apply validate_all_accepts in Hv.
  transitivity (Spec.total_balance (set_blocks bc (blocks bc ++ [block])) t);
    [|reflexivity].
  apply (apply_all_conserves (txs block) _ bc' u Hm); try assumption.
  eapply Forall_impl; [|exact Hv]. intros tx Htx.
  now apply (validated_token_index bc).
Qed.

Lemma C6_witness :
  Spec.total_balance
    (Scenario.after (append_block Scenario.block_moves) Scenario.chain3) 0 =
  Spec.total_balance Scenario.chain3 0.
Proof.
  apply (C6_conservation_without_rounding Scenario.chain3 _ Scenario.block_moves);
    vm_compute; reflexivity.
Defined.

End Conservation.

(** ** Full-state validator *)

Section ValidatorProofs.
Import Validator ValidatorSpec.

Variable py_hash : fingerprint -> Z.

Lemma first_error_some {A : Type} (body : A -> option ValidatorError) (l : list A)
    (e : ValidatorError) :
  first_error body l = Some e -> exists x, In x l /\ body x = Some e.
Proof.
  induction l as [|x l IH]; simpl; [discriminate|].
  destruct (body x) as [e'|] eqn:E.
  - intros [= <-]. exists x. auto.
  - intro H. destruct (IH H) as (y & Hy & Hb). exists y. auto.
Qed.

Lemma seen_spec (h : Z) (seen : list Z) : existsb (Z.eqb h) seen = true <-> In h seen.
Proof.
  rewrite existsb_exists. split.
  - intros (x & Hx & E). apply Z.eqb_eq in E. now subst.
  - intro H. exists h. split; [assumption | apply Z.eqb_refl].
Qed.

Lemma check_txs_none_inv (state : BlockchainState) (l : list Transaction)
    (seen : list Z) :
  check_txs py_hash state seen l = None ->
  Forall (fun tx => tx_field_error state tx = None) l /\
  NoDup (map (fp_hash py_hash) l) /\
  (forall tx, In tx l -> ~ In (fp_hash py_hash tx) seen).
Proof.
  revert seen; induction l as [|tx l IH]; intros seen H.
  - repeat split; [constructor | constructor | intros tx []].
  - cbn [check_txs] in H. destruct (tx_field_error state tx) eqn:Ef; [discriminate|].
    destruct (existsb (Z.eqb (py_hash (fingerprint_of tx))) seen) eqn:Es;
      [discriminate|].
    destruct (IH _ H) as (Hf & Hn & Hs).
    assert (Hfresh : ~ In (fp_hash py_hash tx) seen).
    { intro Hin. apply seen_spec in Hin. unfold fp_hash in Hin. congruence. }
    split; [constructor; assumption|]. split.
    + cbn [map]. constructor; [|exact Hn].
      intro Hin. apply in_map_iff in Hin as (tx' & Heq & Hin').
      apply (Hs tx' Hin'). rewrite Heq. apply in_or_app. right. now left.
    + intros tx' [<-|Hin]; [exact Hfresh|].
      intro Hs'. apply (Hs tx' Hin). apply in_or_app. now left.
Qed.

Lemma check_txs_none_intro (state : BlockchainState) (l : list Transaction)
    (seen : list Z) :
  Forall (fun tx => tx_field_error state tx = None) l ->
  NoDup (map (fp_hash py_hash) l) ->
  (forall tx, In tx l -> ~ In (fp_hash py_hash tx) seen) ->
  check_txs py_hash state seen l = None.
Proof.
  revert seen; induction l as [|tx l IH]; intros seen Hf Hn Hs; [reflexivity|].
  cbn [check_txs]. inversion Hf as [|? ? Hf1 Hf2]; subst. rewrite Hf1.
  cbn [map] in Hn. inversion Hn as [|? ? Hn1 Hn2]; subst.
  destruct (existsb (Z.eqb (py_hash (fingerprint_of tx))) seen) eqn:Es.
  - apply seen_spec in Es. exfalso. apply (Hs tx); [now left | exact Es].
  - apply IH; try assumption. intros tx' Hin Hin'.
    apply in_app_or in Hin' as [Hin'|[Heq|[]]].
    + apply (Hs tx'); [now right | exact Hin'].
    + apply Hn1. change (py_hash (fingerprint_of tx)) with (fp_hash py_hash tx) in Heq.
      rewrite Heq. apply in_map_iff. exists tx'. auto.
Qed.

Lemma check_txs_verdict (state : BlockchainState) (l : list Transaction)
    (seen : list Z) :
  Forall (fun tx => tx_field_error state tx = None) l ->
  check_txs py_hash state seen l = None \/
  check_txs py_hash state seen l = Some TX_REPLAY_DUPLICATE_IN_BLOCK.
Proof.
  revert seen; induction l as [|tx l IH]; intros seen Hf; [now left|].
  cbn [check_txs]. inversion Hf as [|? ? Hf1 Hf2]; subst. rewrite Hf1.
  destruct (existsb _ seen); [now right | now apply IH].
Qed.

Lemma tx_field_error_range (state : BlockchainState) (tx : Transaction)
    (e : ValidatorError) :
  tx_field_error state tx = Some e ->
  In e [TX_TOKEN_INDEX_INVALID; TX_AMOUNT_NEGATIVE; TX_KIND_INVALID;
        WALLET_ADDRESS_INVALID].
Proof.
  unfold tx_field_error. error_in_range.
Qed.

Lemma check_txs_range (state : BlockchainState) (l : list Transaction)
    (seen : list Z) (e : ValidatorError) :
  check_txs py_hash state seen l = Some e ->
  In e [TX_TOKEN_INDEX_INVALID; TX_AMOUNT_NEGATIVE; TX_KIND_INVALID;
        WALLET_ADDRESS_INVALID; TX_REPLAY_DUPLICATE_IN_BLOCK].
Proof.
  revert seen; induction l as [|tx l IH]; intros seen; cbn [check_txs];
    [discriminate|].
  destruct (tx_field_error state tx) as [e'|] eqn:Ef.
  - intros [= <-]. apply tx_field_error_range in Ef. simpl in *. tauto.
  - destruct (existsb _ seen); [intros [= <-]; simpl; tauto | apply IH].
Qed.

(** One block: the code's check against the declarative conditions. *)
Lemma block_check_none (state : BlockchainState) (blk : Block) :
  _check_block_transactions py_hash state blk = None <->
  fields_ok state blk /\ fingerprints_distinct py_hash blk.
Proof.
  unfold _check_block_transactions, fields_ok, fingerprints_distinct. split.
  - destruct (ELTT_MAX_TX_PER_BLOCK <? len (txs blk)) eqn:E; [discriminate|].
    apply Z.ltb_ge in E. intro H.
    destruct (check_txs_none_inv state _ _ H) as (Hf & Hn & _). auto.
  - intros [[Hlen Hf] Hn]. apply Z.ltb_ge in Hlen. rewrite Hlen.
    apply check_txs_none_intro; [assumption | exact Hn | intros tx _ []].
Qed.

Lemma block_check_verdict (state : BlockchainState) (blk : Block) :
  fields_ok state blk ->
  _check_block_transactions py_hash state blk = None \/
  _check_block_transactions py_hash state blk = Some TX_REPLAY_DUPLICATE_IN_BLOCK.
Proof.
  intros [Hlen Hf]. unfold _check_block_transactions.
  apply Z.ltb_ge in Hlen. rewrite Hlen. now apply check_txs_verdict.
Qed.

Lemma block_check_range (state : BlockchainState) (blk : Block) (e : ValidatorError) :
  _check_block_transactions py_hash state blk = Some e ->
  In e [UNKNOWN; TX_TOKEN_INDEX_INVALID; TX_AMOUNT_NEGATIVE; TX_KIND_INVALID;
        WALLET_ADDRESS_INVALID; TX_REPLAY_DUPLICATE_IN_BLOCK].
Proof.
  unfold _check_block_transactions.
  destruct (ELTT_MAX_TX_PER_BLOCK <? len (txs blk)).
  - intros [= <-]. simpl. tauto.
  - intro H. apply check_txs_range in H. simpl in *. tauto.
Qed.

(** The loop after its first iteration. *)
Lemma chain_loop_cons (state : BlockchainState) (p blk : Block) (r : list Block) :
  chain_loop py_hash state (Some p) (timestamp p) (blk :: r) =
    if negb (index blk =? index p + 1) then Some BLOCK_INDEX_SEQUENCE
    else if negb (bytes_eqb (prev_hash blk) (hash p)) then Some BLOCK_PREV_HASH_MISMATCH
    else if timestamp blk <? timestamp p then Some TIMESTAMP_NON_MONOTONIC
    else match _check_block_transactions py_hash state blk with
         | Some e => Some e
         | None => chain_loop py_hash state (Some blk) (timestamp blk) r
         end.
Proof.
  cbn [chain_loop]. destruct (negb (index blk =? index p + 1)); [reflexivity|].
  destruct (negb (bytes_eqb (prev_hash blk) (hash p))); reflexivity.
Qed.

(** The first iteration of the loop. *)
Lemma chain_loop_first (state : BlockchainState) (g : Block) (r : list Block) :
  chain_loop py_hash state None 0 (g :: r) =
    if negb (bytes_eqb (prev_hash g) zero_hash) then Some GENESIS_PREV_HASH
    else match _check_block_transactions py_hash state g with
         | Some e => Some e
         | None => chain_loop py_hash state (Some g) (timestamp g) r
         end.
Proof.
  cbn [chain_loop]. destruct (negb (bytes_eqb (prev_hash g) zero_hash)); reflexivity.
Qed.

Lemma chain_loop_none (state : BlockchainState) (p : Block) (l : list Block) :
  chain_loop py_hash state (Some p) (timestamp p) l = None <->
  links_ok p l /\ Forall (fields_ok state) l /\
  Forall (fingerprints_distinct py_hash) l.
Proof.
  revert p; induction l as [|blk l IH]; intro p.
  - cbn [chain_loop links_ok]. split; [intros _; repeat split; constructor | reflexivity].
  - rewrite chain_loop_cons. cbn [links_ok]. split.
    + destruct (index blk =? index p + 1) eqn:E1; cbn [negb]; [|discriminate].
      destruct (bytes_eqb (prev_hash blk) (hash p)) eqn:E2; cbn [negb]; [|discriminate].
      destruct (timestamp blk <? timestamp p) eqn:E3; [discriminate|].
      destruct (_check_block_transactions py_hash state blk) eqn:E4; [discriminate|].
      intro H. apply IH in H as (Hl & Hf & Hd).
      apply block_check_none in E4 as [Hf0 Hd0].
      apply Z.eqb_eq in E1. apply bytes_eqb_eq in E2. apply Z.ltb_ge in E3.
      repeat split; try assumption; constructor; assumption.
    + intros ((Hi & Hp & Ht & Hl) & Hf & Hd).
      inversion Hf as [|? ? Hf1 Hf2]; subst. inversion Hd as [|? ? Hd1 Hd2]; subst.
      apply Z.eqb_eq in Hi. apply bytes_eqb_eq in Hp. apply Z.ltb_ge in Ht.
      rewrite Hi, Hp, Ht. cbn [negb].
      rewrite (proj2 (block_check_none state blk) (conj Hf1 Hd1)).
      apply IH. auto.
Qed.

Lemma chain_loop_range (state : BlockchainState) (prev : option Block) (ts : Z)
    (l : list Block) (e : ValidatorError) :
  chain_loop py_hash state prev ts l = Some e ->
  In e [GENESIS_PREV_HASH; BLOCK_INDEX_SEQUENCE; BLOCK_PREV_HASH_MISMATCH;
        TIMESTAMP_NON_MONOTONIC; UNKNOWN; TX_TOKEN_INDEX_INVALID;
        TX_AMOUNT_NEGATIVE; TX_KIND_INVALID; WALLET_ADDRESS_INVALID;
        TX_REPLAY_DUPLICATE_IN_BLOCK].
Proof.
  revert prev ts; induction l as [|blk l IH]; intros prev ts; cbn [chain_loop];
    [discriminate|].
  destruct prev as [p|].
  - destruct (negb (index blk =? index p + 1)); [intros [= <-]; simpl; tauto|].
    destruct (negb (bytes_eqb (prev_hash blk) (hash p))); [intros [= <-]; simpl; tauto|].
    destruct (true && (timestamp blk <? ts)); [intros [= <-]; simpl; tauto|].
    destruct (_check_block_transactions py_hash state blk) as [e'|] eqn:E.
    + intros [= <-]. apply block_check_range in E. simpl in *. tauto.
    + apply IH.
  - destruct (negb (bytes_eqb (prev_hash blk) zero_hash)); [intros [= <-]; simpl; tauto|].
    cbn [andb].
    destruct (_check_block_transactions py_hash state blk) as [e'|] eqn:E.
    + intros [= <-]. apply block_check_range in E. simpl in *. tauto.
    + apply IH.
Qed.

Lemma check_chain_none (state : BlockchainState) :
  _check_chain py_hash state = None <->
  chain_structure_ok (blocks state) /\
  Forall (fields_ok state) (blocks state) /\
  Forall (fingerprints_distinct py_hash) (blocks state).
Proof.
  unfold _check_chain, chain_structure_ok.
  destruct (blocks state) as [|g r].
  - split; [discriminate | intros [[] _]].
  - rewrite chain_loop_first. split.
    + destruct (bytes_eqb (prev_hash g) zero_hash) eqn:E; cbn [negb]; [|discriminate].
      destruct (_check_block_transactions py_hash state g) eqn:E1; [discriminate|].
      intro H. apply chain_loop_none in H as (Hl & Hf & Hd).
      apply block_check_none in E1 as [Hf0 Hd0]. apply bytes_eqb_eq in E.
      repeat split; try assumption; constructor; assumption.
    + intros ((Hz & Hl) & Hf & Hd).
      inversion Hf as [|? ? Hf1 Hf2]; subst. inversion Hd as [|? ? Hd1 Hd2]; subst.
      apply bytes_eqb_eq in Hz. rewrite Hz. cbn [negb].
      rewrite (proj2 (block_check_none state g) (conj Hf1 Hd1)).
      apply chain_loop_none. auto.
Qed.

Lemma check_chain_range (state : BlockchainState) (e : ValidatorError) :
  _check_chain py_hash state = Some e ->
  In e [NO_BLOCKS; GENESIS_PREV_HASH; BLOCK_INDEX_SEQUENCE; BLOCK_PREV_HASH_MISMATCH;
        TIMESTAMP_NON_MONOTONIC; UNKNOWN; TX_TOKEN_INDEX_INVALID;
        TX_AMOUNT_NEGATIVE; TX_KIND_INVALID; WALLET_ADDRESS_INVALID;
        TX_REPLAY_DUPLICATE_IN_BLOCK].
Proof.
  unfold _check_chain. destruct (blocks state) as [|g r] eqn:E.
  - intros [= <-]. simpl. tauto.
  - intro H. apply chain_loop_range in H. simpl in *. tauto.
Qed.

Lemma check_wallets_range (state : BlockchainState) (e : ValidatorError) :
  _check_wallets state = Some e ->
  In e [WALLET_ADDRESS_INVALID; TX_TOKEN_INDEX_INVALID; WALLET_BALANCE_NEGATIVE].
Proof.
  unfold _check_wallets. intro H. apply first_error_some in H as (w & _ & H).
  revert H. error_in_range.
Qed.

Lemma check_pools_range (state : BlockchainState) (e : ValidatorError) :
  _check_pools state = Some e -> In e [POOL_INDEX_INVALID; POOL_RESERVE_NEGATIVE].
Proof.
  unfold _check_pools. intro H. apply first_error_some in H as (w & _ & H).
  revert H. error_in_range.
Qed.

Lemma check_stakes_range (state : BlockchainState) (e : ValidatorError) :
  _check_stakes state = Some e ->
  In e [STAKE_OWNER_INVALID; TX_TOKEN_INDEX_INVALID; STAKE_AMOUNT_NEGATIVE;
        STAKE_TIME_INCONSISTENT].
Proof.
  unfold _check_stakes. intro H. apply first_error_some in H as (w & _ & H).
  revert H. error_in_range.
Qed.

End ValidatorProofs.

Section Replay.
Import Validator ValidatorSpec.

Variable py_hash : fingerprint -> Z.

(** Over a prefix whose transactions pass the field checks, the loop either
    reports a replay or goes on with the hashes of the prefix recorded. *)
Lemma check_txs_prefix (state : BlockchainState) (l1 l2 : list Transaction)
    (seen : list Z) :
  Forall (fun tx => tx_field_error state tx = None) l1 ->
  check_txs py_hash state seen (l1 ++ l2) = Some TX_REPLAY_DUPLICATE_IN_BLOCK \/
  (NoDup (map (fp_hash py_hash) l1) /\
   (forall tx, In tx l1 -> ~ In (fp_hash py_hash tx) seen) /\
   check_txs py_hash state seen (l1 ++ l2) =
     check_txs py_hash state (seen ++ map (fp_hash py_hash) l1) l2).
Proof.
  revert seen; induction l1 as [|tx l1 IH]; intros seen Hf.
  - right. split; [constructor|]. split; [intros tx []|].
    cbn [map app]. now rewrite app_nil_r.
  - inversion Hf as [|? ? Hf1 Hf2]; subst. cbn [app check_txs]. rewrite Hf1.
    destruct (existsb (Z.eqb (py_hash (fingerprint_of tx))) seen) eqn:Es; [now left|].
    assert (Hfresh : ~ In (fp_hash py_hash tx) seen).
    { intro Hin. apply seen_spec in Hin. unfold fp_hash in Hin. congruence. }
    destruct (IH (seen ++ [py_hash (fingerprint_of tx)]) Hf2) as [Hr|(Hn & Hd & Heq)];
      [now left|].
    right. split; [|split].
    + cbn [map]. constructor; [|exact Hn].
      intro Hin. apply in_map_iff in Hin as (tx' & Heq' & Hin').
      apply (Hd tx' Hin'). rewrite Heq'. apply in_or_app. right. now left.
    + intros tx' [<-|Hin]; [exact Hfresh|].
      intro Hs. apply (Hd tx' Hin). apply in_or_app. now left.
    + rewrite Heq. cbn [map]. now rewrite <- app_assoc.
Qed.

(** A block within the size limit that holds, at positions [i < j], two
    transactions with the same fingerprint hash is reported as a replay as
    soon as the transactions up to position [j] pass the field checks. *)
Lemma block_replay (state : BlockchainState) (blk : Block) (i j : nat)
    (tx1 tx2 : Transaction) :
  len (txs blk) <= ELTT_MAX_TX_PER_BLOCK ->
  (i < j)%nat ->
  nth_error (txs blk) i = Some tx1 -> nth_error (txs blk) j = Some tx2 ->
  fp_hash py_hash tx1 = fp_hash py_hash tx2 ->
  Forall (fun tx => tx_field_error state tx = None) (firstn (S j) (txs blk)) ->
  _check_block_transactions py_hash state blk = Some TX_REPLAY_DUPLICATE_IN_BLOCK.
Proof.
  intros Hlen Hij H1 H2 Heq Hf. unfold _check_block_transactions.
  apply Z.ltb_ge in Hlen. rewrite Hlen.
  rewrite <- (firstn_skipn (S j) (txs blk)).
  destruct (check_txs_prefix state _ (skipn (S j) (txs blk)) [] Hf)
    as [Hr|(Hn & _ & _)]; [exact Hr|].
  exfalso. rewrite NoDup_nth_error in Hn.
  assert (Hi : (i < List.length (map (fp_hash py_hash) (firstn (S j) (txs blk))))%nat).
  { rewrite length_map. apply nth_error_Some. rewrite nth_error_firstn.
    replace (Nat.ltb i (S j)) with true by (symmetry; apply Nat.ltb_lt; lia).
    congruence. }
  specialize (Hn i j Hi). rewrite !nth_error_map, !nth_error_firstn in Hn.
  replace (Nat.ltb i (S j)) with true in Hn by (symmetry; apply Nat.ltb_lt; lia).
  replace (Nat.ltb j (S j)) with true in Hn by (symmetry; apply Nat.ltb_lt; lia).
  rewrite H1, H2 in Hn. cbn [option_map] in Hn. rewrite Heq in Hn.
  specialize (Hn eq_refl). lia.
Qed.

(** The chain loop reaches a block that continues a well-linked prefix whose
    blocks pass the field checks, unless it reports a replay before. *)
Lemma chain_loop_reaches (state : BlockchainState) (p : Block) (pre : list Block)
    (blk : Block) (post : list Block) :
  links_ok p (pre ++ [blk]) ->
  Forall (fields_ok state) pre ->
  _check_block_transactions py_hash state blk = Some TX_REPLAY_DUPLICATE_IN_BLOCK ->
  chain_loop py_hash state (Some p) (timestamp p) (pre ++ blk :: post) =
    Some TX_REPLAY_DUPLICATE_IN_BLOCK.
Proof.
  revert p; induction pre as [|b pre IH]; intros p Hl Hf Hb.
  - cbn [app links_ok] in Hl. destruct Hl as (Hi & Hp & Ht & _).
    cbn [app]. rewrite chain_loop_cons.
    apply Z.eqb_eq in Hi. apply bytes_eqb_eq in Hp. apply Z.ltb_ge in Ht.
    rewrite Hi, Hp, Ht, Hb. reflexivity.
  - cbn [app links_ok] in Hl. destruct Hl as (Hi & Hp & Ht & Hl).
    inversion Hf as [|? ? Hf1 Hf2]; subst.
    cbn [app]. rewrite chain_loop_cons.
    apply Z.eqb_eq in Hi. apply bytes_eqb_eq in Hp. apply Z.ltb_ge in Ht.
    rewrite Hi, Hp, Ht. cbn [negb].
    destruct (block_check_verdict py_hash state b Hf1) as [-> | ->];
      [now apply IH | reflexivity].
Qed.

Lemma check_chain_reaches (state : BlockchainState) (pre : list Block) (blk : Block)
    (post : list Block) :
  blocks state = pre ++ blk :: post ->
  chain_structure_ok (pre ++ [blk]) ->
  Forall (fields_ok state) pre ->
  _check_block_transactions py_hash state blk = Some TX_REPLAY_DUPLICATE_IN_BLOCK ->
  _check_chain py_hash state = Some TX_REPLAY_DUPLICATE_IN_BLOCK.
Proof.
  intros Hb Hc Hf Hr. unfold _check_chain. rewrite Hb.
  destruct pre as [|g pre].
  - cbn [app] in *. destruct Hc as [Hz _]. rewrite chain_loop_first.
    apply bytes_eqb_eq in Hz. rewrite Hz, Hr. reflexivity.
  - cbn [app] in *. destruct Hc as [Hz Hl]. inversion Hf as [|? ? Hf1 Hf2]; subst.
    rewrite chain_loop_first. apply bytes_eqb_eq in Hz. rewrite Hz. cbn [negb].
    destruct (block_check_verdict py_hash state g Hf1) as [-> | ->];
      [now apply chain_loop_reaches | reflexivity].
Qed.

End Replay.

Section ValidatorVerdicts.
Import Validator ValidatorSpec.

Lemma same_fields_same_hash (py_hash : fingerprint -> Z) (tx1 tx2 : Transaction) :
  hash_respects_eq py_hash -> same_fields tx1 tx2 ->
  fp_hash py_hash tx1 = fp_hash py_hash tx2.
Proof.
  intros Hh (Hf & Ht & Hi & Ha & Hk & Hm).
  unfold fp_hash, fingerprint_of, hashed_amount.
  rewrite Hf, Ht, Hi, Hk, Hm. destruct Ha as [Ha|(N1 & N2 & Hid)].
  - destruct (eqb_not_nan _ _ Ha) as [-> ->]. now apply Hh.
  - now rewrite N1, N2, Hid.
Qed.

Lemma demo_hash_respects_eq : hash_respects_eq demo_hash.
Proof. intros f t i a1 a2 k m _. reflexivity. Qed.

Lemma object_hash_respects_eq : hash_respects_eq object_hash.
Proof. intros f t i a1 a2 k m _. reflexivity. Qed.

(** Claim C8, counterexample.  The one block of [snapshot_nan_twins] holds two
    transactions whose from-address, to-address, token index, amount, kind
    and memo have the same values; the amount is a NaN, held as two float
    objects.  The snapshot passes every earlier check, and the validator
    returns OK: the hashes of the two tuples differ, as the hash of a NaN is
    taken from the identity of the object.  With one NaN object held by both
    transactions the tuples compare equal and the replay is reported. *)
Lemma C8_counterexample_nan_amounts :
  hash_respects_eq object_hash /\
  _check_token_symbols_unique snapshot_nan_twins = true /\
  _check_wallets snapshot_nan_twins = None /\
  _check_pools snapshot_nan_twins = None /\
  _check_stakes snapshot_nan_twins = None /\
  (exists blk tx1 tx2,
     blocks snapshot_nan_twins = [blk] /\
     chain_structure_ok [blk] /\
     fields_ok snapshot_nan_twins blk /\
     nth_error (txs blk) 0 = Some tx1 /\
     nth_error (txs blk) 1 = Some tx2 /\
     same_values tx1 tx2 /\
     is_nan (amount tx1) = true /\
     amount_id tx1 <> amount_id tx2) /\
  validate_blockchain object_hash (Some snapshot_nan_twins) = OK /\
  validate_blockchain object_hash (Some snapshot_nan_shared) =
    TX_REPLAY_DUPLICATE_IN_BLOCK.
Proof.
  split; [exact object_hash_respects_eq|].
  do 4 (split; [reflexivity|]). split.
  - exists (mkBlock 0 10 zero_hash [x01] [pay_nan 1; pay_nan 2]), (pay_nan 1), (pay_nan 2).
    split; [reflexivity|]. split; [split; [reflexivity | exact I]|]. split.
    + split; [vm_compute; discriminate | repeat constructor].
    + do 2 (split; [reflexivity|]). split; [repeat split; reflexivity|].
      split; [reflexivity | discriminate].
  - split; vm_compute; reflexivity.
Qed.

(** Claim C8, amended.  Let a snapshot pass the token, wallet, pool and
    stake checks, and let one of its blocks hold, at positions [i < j], two
    transactions whose fingerprint tuples compare equal: the same
    from-address, to-address, token index, kind and memo, and amounts that
    compare equal as floats or are one and the same NaN object.  If the chain
    up to and including that block is well linked with non-decreasing
    timestamps, the earlier blocks are within the size limit with
    transactions that pass the field checks, and so are this block's size and
    its transactions up to position [j], then [validate_blockchain] returns
    TX_REPLAY_DUPLICATE_IN_BLOCK, whatever follows and whatever function
    [hash] is, as long as tuples that compare equal hash alike. *)
Theorem C8_duplicate_in_block_flagged (py_hash : fingerprint -> Z)
    (state : BlockchainState) (pre : list Block) (blk : Block) (post : list Block)
    (i j : nat) (tx1 tx2 : Transaction) :
  hash_respects_eq py_hash ->
  _check_token_symbols_unique state = true ->
  _check_wallets state = None ->
  _check_pools state = None ->
  _check_stakes state = None ->
  blocks state = pre ++ blk :: post ->
  chain_structure_ok (pre ++ [blk]) ->
  Forall (fields_ok state) pre ->
  len (txs blk) <= ELTT_MAX_TX_PER_BLOCK ->
  Forall (fun tx => tx_field_error state tx = None) (firstn (S j) (txs blk)) ->
  (i < j)%nat ->
  nth_error (txs blk) i = Some tx1 ->
  nth_error (txs blk) j = Some tx2 ->
  same_fields tx1 tx2 ->
  validate_blockchain py_hash (Some state) = TX_REPLAY_DUPLICATE_IN_BLOCK.
Proof.
  intros Hh Hs Hw Hp Hk Hb Hc Hf Hlen Hfj Hij H1 H2 Hsame.
  unfold validate_blockchain. rewrite Hs, Hw, Hp, Hk. cbn [negb].
  rewrite (check_chain_reaches py_hash state pre blk post Hb Hc Hf); [reflexivity|].
  apply (block_replay py_hash state blk i j tx1 tx2); try assumption.
  now apply same_fields_same_hash.
Qed.

Lemma C8_witness :
  validate_blockchain demo_hash (Some snapshot_replay) = TX_REPLAY_DUPLICATE_IN_BLOCK.
Proof.
  apply (C8_duplicate_in_block_flagged demo_hash snapshot_replay []
           (mkBlock 0 10 zero_hash [x01]
              [pay; mkTransaction "bob" "alice" 1 0 TRANSFER "" 2; pay;
               mkTransaction "bob" "alice" 1 9 TRANSFER "" 3])
           [mkBlock 5 3 [] [] []] 0 2 pay pay);
    try reflexivity.
  - exact demo_hash_respects_eq.
  - split; [reflexivity | exact I].
  - constructor.
  - vm_compute. discriminate.
  - repeat constructor.
  - lia.
  - repeat split; try reflexivity. left. reflexivity.
Defined.

Lemma validate_range (py_hash : fingerprint -> Z) (state : BlockchainState) :
  In (validate_blockchain py_hash (Some state))
     [OK; TOKEN_SYMBOL_DUPLICATE; WALLET_ADDRESS_INVALID; TX_TOKEN_INDEX_INVALID;
      WALLET_BALANCE_NEGATIVE; POOL_INDEX_INVALID; POOL_RESERVE_NEGATIVE;
      STAKE_OWNER_INVALID; STAKE_AMOUNT_NEGATIVE; STAKE_TIME_INCONSISTENT;
      NO_BLOCKS; GENESIS_PREV_HASH; BLOCK_INDEX_SEQUENCE; BLOCK_PREV_HASH_MISMATCH;
      TIMESTAMP_NON_MONOTONIC; UNKNOWN; TX_AMOUNT_NEGATIVE; TX_KIND_INVALID;
      TX_REPLAY_DUPLICATE_IN_BLOCK].
Proof.
  unfold validate_blockchain.
  destruct (negb (_check_token_symbols_unique state)); [simpl; tauto|].
  destruct (_check_wallets state) as [e|] eqn:Ew.
  { apply check_wallets_range in Ew. simpl in *. tauto. }
  destruct (_check_pools state) as [e|] eqn:Ep.
  { apply check_pools_range in Ep. simpl in *. tauto. }
  destruct (_check_stakes state) as [e|] eqn:Es.
  { apply check_stakes_range in Es. simpl in *. tauto. }
  destruct (_check_chain py_hash state) as [e|] eqn:Ec.
  { apply check_chain_range in Ec. simpl in *. tauto. }
  simpl. tauto.
Qed.

Lemma validate_ok_iff (py_hash : fingerprint -> Z) (state : BlockchainState) :
  validate_blockchain py_hash (Some state) = OK <-> consistent py_hash state.
Proof.
  unfold consistent. rewrite <- check_chain_none. unfold validate_blockchain. split.
  - destruct (_check_token_symbols_unique state); cbn [negb]; [|discriminate].
    destruct (_check_wallets state) as [e|] eqn:Ew.
    { intros ->. apply check_wallets_range in Ew. simpl in Ew.
      intuition discriminate. }
    destruct (_check_pools state) as [e|] eqn:Ep.
    { intros ->. apply check_pools_range in Ep. simpl in Ep.
      intuition discriminate. }
    destruct (_check_stakes state) as [e|] eqn:Es.
    { intros ->. apply check_stakes_range in Es. simpl in Es.
      intuition discriminate. }
    destruct (_check_chain py_hash state) as [e|] eqn:Ec.
    { intros ->. apply check_chain_range in Ec. simpl in Ec.
      intuition discriminate. }
    auto.
  - intros (-> & -> & -> & -> & ->). reflexivity.
Qed.

(** *** Relabelling the stored hashes *)

Lemma check_txs_relabel (py_hash : fingerprint -> Z) (phi : bytes -> bytes)
    (state : BlockchainState) (l : list Transaction) (seen : list Z) :
  check_txs py_hash (relabel phi state) seen l = check_txs py_hash state seen l.
Proof.
  revert seen; induction l as [|tx l IH]; intro seen; [reflexivity|].
  cbn [check_txs].
  change (tx_field_error (relabel phi state) tx) with (tx_field_error state tx).
  destruct (tx_field_error state tx); [reflexivity|].
  destruct (existsb _ seen); [reflexivity | apply IH].
Qed.

Lemma block_check_relabel (py_hash : fingerprint -> Z) (phi : bytes -> bytes)
    (state : BlockchainState) (first : bool) (b : Block) :
  _check_block_transactions py_hash (relabel phi state) (relabel_block phi first b) =
  _check_block_transactions py_hash state b.
Proof.
  unfold _check_block_transactions. cbn [txs relabel_block].
  now rewrite check_txs_relabel.
Qed.

Lemma bytes_eqb_injective (phi : bytes -> bytes) (a b : bytes) :
  (forall x y, phi x = phi y -> x = y) ->
  bytes_eqb (phi a) (phi b) = bytes_eqb a b.
Proof.
  intro Hinj. destruct (bytes_eqb a b) eqn:E.
  - apply bytes_eqb_eq in E. subst. now apply bytes_eqb_eq.
  - apply bytes_eqb_neq in E. apply bytes_eqb_neq. intro H. apply E. now apply Hinj.
Qed.

Lemma chain_loop_relabel (py_hash : fingerprint -> Z) (phi : bytes -> bytes)
    (state : BlockchainState) (first : bool) (p : Block) (ts : Z) (l : list Block) :
  (forall x y, phi x = phi y -> x = y) ->
  chain_loop py_hash (relabel phi state) (Some (relabel_block phi first p)) ts
    (map (relabel_block phi false) l) =
  chain_loop py_hash state (Some p) ts l.
Proof.
  intro Hinj. revert first p ts; induction l as [|blk l IH]; intros first p ts;
    [reflexivity|].
  cbn [map chain_loop]. rewrite block_check_relabel.
  cbn [index prev_hash hash timestamp relabel_block].
  rewrite (bytes_eqb_injective phi _ _ Hinj).
  destruct (negb (index blk =? index p + 1)); [reflexivity|].
  destruct (negb (bytes_eqb (prev_hash blk) (hash p))); [reflexivity|].
  destruct (true && (timestamp blk <? ts)); [reflexivity|].
  destruct (_check_block_transactions py_hash state blk); [reflexivity|].
  apply IH.
Qed.

Lemma validate_relabel (py_hash : fingerprint -> Z) (phi : bytes -> bytes)
    (state : BlockchainState) :
  (forall x y, phi x = phi y -> x = y) ->
  validate_blockchain py_hash (Some (relabel phi state)) =
  validate_blockchain py_hash (Some state).
Proof.
  intro Hinj. unfold validate_blockchain.
  change (_check_token_symbols_unique (relabel phi state))
    with (_check_token_symbols_unique state).
  change (_check_wallets (relabel phi state)) with (_check_wallets state).
  change (_check_pools (relabel phi state)) with (_check_pools state).
  change (_check_stakes (relabel phi state)) with (_check_stakes state).
  assert (Hc : _check_chain py_hash (relabel phi state) = _check_chain py_hash state).
  { unfold _check_chain. cbn [blocks relabel].
    destruct (blocks state) as [|g r]; [reflexivity|].
    cbn [relabel_chain]. rewrite !chain_loop_first, block_check_relabel.
    cbn [prev_hash timestamp relabel_block].
    destruct (negb (bytes_eqb (prev_hash g) zero_hash)); [reflexivity|].
    destruct (_check_block_transactions py_hash state g); [reflexivity|].
    now apply chain_loop_relabel. }
  now rewrite Hc.
Qed.

Lemma obscure_injective (x y : bytes) : obscure x = obscure y -> x = y.
Proof. unfold obscure. apply app_inv_tail. Qed.

Lemma obscured_hash_incorrect (first : bool) (b : Block) :
  stored_hash_correct (relabel_block obscure first b) = false.
Proof.
  unfold stored_hash_correct, recomputed_hash, Ledger.compute_block_hash.
  destruct (Ledger._serialize_block_header _) as [h|e]; cbn [rbind]; [|reflexivity].
  apply bytes_eqb_neq. intro E. apply (f_equal (@List.length byte)) in E.
  rewrite length_sha256 in E. cbn [hash relabel_block] in E. unfold obscure in E.
  rewrite length_app, repeat_length in E. lia.
Qed.

Lemma obscured_chain_incorrect (state : BlockchainState) :
  Forall (fun b => stored_hash_correct b = false) (blocks (relabel obscure state)).
Proof.
  cbn [blocks relabel]. destruct (blocks state) as [|g r]; cbn [relabel_chain];
    [constructor|].
  constructor; [apply obscured_hash_incorrect|].
  apply Forall_forall. intros b Hb. apply in_map_iff in Hb as (b0 & <- & _).
  apply obscured_hash_incorrect.
Qed.

(** Claim C9.  [validate_blockchain] never returns BLOCK_HASH_MISMATCH.  It
    returns OK exactly when the token, wallet, pool and stake checks pass, the
    chain is not empty, the first previous-hash is all zero, every later block
    continues its predecessor (index, previous-hash against the stored hash,
    timestamp), and every block passes the transaction checks: whether a
    stored hash is the SHA-256 of its header is no part of this.  Replacing
    every stored hash, together with the previous-hash fields that refer to
    it, by a value that no digest can equal leaves the verdict unchanged; and
    a concrete two-block snapshot whose stored hashes are both wrong is
    reported OK. *)
Theorem C9_validator_ignores_stored_hashes :
  (forall (py_hash : fingerprint -> Z) (state : option BlockchainState),
     validate_blockchain py_hash state <> BLOCK_HASH_MISMATCH) /\
  (forall (py_hash : fingerprint -> Z) (state : BlockchainState),
     validate_blockchain py_hash (Some state) = OK <-> consistent py_hash state) /\
  (forall (py_hash : fingerprint -> Z) (state : BlockchainState),
     validate_blockchain py_hash (Some (relabel obscure state)) =
       validate_blockchain py_hash (Some state) /\
     Forall (fun b => stored_hash_correct b = false)
            (blocks (relabel obscure state))) /\
  (Forall (fun b => stored_hash_correct b = false) (blocks snapshot_wrong_hashes) /\
   validate_blockchain demo_hash (Some snapshot_wrong_hashes) = OK).
Proof.
  split.
  { intros py_hash [state|]; [|discriminate].
    pose proof (validate_range py_hash state) as H. intro E. rewrite E in H.
    simpl in H. intuition discriminate. }
  split; [exact validate_ok_iff|]. split.
  { intros py_hash state. split;
      [apply validate_relabel; exact obscure_injective
      | apply obscured_chain_incorrect]. }
  split; [|vm_compute; reflexivity].
  constructor; [vm_compute; reflexivity|].
  constructor; [vm_compute; reflexivity | constructor].
Qed.

Lemma C9_witness :
  validate_blockchain demo_hash (Some snapshot_wrong_hashes) = OK.
Proof.
  apply (proj1 (proj2 C9_validator_ignores_stored_hashes) demo_hash
           snapshot_wrong_hashes).
  unfold consistent. do 4 (split; [reflexivity|]).
  split.
  { simpl. repeat split; lia. }
  split.
  { repeat constructor; vm_compute; discriminate. }
  repeat constructor; simpl; tauto.
Defined.

End ValidatorVerdicts.

(** ** Wallet lookup and creation *)

Section Lookup.
Import Ledger.

Lemma find_from_missing (ws : list Wallet) (a : string) (i : Z) :
  0 <= i -> (find_from ws a i = -1 <-> ~ In a (map address ws)).
Proof.
  revert i; induction ws as [|w r IH]; intros i Hi; cbn [find_from map In].
  - tauto.
  - destruct (String.eqb (address w) a) eqn:E.
    + apply String.eqb_eq in E. split; [lia | intros H; exfalso; apply H; auto].
    + apply String.eqb_neq in E. rewrite IH by lia.
      split; intros H; [intros [?|?]; [congruence|tauto] | intros ?; apply H; auto].
Qed.

Lemma find_from_hit (ws : list Wallet) (a : string) (i : Z) :
  find_from ws a i <> -1 ->
  exists k w,
    find_from ws a i = i + Z.of_nat k /\ nth_error ws k = Some w /\ address w = a /\
    forall j w', (j < k)%nat -> nth_error ws j = Some w' -> address w' <> a.
Proof.
  revert i; induction ws as [|w r IH]; intros i; cbn [find_from].
  - congruence.
  - destruct (String.eqb (address w) a) eqn:E.
    + intros _. exists 0%nat, w. apply String.eqb_eq in E.
      split; [lia|]. split; [reflexivity|]. split; [exact E|]. intros j w' Hj; lia.
    + intros H. destruct (IH (i + 1) H) as (k & w0 & Hk & Hn & Ha & Hfirst).
      exists (S k), w0. split; [lia|]. split; [exact Hn|]. split; [exact Ha|].
      intros [|j] w' Hj Hw'; cbn [nth_error] in Hw'.
      * injection Hw' as <-. now apply String.eqb_neq.
      * apply (Hfirst j); [lia | exact Hw'].
Qed.

Lemma find_from_app_missing (ws ws' : list Wallet) (a : string) (i : Z) :
  0 <= i -> find_from ws a i = -1 ->
  find_from (ws ++ ws') a i = find_from ws' a (i + len ws).
Proof.
  revert i; induction ws as [|w r IH]; intros i Hi; cbn [find_from app].
  - intros _. f_equal. unfold len. cbn. lia.
  - destruct (String.eqb (address w) a); [lia|].
    intros H. rewrite IH by (lia || exact H). f_equal. unfold len.
    change (List.length (w :: r)) with (S (List.length r)). lia.
Qed.

Lemma find_from_app_hit (ws ws' : list Wallet) (a : string) (i : Z) :
  find_from ws a i <> -1 -> find_from (ws ++ ws') a i = find_from ws a i.
Proof.
  revert i; induction ws as [|w r IH]; intros i; cbn [find_from app].
  - congruence.
  - destruct (String.eqb (address w) a); [reflexivity|]. apply IH.
Qed.

Lemma find_from_nonneg (ws : list Wallet) (a : string) :
  find_from ws a 0 = -1 \/ 0 <= find_from ws a 0 < len ws.
Proof. pose proof (find_from_range ws a 0). lia. Qed.

(** Property X1.  [_find_wallet_index] returns [-1] exactly when no wallet of the
    registry has the address; otherwise it returns the position of the first
    wallet with that address. *)
Theorem find_wallet_index_first_match (bc : Blockchain) (a : string) :
  (_find_wallet_index bc a = -1 <-> ~ In a (map address (wallets bc))) /\
  (_find_wallet_index bc a = -1 \/
   exists k w,
     _find_wallet_index bc a = Z.of_nat k /\
     nth_error (wallets bc) k = Some w /\ address w = a /\
     forall j w', (j < k)%nat -> nth_error (wallets bc) j = Some w' -> address w' <> a).
Proof.
  unfold _find_wallet_index. split.
  - apply find_from_missing. lia.
  - destruct (Z.eq_dec (find_from (wallets bc) a 0) (-1)) as [E|E]; [left; exact E|].
    right. destruct (find_from_hit _ _ 0 E) as (k & w & Hk & Hrest).
    exists k, w. split; [lia | exact Hrest].
Qed.

Lemma find_or_create_cases (a : string) (bc : Blockchain) :
  (0 <= _find_wallet_index bc a /\
   _find_or_create_wallet a bc = (Ok (_find_wallet_index bc a), bc)) \/
  (_find_wallet_index bc a = -1 /\ ELTT_MAX_WALLETS <= len (wallets bc) /\
   _find_or_create_wallet a bc = (Ok (-1), bc)) \/
  (_find_wallet_index bc a = -1 /\ len (wallets bc) < ELTT_MAX_WALLETS /\
   _find_or_create_wallet a bc =
     (Ok (len (wallets bc)),
      set_wallets bc (wallets bc ++ [ChainSpec.fresh_wallet bc a]))).
Proof.
  destruct (find_from_nonneg (wallets bc) a) as [E|E];
    fold (_find_wallet_index bc a) in E.
  - right. destruct (Z_lt_le_dec (len (wallets bc)) ELTT_MAX_WALLETS) as [R|R].
    + right. split; [exact E|]. split; [exact R|].
      rewrite (find_or_create_missing _ _ E). apply add_wallet_room. exact R.
    + left. split; [exact E|]. split; [exact R|].
      rewrite (find_or_create_missing _ _ E). apply add_wallet_full. exact R.
  - left. split; [lia|]. apply find_or_create_found. lia.
Qed.

Lemma find_after_create (a : string) (bc : Blockchain) (w : Wallet) :
  _find_wallet_index bc a = -1 -> address w = a ->
  _find_wallet_index (set_wallets bc (wallets bc ++ [w])) a = len (wallets bc).
Proof.
  intros E Ha. unfold _find_wallet_index in *. cbn [wallets set_wallets].
  rewrite find_from_app_missing by (lia || exact E).
  cbn [find_from]. rewrite Ha, String.eqb_refl. lia.
Qed.

(** Property X2.  [_find_or_create_wallet] never raises.  It returns [-1] exactly
    when the address is unknown and the registry is at capacity, and then
    changes nothing.  Otherwise the index it returns is the one a lookup of
    the address gives afterwards, the wallet there has the address, a second
    call returns the same index without a further change, a known address
    leaves the state as it was, and an unknown one appends a single wallet
    with one zero balance per token type. *)
Theorem find_or_create_lookup_round_trip (a : string) (bc : Blockchain) :
  exists i bc1,
    _find_or_create_wallet a bc = (Ok i, bc1) /\
    (i = -1 <->
     _find_wallet_index bc a = -1 /\ ELTT_MAX_WALLETS <= len (wallets bc)) /\
    (i = -1 -> bc1 = bc) /\
    (_find_wallet_index bc a <> -1 -> bc1 = bc) /\
    (i <> -1 ->
     _find_wallet_index bc1 a = i /\
     _find_or_create_wallet a bc1 = (Ok i, bc1) /\
     exists w, nth_error (wallets bc1) (Z.to_nat i) = Some w /\ address w = a) /\
    (_find_wallet_index bc a = -1 -> len (wallets bc) < ELTT_MAX_WALLETS ->
     i = len (wallets bc) /\
     bc1 = set_wallets bc (wallets bc ++ [ChainSpec.fresh_wallet bc a])).
Proof.
  destruct (find_or_create_cases a bc) as [[Hi E]|[(Hm & Hfull & E)|(Hm & Hroom & E)]].
  - exists (_find_wallet_index bc a), bc. split; [exact E|].
    split; [split; [lia | intros [? _]; lia]|].
    split; [reflexivity|]. split; [reflexivity|].
    split; [|intros; lia].
    intros _. split; [reflexivity|]. split; [exact E|].
    assert (Hne : find_from (wallets bc) a 0 <> -1) by (unfold _find_wallet_index in Hi; lia).
    destruct (find_from_hit _ _ 0 Hne) as (k & w & Hk & Hn & Ha & _).
    exists w. unfold _find_wallet_index. rewrite Hk.
    replace (Z.to_nat (0 + Z.of_nat k)) with k by lia. split; assumption.
  - exists (-1), bc. split; [exact E|].
    split; [split; [intros _; split; assumption | reflexivity]|].
    split; [reflexivity|]. split; [reflexivity|].
    split; [intros H; now elim H | intros; lia].
  - exists (len (wallets bc)),
      (set_wallets bc (wallets bc ++ [ChainSpec.fresh_wallet bc a])).
    assert (Hlen : 0 <= len (wallets bc)) by (unfold len; lia).
    split; [exact E|].
    split; [split; [lia | intros [_ ?]; lia]|].
    split; [intros; lia|]. split; [intros; congruence|].
    assert (Hfind : _find_wallet_index
                      (set_wallets bc (wallets bc ++ [ChainSpec.fresh_wallet bc a])) a =
                    len (wallets bc))
      by (apply find_after_create; [exact Hm | reflexivity]).
    split; [|intros; split; reflexivity].
    intros _. split; [exact Hfind|].
    split.
    + pose proof (find_or_create_found a _ (eq_ind_r (fun z => 0 <= z) Hlen Hfind)) as F.
      rewrite Hfind in F. exact F.
    + exists (ChainSpec.fresh_wallet bc a). split; [|reflexivity].
      cbn [wallets set_wallets]. unfold len. rewrite Nat2Z.id.
      rewrite nth_error_app2 by lia. now rewrite Nat.sub_diag.
Qed.

End Lookup.

(** ** What the applier keeps of the aggregate *)

Section ApplierSafety.
Import Ledger.

Lemma registry_step_refl (bc : Blockchain) : ChainSpec.registry_step bc bc.
Proof.
  unfold ChainSpec.registry_step. repeat (split; [reflexivity|]).
  split; [exists []; now rewrite app_nil_r|]. tauto.
Qed.

Lemma registry_step_trans (bc1 bc2 bc3 : Blockchain) :
  ChainSpec.registry_step bc1 bc2 -> ChainSpec.registry_step bc2 bc3 ->
  ChainSpec.registry_step bc1 bc3.
Proof.
  intros (B1 & T1 & P1 & S1 & [a1 A1] & L1 & U1 & Y1)
         (B2 & T2 & P2 & S2 & [a2 A2] & L2 & U2 & Y2).
  unfold ChainSpec.registry_step.
  split; [congruence|]. split; [congruence|]. split; [congruence|].
  split; [congruence|].
  split; [exists (a1 ++ a2); rewrite A2, A1; now rewrite app_assoc|].
  split; [auto|]. split; auto.
Qed.

Lemma distinct_app_fresh (l : list string) (a : string) :
  ~ In a l -> Spec.distinct l = true -> Spec.distinct (l ++ [a]) = true.
Proof.
  induction l as [|x r IH]; intros Hin Hd.
  - reflexivity.
  - cbn [Spec.distinct app] in *. apply andb_true_iff in Hd as [Hx Hr].
    apply andb_true_iff. split.
    + rewrite existsb_app. cbn [existsb]. rewrite orb_false_r.
      apply negb_true_iff in Hx. rewrite Hx. cbn [orb].
      apply negb_true_iff. apply String.eqb_neq. intros ->. apply Hin. now left.
    + apply IH; [|exact Hr]. intros H. apply Hin. now right.
Qed.

Lemma fresh_wallet_synced (bc : Blockchain) (a : string) :
  ChainSpec.wallet_synced (token_types bc) (ChainSpec.fresh_wallet bc a).
Proof.
  unfold ChainSpec.wallet_synced, ChainSpec.fresh_wallet. cbn [tokens token_count balances].
  split; [reflexivity|]. split; [reflexivity|]. apply repeat_length.
Qed.

Lemma step_add_wallet (bc : Blockchain) (a : string) :
  _find_wallet_index bc a = -1 ->
  ChainSpec.registry_step bc
    (set_wallets bc (wallets bc ++ [ChainSpec.fresh_wallet bc a])).
Proof.
  intros Hm. unfold ChainSpec.registry_step.
  cbn [blocks token_types pools stakes wallets set_wallets].
  repeat (split; [reflexivity|]).
  split; [exists [a]; now rewrite map_app|].
  split; [|split].
  - unfold Spec.balances_aligned. cbn [wallets token_types set_wallets].
    intros H. rewrite forallb_app, H. cbn [forallb ChainSpec.fresh_wallet balances andb].
    rewrite repeat_length, Nat.eqb_refl. reflexivity.
  - unfold Spec.addresses_unique. cbn [wallets set_wallets].
    rewrite map_app. cbn [map ChainSpec.fresh_wallet address].
    apply distinct_app_fresh. apply find_from_missing with (i := 0); [lia | exact Hm].
  - unfold ChainSpec.registry_synced. cbn [wallets token_types set_wallets].
    intros H. apply Forall_app. split; [exact H|].
    constructor; [apply fresh_wallet_synced | constructor].
Qed.

Lemma Forall_set_nth {A : Type} (P : A -> Prop) (l : list A) (k : nat) (v : A) :
  Forall P l -> P v -> Forall P (set_nth l k v).
Proof.
  revert k; induction l as [|x r IH]; intros k Hl Hv; [destruct k; constructor|].
  inversion Hl; subst. destruct k; cbn [set_nth]; constructor; auto.
Qed.

Lemma forallb_set_nth {A : Type} (p : A -> bool) (l : list A) (k : nat) (v : A) :
  forallb p l = true -> p v = true -> forallb p (set_nth l k v) = true.
Proof.
  revert k; induction l as [|x r IH]; intros k Hl Hv; [destruct k; reflexivity|].
  cbn [forallb] in Hl. apply andb_true_iff in Hl as [Hx Hr].
  destruct k; cbn [set_nth forallb]; apply andb_true_iff; auto.
Qed.

Lemma step_set_wallet (bc : Blockchain) (k : nat) (w w' : Wallet) :
  nth_error (wallets bc) k = Some w ->
  address w' = address w -> tokens w' = tokens w ->
  token_count w' = token_count w ->
  List.length (balances w') = List.length (balances w) ->
  ChainSpec.registry_step bc (set_wallets bc (set_nth (wallets bc) k w')).
Proof.
  intros Hn Ha Ht Hc Hl. unfold ChainSpec.registry_step.
  cbn [blocks token_types pools stakes wallets set_wallets].
  repeat (split; [reflexivity|]).
  pose proof (addresses_set_nth _ _ _ _ Hn Ha) as Haddr.
  split; [exists []; now rewrite app_nil_r|].
  split; [|split].
  - unfold Spec.balances_aligned. cbn [wallets token_types set_wallets].
    intros H. apply forallb_set_nth; [exact H|].
    rewrite Hl. apply Nat.eqb_eq.
    exact (aligned_wallet bc k w H Hn).
  - unfold Spec.addresses_unique. cbn [wallets set_wallets]. now rewrite Haddr.
  - unfold ChainSpec.registry_synced. cbn [wallets token_types set_wallets].
    intros H. apply Forall_set_nth; [exact H|].
    assert (Hw : ChainSpec.wallet_synced (token_types bc) w).
    { rewrite Forall_forall in H. apply H. eapply nth_error_In; eauto. }
    unfold ChainSpec.wallet_synced in *. rewrite Ht, Hc, Hl. exact Hw.
Qed.

Lemma getitem_inv {A : Type} (l : list A) (i : Z) (a : A) :
  getitem l i = Ok a -> exists k, Py.index l i = Some k /\ nth_error l k = Some a.
Proof.
  unfold getitem. destruct (Py.index l i) as [k|]; [|discriminate].
  destruct (nth_error l k) eqn:E; [|discriminate].
  intros [= ->]. eauto.
Qed.

Lemma update_balance_frame (op : float -> float -> float) (widx tidx : Z) (amt : float)
    (bc bc' : Blockchain) (r : result unit) :
  update_balance op widx tidx amt bc = (r, bc') -> ChainSpec.registry_step bc bc'.
Proof.
  unfold update_balance, bind, get, lift, put.
  destruct (getitem (wallets bc) widx) as [w|e] eqn:Hw;
    [|intros [= _ <-]; apply registry_step_refl].
  destruct (getitem (balances w) tidx) as [b|e] eqn:Hb;
    [|intros [= _ <-]; apply registry_step_refl].
  destruct (setitem (balances w) tidx (op b amt)) as [bs|e] eqn:Hbs;
    [|intros [= _ <-]; apply registry_step_refl].
  destruct (getitem_inv _ _ _ Hw) as (k & Hk & Hn).
  unfold setitem in *. rewrite Hk.
  destruct (Py.index (balances w) tidx) as [j|]; [|discriminate].
  injection Hbs as <-. intros [= _ <-].
  apply (step_set_wallet bc k w); try reflexivity; [exact Hn|].
  cbn [set_balances balances]. apply length_set_nth.
Qed.

Lemma find_or_create_step (a : string) (bc : Blockchain) :
  exists i bc1,
    _find_or_create_wallet a bc = (Ok i, bc1) /\
    ChainSpec.registry_step bc bc1 /\ ChainSpec.designates bc1 i.
Proof.
  assert (Hlen : 0 <= len (wallets bc)) by (unfold len; lia).
  destruct (find_or_create_cases a bc) as [[Hi E]|[(Hm & Hfull & E)|(Hm & Hroom & E)]].
  - exists (_find_wallet_index bc a), bc. split; [exact E|].
    split; [apply registry_step_refl|]. left.
    destruct (find_from_nonneg (wallets bc) a) as [F|F];
      unfold _find_wallet_index in *; lia.
  - exists (-1), bc. split; [exact E|]. split; [apply registry_step_refl|].
    right. unfold ELTT_MAX_WALLETS in Hfull. lia.
  - eexists _, _. split; [exact E|]. split; [now apply step_add_wallet|].
    left. cbn [wallets set_wallets]. unfold len in *. rewrite length_app.
    cbn [List.length]. lia.
Qed.

Lemma designates_step (bc bc' : Blockchain) (i : Z) :
  ChainSpec.registry_step bc bc' -> ChainSpec.designates bc i ->
  ChainSpec.designates bc' i.
Proof.
  intros (_ & _ & _ & _ & [added Ha] & _) H.
  assert (Hl : len (wallets bc) <= len (wallets bc')).
  { apply (f_equal (@List.length string)) in Ha.
    rewrite length_app, !length_map in Ha. unfold len. lia. }
  unfold ChainSpec.designates in *. lia.
Qed.

Lemma designates_index (bc : Blockchain) (i : Z) :
  ChainSpec.designates bc i ->
  exists k w, Py.index (wallets bc) i = Some k /\ nth_error (wallets bc) k = Some w.
Proof.
  intros [H|[-> H]].
  - destruct (getitem_in_range (wallets bc) i H) as (w & Hn & _).
    exists (Z.to_nat i), w. split; [|exact Hn]. apply index_nonneg. exact H.
  - assert (Hne : wallets bc <> []).
    { intros E. rewrite E in H. unfold len in H. cbn in H. lia. }
    exists (List.length (wallets bc) - 1)%nat.
    destruct (nth_error (wallets bc) (List.length (wallets bc) - 1)) as [w|] eqn:E.
    + exists w. split; [now apply index_last | reflexivity].
    + apply nth_error_None in E. unfold len in H. lia.
Qed.

Lemma update_balance_total (op : float -> float -> float) (widx tidx : Z) (amt : float)
    (bc : Blockchain) :
  Spec.balances_aligned bc = true ->
  0 <= tidx < len (token_types bc) ->
  ChainSpec.designates bc widx ->
  exists bc', update_balance op widx tidx amt bc = (Ok tt, bc').
Proof.
  intros Hal Ht Hd. destruct (designates_index bc widx Hd) as (k & w & Hk & Hn).
  eexists. apply (update_balance_run op widx tidx amt bc k w Hk Hn).
  unfold len in *. rewrite (aligned_wallet bc k w Hal Hn). exact Ht.
Qed.

Lemma apply_transaction_frame (tx : Transaction) (bc bc' : Blockchain)
    (r : result unit) :
  _apply_transaction tx bc = (r, bc') -> ChainSpec.registry_step bc bc'.
Proof.
  unfold _apply_transaction, bind.
  destruct (find_or_create_step (from_address tx) bc) as (fi & bc1 & -> & S1 & _).
  destruct (find_or_create_step (to_address tx) bc1) as (ti & bc2 & -> & S2 & _).
  pose proof (registry_step_trans _ _ _ S1 S2) as S12.
  assert (Hret : forall u : unit, (Ok u, bc2) = (r, bc') -> ChainSpec.registry_step bc bc')
    by (intros u [= _ <-]; exact S12).
  assert (Hone : forall op i,
             update_balance op i (token_index tx) (amount tx) bc2 = (r, bc') ->
             ChainSpec.registry_step bc bc').
  { intros op i H. apply (registry_step_trans _ _ _ S12).
    exact (update_balance_frame _ _ _ _ _ _ _ H). }
  destruct (kind tx); unfold ret; try apply Hret;
    unfold isub_balance, iadd_balance; try apply Hone.
  all: destruct (update_balance PrimFloat.sub fi (token_index tx) (amount tx) bc2)
         as [[u|e] bc3] eqn:H3;
       [ intros H; apply (registry_step_trans _ _ _ S12);
         apply (registry_step_trans _ bc3);
         [ exact (update_balance_frame _ _ _ _ _ _ _ H3)
         | exact (update_balance_frame _ _ _ _ _ _ _ H) ]
       | intros [= _ <-]; apply (registry_step_trans _ _ _ S12);
         exact (update_balance_frame _ _ _ _ _ _ _ H3) ].
Qed.

Lemma apply_transaction_total (tx : Transaction) (bc : Blockchain) :
  Spec.balances_aligned bc = true ->
  0 <= token_index tx < len (token_types bc) ->
  exists bc', _apply_transaction tx bc = (Ok tt, bc').
Proof.
  intros Hal Ht. unfold _apply_transaction, bind.
  destruct (find_or_create_step (from_address tx) bc) as (fi & bc1 & -> & S1 & D1).
  destruct (find_or_create_step (to_address tx) bc1) as (ti & bc2 & -> & S2 & D2).
  pose proof (designates_step _ _ _ S2 D1) as D1'.
  pose proof (registry_step_trans _ _ _ S1 S2) as S12.
  assert (Hal2 : Spec.balances_aligned bc2 = true) by (apply S12; exact Hal).
  assert (Ht2 : 0 <= token_index tx < len (token_types bc2)).
  { destruct S12 as (_ & -> & _). exact Ht. }
  assert (Hmove : exists bc',
             (isub_balance fi (token_index tx) (amount tx) ;;;
              iadd_balance ti (token_index tx) (amount tx)) bc2 = (Ok tt, bc')).
  { unfold bind, isub_balance, iadd_balance.
    destruct (update_balance_total PrimFloat.sub fi _ (amount tx) bc2 Hal2 Ht2 D1')
      as [bc3 H3].
    rewrite H3. pose proof (update_balance_frame _ _ _ _ _ _ _ H3) as S3.
    apply update_balance_total.
    - apply S3; exact Hal2.
    - destruct S3 as (_ & -> & _). exact Ht2.
    - exact (designates_step _ _ _ S3 D2). }
  destruct (kind tx); try exact Hmove; try (eexists; reflexivity).
  - now apply update_balance_total.
  - now apply update_balance_total.
Qed.

Lemma apply_all_frame (l : list Transaction) (bc bc' : Blockchain) (r : result unit) :
  apply_all l bc = (r, bc') -> ChainSpec.registry_step bc bc'.
Proof.
  revert bc; induction l as [|tx l IH]; intros bc; cbn [apply_all].
  - intros [= _ <-]. apply registry_step_refl.
  - unfold bind. destruct (_apply_transaction tx bc) as [[u|e] bc1] eqn:E.
    + intros H. apply (registry_step_trans _ bc1); [|exact (IH _ H)].
      exact (apply_transaction_frame _ _ _ _ E).
    + intros [= _ <-]. exact (apply_transaction_frame _ _ _ _ E).
Qed.

Lemma apply_all_total (l : list Transaction) (bc : Blockchain) :
  Spec.balances_aligned bc = true ->
  Forall (fun tx => 0 <= token_index tx < len (token_types bc)) l ->
  exists bc', apply_all l bc = (Ok tt, bc').
Proof.
  revert bc; induction l as [|tx l IH]; intros bc Hal Hl; cbn [apply_all].
  - eexists; reflexivity.
  - inversion Hl as [|? ? H1 H2]; subst. unfold bind.
    destruct (apply_transaction_total tx bc Hal H1) as [bc1 E]. rewrite E.
    pose proof (apply_transaction_frame _ _ _ _ E) as S1.
    apply IH; [apply S1; exact Hal|].
    destruct S1 as (_ & -> & _). exact H2.
Qed.

(** Property X3.  On a registry whose balance vectors are aligned with the token
    types, applying a transaction whose token index exists never raises,
    whatever its kind, its amount and its addresses, and whether or not it
    was validated.  Blocks, token types, pools and stakes are untouched, the
    wallets keep their positions and addresses (new ones are appended), and
    alignment and uniqueness of addresses are kept. *)
Theorem apply_transaction_never_raises (tx : Transaction) (bc : Blockchain) :
  Spec.balances_aligned bc = true ->
  0 <= token_index tx < len (token_types bc) ->
  exists bc',
    _apply_transaction tx bc = (Ok tt, bc') /\
    blocks bc' = blocks bc /\ token_types bc' = token_types bc /\
    pools bc' = pools bc /\ stakes bc' = stakes bc /\
    (exists added, map address (wallets bc') = map address (wallets bc) ++ added) /\
    Spec.balances_aligned bc' = true /\
    (Spec.addresses_unique bc = true -> Spec.addresses_unique bc' = true).
Proof.
  intros Hal Ht. destruct (apply_transaction_total tx bc Hal Ht) as [bc' E].
  exists bc'. split; [exact E|].
  destruct (apply_transaction_frame _ _ _ _ E) as (B & T & P & S & A & L & U & _).
  repeat (split; [assumption|]). split; [auto | exact U].
Qed.

Lemma apply_transaction_never_raises_witness :
  exists bc',
    _apply_transaction (mkTransaction "zoe" "bob" 7 0 BURN "") Scenario.registry2 =
      (Ok tt, bc') /\
    blocks bc' = blocks Scenario.registry2 /\
    token_types bc' = token_types Scenario.registry2 /\
    pools bc' = pools Scenario.registry2 /\ stakes bc' = stakes Scenario.registry2 /\
    (exists added,
       map address (wallets bc') = map address (wallets Scenario.registry2) ++ added) /\
    Spec.balances_aligned bc' = true /\
    (Spec.addresses_unique Scenario.registry2 = true ->
     Spec.addresses_unique bc' = true).
Proof.
  apply (apply_transaction_never_raises (mkTransaction "zoe" "bob" 7 0 BURN "")
           Scenario.registry2).
  - reflexivity.
  - cbn. lia.
Defined.

Lemma validate_all_in_range (bc : Blockchain) (l : list Transaction) :
  validate_all bc l = Ok true ->
  Forall (fun tx => 0 <= token_index tx < len (token_types bc)) l.
Proof.
  intros H. apply validate_all_accepts in H.
  eapply Forall_impl; [|exact H]. cbv beta. intros tx Htx.
  unfold _validate_transaction in Htx.
  destruct ((token_index tx <? 0) || (len (token_types bc) <=? token_index tx)) eqn:E;
    [discriminate|].
  apply orb_false_iff in E as [E1 E2]. lia.
Qed.

Lemma validate_block_parts (bc : Blockchain) (block : Block) :
  _validate_block bc block = Ok true ->
  check_linkage bc block = Ok true /\
  compute_block_hash block = Ok (hash block) /\
  validate_all bc (txs block) = Ok true.
Proof.
  unfold _validate_block. rewrite tmp_block_hash.
  destruct (check_linkage bc block) as [[|]|e]; cbn [rbind negb]; try discriminate.
  destruct (compute_block_hash block) as [h|e]; cbn [rbind]; [|discriminate].
  destruct (bytes_eqb h (hash block)) eqn:E; cbn [negb]; [|discriminate].
  apply bytes_eqb_eq in E. subst h. auto.
Qed.

Lemma validate_block_total (bc : Blockchain) (block : Block) :
  Spec.balances_aligned bc = true -> Spec.header_in_range block = true ->
  exists ok, _validate_block bc block = Ok ok.
Proof.
  intros Hal Hr. unfold _validate_block. rewrite tmp_block_hash.
  destruct (check_linkage_total bc block) as [[|] ->]; cbn [rbind negb];
    [|eexists; reflexivity].
  destruct (header_in_range_serializes block Hr) as [h Hh].
  unfold compute_block_hash. rewrite Hh. cbn [rbind].
  destruct (negb _); [eexists; reflexivity|].
  induction (txs block) as [|tx l IH]; cbn [validate_all]; [eexists; reflexivity|].
  destruct (validate_transaction_total bc tx Hal) as [[|] ->]; cbn [rbind negb];
    [exact IH | eexists; reflexivity].
Qed.

(** Property X4.  On a registry whose balance vectors are aligned, [append_block]
    never raises for a block whose header fields fit their packed widths: it
    returns [False] and leaves the state as it was, or it returns [True],
    and then the block is the new last block, token types, pools and stakes
    are untouched, the wallets keep their positions and addresses (new ones
    are appended), and alignment and uniqueness of addresses are kept. *)
Theorem append_block_never_raises (bc : Blockchain) (block : Block) :
  Spec.balances_aligned bc = true ->
  Spec.header_in_range block = true ->
  exists ok bc',
    append_block block bc = (Ok ok, bc') /\
    (ok = false -> bc' = bc) /\
    (ok = true ->
     blocks bc' = blocks bc ++ [block] /\
     token_types bc' = token_types bc /\
     pools bc' = pools bc /\ stakes bc' = stakes bc /\
     (exists added, map address (wallets bc') = map address (wallets bc) ++ added) /\
     Spec.balances_aligned bc' = true /\
     (Spec.addresses_unique bc = true -> Spec.addresses_unique bc' = true)).
Proof.
  intros Hal Hr. destruct (validate_block_total bc block Hal Hr) as [[|] Hv].
  - destruct (validate_block_parts _ _ Hv) as (_ & _ & Hall).
    pose proof (validate_all_in_range _ _ Hall) as Hin.
    destruct (apply_all_total (txs block) (set_blocks bc (blocks bc ++ [block])) Hal Hin)
      as [bc' E].
    exists true, bc'. split.
    + unfold append_block, bind, get, lift, put, ret. rewrite Hv. cbn [negb].
      now rewrite E.
    + split; [discriminate|]. intros _.
      destruct (apply_all_frame _ _ _ _ E) as (B & T & P & S & A & L & U & _).
      cbn [blocks token_types pools stakes wallets set_blocks] in *.
      repeat (split; [assumption|]). split; [exact (L Hal) | exact U].
  - exists false, bc. split; [now apply append_rejected|].
    split; [reflexivity | discriminate].
Qed.

Lemma append_block_never_raises_witness :
  exists ok bc',
    append_block Scenario.block3 Scenario.chain3 = (Ok ok, bc') /\
    (ok = false -> bc' = Scenario.chain3) /\
    (ok = true ->
     blocks bc' = blocks Scenario.chain3 ++ [Scenario.block3] /\
     token_types bc' = token_types Scenario.chain3 /\
     pools bc' = pools Scenario.chain3 /\ stakes bc' = stakes Scenario.chain3 /\
     (exists added,
        map address (wallets bc') = map address (wallets Scenario.chain3) ++ added) /\
     Spec.balances_aligned bc' = true /\
     (Spec.addresses_unique Scenario.chain3 = true ->
      Spec.addresses_unique bc' = true)).
Proof.
  apply (append_block_never_raises Scenario.chain3 Scenario.block3);
    vm_compute; reflexivity.
Defined.

End ApplierSafety.

(** ** The list of blocks *)

Section ChainEngine.
Import Ledger.

Lemma getitem_last {A : Type} (l : list A) (d : A) :
  l <> [] -> getitem l (-1) = Ok (last l d).
Proof.
  intros Hne. destruct (exists_last Hne) as (l' & a & ->).
  unfold getitem. rewrite index_last by exact Hne.
  rewrite length_app. cbn [List.length].
  replace (List.length l' + 1 - 1)%nat with (List.length l') by lia.
  rewrite nth_error_app2 by lia. rewrite Nat.sub_diag. cbn [nth_error].
  now rewrite last_last.
Qed.

Lemma check_linkage_true (bc : Blockchain) (b : Block) :
  check_linkage bc b = Ok true ->
  ChainSpec.genesis_shaped b \/
  (blocks bc <> [] /\ ChainSpec.continues (last (blocks bc) b) b).
Proof.
  unfold check_linkage, ChainSpec.genesis_shaped, ChainSpec.continues.
  destruct (index b =? 0) eqn:E0.
  - destruct (bytes_eqb (prev_hash b) zero_hash) eqn:Ez; cbn [negb]; [|discriminate].
    intros _. left. apply Z.eqb_eq in E0. apply bytes_eqb_eq in Ez. auto.
  - destruct (blocks bc) as [|b0 r] eqn:Eb; [discriminate|].
    rewrite (getitem_last (b0 :: r) b) by discriminate. cbn [rbind].
    destruct (index b =? index (last (b0 :: r) b) + 1) eqn:Ei; cbn [negb];
      [|discriminate].
    destruct (bytes_eqb (prev_hash b) (hash (last (b0 :: r) b))) eqn:Eh; cbn [negb];
      [|discriminate].
    intros _. right. apply Z.eqb_eq in Ei. apply bytes_eqb_eq in Eh.
    split; [discriminate | auto].
Qed.

Lemma check_linkage_fields (bc : Blockchain) (b b' : Block) :
  index b' = index b -> prev_hash b' = prev_hash b ->
  check_linkage bc b' = check_linkage bc b.
Proof. intros Hi Hp. unfold check_linkage. now rewrite Hi, Hp. Qed.

Lemma last_default {A : Type} (l : list A) (d d' : A) :
  l <> [] -> last l d = last l d'.
Proof.
  induction l as [|x r IH]; [congruence|]. intros _.
  destruct r as [|y r']; [reflexivity|]. cbn [last] in *. apply IH. discriminate.
Qed.

Lemma chain_from_app (p b : Block) (l : list Block) :
  ChainSpec.chain_from p l ->
  ChainSpec.genesis_shaped b \/ ChainSpec.continues (last l p) b ->
  ChainSpec.chain_from p (l ++ [b]).
Proof.
  revert p; induction l as [|x r IH]; intros p Hl Hb.
  - cbn in *. auto.
  - destruct Hl as [Hx Hr]. cbn [app ChainSpec.chain_from]. split; [exact Hx|].
    apply IH; [exact Hr|]. destruct Hb as [Hb|Hb]; [now left|right].
    destruct r as [|y r']; [exact Hb|].
    rewrite (last_default (y :: r') x p) by discriminate. exact Hb.
Qed.

Lemma hash_correct_length (b : Block) :
  ChainSpec.hash_correct b -> List.length (hash b) = 32%nat.
Proof.
  unfold ChainSpec.hash_correct, compute_block_hash.
  destruct (_serialize_block_header b) as [h|e]; cbn [rbind]; [|discriminate].
  intros [= <-]. apply length_sha256.
Qed.

Lemma append_accepted_blocks (bc bc' : Blockchain) (block : Block) :
  append_block block bc = (Ok true, bc') ->
  _validate_block bc block = Ok true /\ blocks bc' = blocks bc ++ [block].
Proof.
  unfold append_block, bind, get, lift, put, ret. intro H.
  destruct (_validate_block bc block) as [[|]|e] eqn:Hv; cbn [negb] in H;
    try discriminate.
  split; [reflexivity|].
  destruct (apply_all (txs block) _) as [[u|e] bc1] eqn:E; [|discriminate].
  injection H as <-. now destruct (apply_all_frame _ _ _ _ E) as (-> & _).
Qed.

Lemma chain_inv_snoc (l : list Block) (b : Block) :
  ChainSpec.chain_inv l -> ChainSpec.hash_correct b ->
  ChainSpec.genesis_shaped b \/ (l <> [] /\ ChainSpec.continues (last l b) b) ->
  ChainSpec.chain_inv (l ++ [b]).
Proof.
  intros [Hh Hs] Hb Hlink. split.
  - apply Forall_app. split; [exact Hh | constructor; [exact Hb | constructor]].
  - destruct l as [|g r]; cbn [app].
    + destruct Hlink as [Hg|[Hne _]]; [split; [exact Hg | exact I] | congruence].
    + destruct Hs as [Hg Hr]. split; [exact Hg|].
      apply chain_from_app; [exact Hr|].
      destruct Hlink as [Hb0|[_ Hc]]; [now left | right].
      destruct r as [|y r']; [exact Hc|].
      rewrite (last_default (y :: r') g b) by discriminate.
      exact Hc.
Qed.

(** Property X5.  An accepted block becomes the last block, and the chain engine
    keeps its list of blocks well formed: every stored hash is the SHA-256
    digest of the block's header, the first block has index 0 and the
    all-zero previous-hash, and every later block either continues its
    predecessor (next index, the predecessor's stored hash as previous-hash)
    or again has index 0 and the all-zero previous-hash.  The hash and the
    previous-hash of an accepted block are 32 bytes long. *)
Theorem append_block_keeps_chain_invariant (bc bc' : Blockchain) (block : Block) :
  ChainSpec.chain_inv (blocks bc) ->
  append_block block bc = (Ok true, bc') ->
  blocks bc' = blocks bc ++ [block] /\
  ChainSpec.chain_inv (blocks bc') /\
  List.length (hash block) = 32%nat /\
  List.length (prev_hash block) = 32%nat.
Proof.
  intros Hinv Happ. destruct (append_accepted_blocks _ _ _ Happ) as [Hv Hb].
  destruct (validate_block_parts _ _ Hv) as (Hlink & Hhash & _).
  apply check_linkage_true in Hlink.
  split; [exact Hb|]. split; [rewrite Hb; now apply chain_inv_snoc|].
  split; [now apply hash_correct_length|].
  destruct Hlink as [[_ ->]|[Hne [_ ->]]]; [reflexivity|].
  apply hash_correct_length. destruct Hinv as [Hall _].
  rewrite Forall_forall in Hall. apply Hall.
  destruct (exists_last Hne) as (l' & a & E). rewrite E, last_last.
  apply in_or_app. right. now left.
Qed.

Lemma append_block_keeps_chain_invariant_witness :
  blocks Scenario.chain2 = blocks Scenario.chain1 ++ [Scenario.block1] /\
  ChainSpec.chain_inv (blocks Scenario.chain2) /\
  List.length (hash Scenario.block1) = 32%nat /\
  List.length (prev_hash Scenario.block1) = 32%nat.
Proof.
  apply (append_block_keeps_chain_invariant Scenario.chain1 Scenario.chain2
           Scenario.block1).
  - split; [|split; [split; reflexivity | exact I]].
    constructor; [vm_compute; reflexivity | constructor].
  - vm_compute; reflexivity.
Defined.

Lemma pack_unsigned_inv (n : nat) (z : Z) (b : bytes) :
  pack_unsigned n z = Ok b -> 0 <= z < 2 ^ (8 * Z.of_nat n).
Proof.
  unfold pack_unsigned.
  destruct ((0 <=? z) && (z <? 2 ^ (8 * Z.of_nat n))) eqn:E; [|discriminate].
  intros _. apply andb_true_iff in E as [E1 E2]. lia.
Qed.

Lemma hash_correct_header (b : Block) (h : bytes) :
  compute_block_hash b = Ok h ->
  0 <= index b < 2 ^ 32 /\ 0 <= timestamp b < 2 ^ 64 /\ len (txs b) < 2 ^ 64.
Proof.
  unfold compute_block_hash, _serialize_block_header.
  destruct (pack_unsigned 4 (index b)) as [i|e] eqn:Ei; cbn [rbind]; [|discriminate].
  destruct (pack_unsigned 8 (timestamp b)) as [t|e] eqn:Et; cbn [rbind]; [|discriminate].
  destruct (pack_unsigned 8 (len (txs b))) as [n|e] eqn:En; cbn [rbind]; [|discriminate].
  intros _. apply pack_unsigned_inv in Ei, Et, En.
  change (8 * Z.of_nat 4) with 32 in Ei. change (8 * Z.of_nat 8) with 64 in Et, En.
  lia.
Qed.

Lemma header_in_range_intro (b : Block) :
  0 <= index b < 2 ^ 32 -> 0 <= timestamp b < 2 ^ 64 -> len (txs b) < 2 ^ 64 ->
  Spec.header_in_range b = true.
Proof.
  intros Hi Ht Hn. unfold Spec.header_in_range.
  repeat (apply andb_true_iff; split); lia.
Qed.

Lemma sealed_fields (b : Block) :
  Spec.header_in_range b = true ->
  exists h,
    compute_block_hash b = Ok h /\
    Scenario.sealed b = mkBlock (index b) (timestamp b) (prev_hash b) h (txs b).
Proof.
  intros Hr. destruct (header_in_range_serializes b Hr) as [hd Hhd].
  exists (Sha256.sha256 hd). unfold Scenario.sealed, compute_block_hash.
  rewrite Hhd. cbn [rbind]. split; reflexivity.
Qed.

(** Property X6.  The chain engine never looks at a timestamp beyond packing it into
    the header: if a block is valid for a state, then so is the block with
    the same index, previous-hash and transactions, any other timestamp that
    fits 64 bits, and the hash of the header so obtained. *)
Theorem validate_block_ignores_timestamp (bc : Blockchain) (block : Block) (ts : Z) :
  _validate_block bc block = Ok true ->
  0 <= ts < 2 ^ 64 ->
  _validate_block bc (ChainSpec.retimed block ts) = Ok true /\
  index (ChainSpec.retimed block ts) = index block /\
  timestamp (ChainSpec.retimed block ts) = ts /\
  prev_hash (ChainSpec.retimed block ts) = prev_hash block /\
  txs (ChainSpec.retimed block ts) = txs block.
Proof.
  intros Hv Hts. destruct (validate_block_parts _ _ Hv) as (Hlink & Hhash & Hall).
  destruct (hash_correct_header _ _ Hhash) as (Hi & _ & Hn).
  set (raw := mkBlock (index block) ts (prev_hash block) [] (txs block)).
  assert (Hr : Spec.header_in_range raw = true)
    by (apply header_in_range_intro; cbn [raw index timestamp txs]; assumption).
  destruct (sealed_fields raw Hr) as (h & Hh & Hs).
  unfold ChainSpec.retimed. fold raw. rewrite Hs.
  cbn [raw index timestamp prev_hash txs].
  split; [|repeat split].
  unfold _validate_block. cbn [index timestamp prev_hash txs hash].
  rewrite (check_linkage_fields bc block) by reflexivity.
  rewrite Hlink. cbn [rbind negb].
  fold raw. rewrite Hh. cbn [rbind].
  replace (bytes_eqb h h) with true by (symmetry; now apply bytes_eqb_eq).
  cbn [negb]. exact Hall.
Qed.

Lemma validate_block_ignores_timestamp_witness :
  _validate_block Scenario.chain3 (ChainSpec.retimed Scenario.block3 0) = Ok true /\
  index (ChainSpec.retimed Scenario.block3 0) = index Scenario.block3 /\
  timestamp (ChainSpec.retimed Scenario.block3 0) = 0 /\
  prev_hash (ChainSpec.retimed Scenario.block3 0) = prev_hash Scenario.block3 /\
  txs (ChainSpec.retimed Scenario.block3 0) = txs Scenario.block3.
Proof.
  apply (validate_block_ignores_timestamp Scenario.chain3 Scenario.block3 0).
  - vm_compute; reflexivity.
  - lia.
Defined.

Lemma genesis_hash (ts : Z) :
  0 <= ts < 2 ^ 64 ->
  exists h, compute_block_hash (mkBlock 0 ts zero_hash [] []) = Ok h.
Proof.
  intros Hts.
  destruct (header_in_range_serializes (mkBlock 0 ts zero_hash [] [])) as [hd Hhd].
  - apply header_in_range_intro; cbn [index timestamp txs]; [lia | exact Hts |].
    unfold len. cbn [List.length]. lia.
  - exists (Sha256.sha256 hd). unfold compute_block_hash. now rewrite Hhd.
Qed.

Lemma genesis_accepted (bc : Blockchain) (ts : Z) (h : bytes) :
  compute_block_hash (mkBlock 0 ts zero_hash [] []) = Ok h ->
  append_block (mkBlock 0 ts zero_hash h []) bc =
    (Ok true, set_blocks bc (blocks bc ++ [mkBlock 0 ts zero_hash h []])).
Proof.
  intros Hh.
  assert (Hv : _validate_block bc (mkBlock 0 ts zero_hash h []) = Ok true).
  { unfold _validate_block, check_linkage. cbn [index prev_hash timestamp txs hash].
    replace (bytes_eqb zero_hash zero_hash) with true
      by (symmetry; now apply bytes_eqb_eq).
    cbn [Z.eqb negb rbind]. rewrite Hh. cbn [rbind].
    replace (bytes_eqb h h) with true by (symmetry; now apply bytes_eqb_eq).
    reflexivity. }
  unfold append_block, bind, get, lift, put, ret. rewrite Hv. reflexivity.
Qed.

(** Property X7.  [create_genesis] on any state, empty or not: for a timestamp that
    fits 64 bits it appends a block with index 0, that timestamp, the
    all-zero previous-hash, no transaction and the hash of its header, and
    changes nothing else; for any other timestamp it raises [struct.error]
    and leaves the state as it was.  The owner address has no influence on
    the block. *)
Theorem create_genesis_appends (owner_address : string) (ts : Z) (bc : Blockchain) :
  (0 <= ts < 2 ^ 64 ->
   exists h,
     build_genesis_block owner_address ts = Ok (mkBlock 0 ts zero_hash h []) /\
     compute_block_hash (mkBlock 0 ts zero_hash h []) = Ok h /\
     List.length h = 32%nat /\
     create_genesis owner_address ts bc =
       (Ok tt, set_blocks bc (blocks bc ++ [mkBlock 0 ts zero_hash h []]))) /\
  (~ 0 <= ts < 2 ^ 64 ->
   build_genesis_block owner_address ts = Raise StructError /\
   create_genesis owner_address ts bc = (Raise StructError, bc)) /\
  (forall other : string,
     build_genesis_block other ts = build_genesis_block owner_address ts).
Proof.
  split; [|split].
  - intros Hts. destruct (genesis_hash ts Hts) as [h Hh]. exists h.
    assert (Hb : build_genesis_block owner_address ts = Ok (mkBlock 0 ts zero_hash h []))
      by (unfold build_genesis_block; now rewrite Hh).
    split; [exact Hb|].
    split; [rewrite <- Hh; apply (tmp_block_hash (mkBlock 0 ts zero_hash h []))|].
    split.
    + unfold compute_block_hash in Hh.
      destruct (_serialize_block_header _); cbn [rbind] in Hh; [|discriminate].
      injection Hh as <-. apply length_sha256.
    + unfold create_genesis, bind, lift, ret. rewrite Hb.
      now rewrite (genesis_accepted bc ts h Hh).
  - intros Hts.
    assert (Hb : build_genesis_block owner_address ts = Raise StructError).
    { unfold build_genesis_block, compute_block_hash, _serialize_block_header.
      cbn [index timestamp].
      replace (pack_unsigned 4 0) with (Ok (be_bytes 4 0)) by reflexivity.
      cbn [rbind]. unfold pack_unsigned at 1.
      change (8 * Z.of_nat 8) with 64.
      destruct ((0 <=? ts) && (ts <? 2 ^ 64)) eqn:E; [|reflexivity].
      apply andb_true_iff in E as [E1 E2]. lia. }
    split; [exact Hb|]. unfold create_genesis, bind, lift. now rewrite Hb.
  - reflexivity.
Qed.

Lemma create_genesis_appends_witness :
  (exists h,
     build_genesis_block "owner" 5 = Ok (mkBlock 0 5 zero_hash h []) /\
     compute_block_hash (mkBlock 0 5 zero_hash h []) = Ok h /\
     List.length h = 32%nat /\
     create_genesis "owner" 5 Scenario.chain2 =
       (Ok tt,
        set_blocks Scenario.chain2
          (blocks Scenario.chain2 ++ [mkBlock 0 5 zero_hash h []]))) /\
  create_genesis "owner" (2 ^ 64) Scenario.chain2 = (Raise StructError, Scenario.chain2).
Proof.
  destruct (create_genesis_appends "owner" 5 Scenario.chain2) as (Hok & _ & _).
  destruct (create_genesis_appends "owner" (2 ^ 64) Scenario.chain2) as (_ & Hbad & _).
  split; [apply Hok; lia | apply Hbad; lia].
Defined.

End ChainEngine.

(** ** The effect of a transaction on the balances *)

Section Effects.
Import Ledger.

Lemma apply_inert (tx : Transaction) (bc : Blockchain) :
  ChainSpec.moves_balance (kind tx) = false ->
  exists (bc' : Blockchain) (added : list Wallet),
    _apply_transaction tx bc = (Ok tt, bc') /\
    blocks bc' = blocks bc /\ token_types bc' = token_types bc /\
    pools bc' = pools bc /\ stakes bc' = stakes bc /\
    wallets bc' = wallets bc ++ added /\
    (List.length added <= 2)%nat /\
    (forall t : nat, Spec.total_balance bc' t = Spec.total_balance bc t).
Proof.
  intros Hk.
  assert (Hgrow : forall a b, exists i b1 added,
            _find_or_create_wallet a b = (Ok i, b1) /\
            blocks b1 = blocks b /\ token_types b1 = token_types b /\
            pools b1 = pools b /\ stakes b1 = stakes b /\
            wallets b1 = wallets b ++ added /\ (List.length added <= 1)%nat).
  { intros a b.
    destruct (find_or_create_cases a b) as [[_ E]|[(_ & _ & E)|(_ & _ & E)]].
    - exists (_find_wallet_index b a), b, []. rewrite app_nil_r. cbn. auto 10.
    - exists (-1), b, []. rewrite app_nil_r. cbn. auto 10.
    - eexists _, _, [_]. split; [exact E|]. cbn. auto 10. }
  destruct (Hgrow (from_address tx) bc) as (fi & bc1 & a1 & E1 & B1 & T1 & P1 & S1 & W1 & L1).
  destruct (Hgrow (to_address tx) bc1) as (ti & bc2 & a2 & E2 & B2 & T2 & P2 & S2 & W2 & L2).
  exists bc2, (a1 ++ a2).
  split.
  - unfold _apply_transaction, bind. rewrite E1, E2.
    destruct (kind tx); try discriminate; reflexivity.
  - split; [congruence|]. split; [congruence|]. split; [congruence|].
    split; [congruence|]. split; [rewrite W2, W1; now rewrite app_assoc|].
    split; [rewrite length_app; lia|].
    intros t.
    destruct (total_find_or_create (from_address tx) bc) as (i1 & b1 & F1 & Ht1).
    rewrite E1 in F1. injection F1 as _ <-.
    destruct (total_find_or_create (to_address tx) bc1) as (i2 & b2 & F2 & Ht2).
    rewrite E2 in F2. injection F2 as _ <-.
    now rewrite Ht2, Ht1.
Qed.

(** Property X8.  Applying a transaction of a kind other than TRANSFER, SWAP, MINT
    and BURN (STAKE, which is validated against the sender's balance, is
    among them) never raises and touches no balance: an existing wallet is
    left as it is, at most two wallets are appended, and the exact total of
    every token is unchanged. *)
Theorem apply_other_kinds_move_nothing (tx : Transaction) (bc : Blockchain) :
  ChainSpec.moves_balance (kind tx) = false ->
  exists (bc' : Blockchain) (added : list Wallet),
    _apply_transaction tx bc = (Ok tt, bc') /\
    blocks bc' = blocks bc /\ token_types bc' = token_types bc /\
    pools bc' = pools bc /\ stakes bc' = stakes bc /\
    wallets bc' = wallets bc ++ added /\
    (List.length added <= 2)%nat /\
    (forall t : nat, Spec.total_balance bc' t = Spec.total_balance bc t).
Proof. exact (apply_inert tx bc). Qed.

Lemma apply_other_kinds_move_nothing_witness :
  exists (bc' : Blockchain) (added : list Wallet),
    _apply_transaction (mkTransaction "alice" "vault" 3 0 STAKE "") Scenario.registry2 =
      (Ok tt, bc') /\
    blocks bc' = blocks Scenario.registry2 /\
    token_types bc' = token_types Scenario.registry2 /\
    pools bc' = pools Scenario.registry2 /\ stakes bc' = stakes Scenario.registry2 /\
    wallets bc' = wallets Scenario.registry2 ++ added /\
    (List.length added <= 2)%nat /\
    (forall t : nat,
       Spec.total_balance bc' t = Spec.total_balance Scenario.registry2 t).
Proof.
  apply (apply_other_kinds_move_nothing (mkTransaction "alice" "vault" 3 0 STAKE "")
           Scenario.registry2).
  reflexivity.
Defined.

(** Property X9.  A MINT raises, and a BURN lowers, the exact total of its token by
    exactly the amount, and leaves the total of every other token alone,
    provided the one floating-point addition or subtraction it makes is
    exact. *)
Theorem mint_and_burn_change_supply (tx : Transaction) (bc bc' : Blockchain) (u : unit) :
  kind tx = MINT \/ kind tx = BURN ->
  0 <= token_index tx ->
  _apply_transaction tx bc = (Ok u, bc') ->
  ChainSpec.supply_rounding_free tx bc = true ->
  forall t : nat,
    Spec.total_balance bc' t =
      Spec.total_balance bc t +
      (if Nat.eqb t (Z.to_nat (token_index tx)) then ChainSpec.supply_change tx else 0).
Proof.
  intros Hk Hti Hrun Hfree t.
  unfold _apply_transaction, bind in Hrun. unfold ChainSpec.supply_rounding_free in Hfree.
  destruct (total_find_or_create (from_address tx) bc) as (fi & bc1 & Hf & Ht1).
  rewrite Hf in Hrun, Hfree.
  destruct (total_find_or_create (to_address tx) bc1) as (ti & bc2 & Hto & Ht2).
  rewrite Hto in Hrun, Hfree.
  unfold ChainSpec.supply_change.
  destruct Hk as [Hk|Hk]; rewrite Hk in *.
  - unfold iadd_balance in Hrun.
    destruct (total_update_exact _ _ _ _ _ _ _ _ t Hti Hrun Hfree) as [b Hb].
    rewrite Hb, Ht2, Ht1. destruct (Nat.eqb t (Z.to_nat (token_index tx))); lia.
  - unfold isub_balance in Hrun.
    destruct (total_update_exact _ _ _ _ _ _ _ _ t Hti Hrun Hfree) as [b Hb].
    rewrite Hb, Ht2, Ht1. destruct (Nat.eqb t (Z.to_nat (token_index tx))); lia.
Qed.

Lemma mint_and_burn_change_supply_witness :
  Spec.total_balance
    (Scenario.after (_apply_transaction (mkTransaction "alice" "bob" 2 0 BURN ""))
       Scenario.registry2) 0 =
    Spec.total_balance Scenario.registry2 0 +
    (if Nat.eqb 0 (Z.to_nat 0)
     then ChainSpec.supply_change (mkTransaction "alice" "bob" 2 0 BURN "") else 0).
Proof.
  apply (mint_and_burn_change_supply (mkTransaction "alice" "bob" 2 0 BURN "")
           Scenario.registry2 _ tt).
  - right; reflexivity.
  - cbn; lia.
  - vm_compute; reflexivity.
  - vm_compute; reflexivity.
Defined.

End Effects.

Section Moves.
Import Ledger.

Lemma balance_at_adjust_token (op : float -> float -> float) (bc : Blockchain)
    (k j t t' : nat) (amt : float) :
  t' <> t ->
  Spec.balance_at (set_wallets bc (Spec.adjust op (wallets bc) k t amt)) j t' =
    Spec.balance_at bc j t'.
Proof.
  intro H. destruct (Nat.eq_dec j k) as [->|Hj]; [|now apply balance_at_adjust_neq].
  unfold Spec.balance_at. cbn [wallets set_wallets].
  destruct (nth_error (wallets bc) k) as [w|] eqn:E.
  - rewrite (nth_error_adjust_eq op _ k t amt w E). cbn [balances set_balances].
    now apply nth_set_nth_neq.
  - unfold Spec.adjust. now rewrite E, E.
Qed.

Lemma balance_at_prefix (bc : Blockchain) (added : list Wallet) (j t : nat) :
  (j < List.length (wallets bc))%nat ->
  Spec.balance_at (set_wallets bc (wallets bc ++ added)) j t = Spec.balance_at bc j t.
Proof.
  intro H. unfold Spec.balance_at. cbn [wallets set_wallets].
  now rewrite nth_error_app1.
Qed.

(** The recipient's wallet after [_find_or_create_wallet], when there is one. *)
Lemma recipient_ready (a : string) (bc : Blockchain) :
  Spec.balances_aligned bc = true ->
  _find_wallet_index bc a <> -1 \/ len (wallets bc) < ELTT_MAX_WALLETS ->
  exists (r : nat) (bc1 : Blockchain) (wr : Wallet),
    _find_or_create_wallet a bc = (Ok (Z.of_nat r), bc1) /\
    _find_wallet_index bc1 a = Z.of_nat r /\
    nth_error (wallets bc1) r = Some wr /\
    Spec.balances_aligned bc1 = true /\
    token_types bc1 = token_types bc /\
    (forall j t, (j < List.length (wallets bc))%nat ->
                 Spec.balance_at bc1 j t = Spec.balance_at bc j t) /\
    (forall j w, nth_error (wallets bc) j = Some w -> nth_error (wallets bc1) j = Some w) /\
    (_find_wallet_index bc a <> -1 -> bc1 = bc) /\
    (_find_wallet_index bc a = -1 ->
     r = List.length (wallets bc) /\
     List.length (wallets bc1) = S (List.length (wallets bc)) /\
     forall t, Spec.balance_at bc1 r t = 0%float).
Proof.
  intros Hal Hroom.
  destruct (find_or_create_cases a bc) as [[Hi E]|[(Hm & Hfull & E)|(Hm & Hr & E)]].
  - assert (Hne : find_from (wallets bc) a 0 <> -1)
      by (unfold _find_wallet_index in Hi; lia).
    destruct (find_from_hit _ _ 0 Hne) as (k & w & Hk & Hn & _).
    fold (_find_wallet_index bc a) in Hk. cbn [Z.add] in Hk.
    exists k, bc, w. rewrite <- Hk.
    split; [exact E|]. split; [reflexivity|]. split; [exact Hn|].
    split; [exact Hal|]. split; [reflexivity|]. split; [reflexivity|].
    split; [auto|]. split; [reflexivity | lia].
  - destruct Hroom; [congruence | lia].
  - exists (List.length (wallets bc)),
      (set_wallets bc (wallets bc ++ [ChainSpec.fresh_wallet bc a])),
      (ChainSpec.fresh_wallet bc a).
    pose proof (step_add_wallet bc a Hm) as (_ & HT & _ & _ & _ & HL & _).
    split; [exact E|].
    split; [apply find_after_create; [exact Hm | reflexivity]|].
    cbn [wallets set_wallets].
    split; [rewrite nth_error_app2 by lia; now rewrite Nat.sub_diag|].
    split; [exact (HL Hal)|]. split; [exact HT|].
    split; [intros j t Hj; now apply balance_at_prefix|].
    split.
    { intros j w Hj. rewrite nth_error_app1; [exact Hj|].
      apply nth_error_Some. congruence. }
    split; [congruence|]. intros _.
    split; [reflexivity|]. split; [rewrite length_app; cbn [List.length]; lia|].
    intros t. unfold Spec.balance_at. cbn [wallets set_wallets].
    rewrite nth_error_app2 by lia. rewrite Nat.sub_diag. cbn [nth_error].
    cbn [ChainSpec.fresh_wallet balances]. apply nth_repeat.
Qed.

Lemma apply_move_effect (bc : Blockchain) (tx : Transaction) :
  Spec.balances_aligned bc = true ->
  Spec.is_move tx = true ->
  _validate_transaction bc tx = Ok true ->
  _find_wallet_index bc (to_address tx) <> -1 \/ len (wallets bc) < ELTT_MAX_WALLETS ->
  exists (s r : nat) (bc1 bc' : Blockchain),
    _find_wallet_index bc (from_address tx) = Z.of_nat s /\
    _find_or_create_wallet (to_address tx) bc = (Ok (Z.of_nat r), bc1) /\
    _find_wallet_index bc1 (to_address tx) = Z.of_nat r /\
    (_find_wallet_index bc (to_address tx) <> -1 -> bc1 = bc) /\
    (_find_wallet_index bc (to_address tx) = -1 ->
     r = List.length (wallets bc) /\
     List.length (wallets bc1) = S (List.length (wallets bc)) /\
     forall t, Spec.balance_at bc1 r t = 0%float) /\
    _apply_transaction tx bc = (Ok tt, bc') /\
    map address (wallets bc') = map address (wallets bc1) /\
    Spec.balance_at bc' r (Z.to_nat (token_index tx)) =
      ((if Nat.eqb s r
        then Spec.balance_at bc s (Z.to_nat (token_index tx)) - amount tx
        else Spec.balance_at bc1 r (Z.to_nat (token_index tx))) + amount tx)%float /\
    (s <> r ->
     Spec.balance_at bc' s (Z.to_nat (token_index tx)) =
       (Spec.balance_at bc s (Z.to_nat (token_index tx)) - amount tx)%float) /\
    (forall j t : nat,
       (j <> s /\ j <> r) \/ t <> Z.to_nat (token_index tx) ->
       Spec.balance_at bc' j t = Spec.balance_at bc1 j t).
Proof.
  intros Hal Hm Hv Hroom.
  destruct (validated_move bc tx Hm Hv) as (Hti & Hs & w & Hw & Hlen).
  destruct (recipient_ready (to_address tx) bc Hal Hroom)
    as (r & bc1 & wr & Hcreate & Hfind & Hwr & Hal1 & HT1 & Hbal1 & Hnth1 & Hsame & Hnew).
  set (s := Z.to_nat (_find_wallet_index bc (from_address tx))) in *.
  set (t := Z.to_nat (token_index tx)).
  assert (Hsz : _find_wallet_index bc (from_address tx) = Z.of_nat s)
    by (unfold s; lia).
  assert (Hslt : (s < List.length (wallets bc))%nat) by (unfold len in Hs; lia).
  pose proof (Hnth1 s w Hw) as Hw1.
  assert (Htl : (t < List.length (balances w))%nat) by (unfold len in Hlen; lia).
  set (bc2 := set_wallets bc1 (Spec.adjust PrimFloat.sub (wallets bc1) s t (amount tx))).
  assert (Hal2 : Spec.balances_aligned bc2 = true) by (apply aligned_adjust; exact Hal1).
  assert (Hr2 : exists wr2, nth_error (wallets bc2) r = Some wr2).
  { unfold bc2. cbn [wallets set_wallets].
    destruct (Nat.eq_dec r s) as [->|Hrs].
    - rewrite (nth_error_adjust_eq _ _ s t _ w Hw1). eauto.
    - rewrite nth_error_adjust_neq by exact Hrs. eauto. }
  destruct Hr2 as [wr2 Hwr2].
  assert (Hrl : (t < List.length (balances wr2))%nat).
  { rewrite (aligned_wallet bc2 r wr2 Hal2 Hwr2). unfold bc2.
    cbn [token_types set_wallets]. rewrite HT1. unfold len in Hti. lia. }
  set (bc' := set_wallets bc2 (Spec.adjust PrimFloat.add (wallets bc2) r t (amount tx))).
  assert (Hrun : _apply_transaction tx bc = (Ok tt, bc')).
  { unfold _apply_transaction, bind.
    rewrite (find_or_create_found _ bc (proj1 Hs)), Hcreate.
    assert (Hmove : (isub_balance (_find_wallet_index bc (from_address tx))
                       (token_index tx) (amount tx) ;;;
                     iadd_balance (Z.of_nat r) (token_index tx) (amount tx)) bc1 =
                    (Ok tt, bc')).
    { unfold bind, isub_balance, iadd_balance.
      rewrite (update_balance_run _ _ _ _ bc1 s w).
      - fold t. fold bc2.
        rewrite (update_balance_run _ _ _ _ bc2 r wr2).
        + reflexivity.
        + rewrite index_nonneg; [now rewrite Nat2Z.id|].
          split; [lia|]. apply Nat2Z.inj_lt. apply nth_error_Some. congruence.
        + exact Hwr2.
        + unfold len. lia.
      - rewrite index_nonneg; [reflexivity|].
        split; [lia|]. rewrite Hsz. apply Nat2Z.inj_lt. apply nth_error_Some. congruence.
      - exact Hw1.
      - unfold len in *. lia. }
    unfold Spec.is_move in Hm. destruct (kind tx); try discriminate; exact Hmove. }
  exists s, r, bc1, bc'.
  split; [exact Hsz|]. split; [exact Hcreate|]. split; [exact Hfind|].
  split; [exact Hsame|]. split; [exact Hnew|]. split; [exact Hrun|].
  split.
  { unfold bc', bc2. cbn [wallets set_wallets]. now rewrite !addresses_adjust. }
  fold t. split; [|split].
  - unfold bc'. rewrite (balance_at_adjust_eq _ bc2 r t _ wr2 Hwr2 Hrl).
    f_equal. unfold bc2. destruct (Nat.eqb s r) eqn:Esr.
    + apply Nat.eqb_eq in Esr. subst r.
      rewrite (balance_at_adjust_eq _ bc1 s t _ w Hw1 Htl).
      f_equal. now apply Hbal1.
    + apply Nat.eqb_neq in Esr. apply balance_at_adjust_neq. congruence.
  - intros Hsr. unfold bc'. rewrite balance_at_adjust_neq by exact Hsr.
    unfold bc2. rewrite (balance_at_adjust_eq _ bc1 s t _ w Hw1 Htl).
    f_equal. now apply Hbal1.
  - intros j t' [[Hjs Hjr]|Ht'].
    + unfold bc'. rewrite balance_at_adjust_neq by exact Hjr.
      unfold bc2. now apply balance_at_adjust_neq.
    + unfold bc'. rewrite balance_at_adjust_token by exact Ht'.
      unfold bc2. now apply balance_at_adjust_token.
Qed.

(** Property X10.  The normal path of a TRANSFER or SWAP.  On an aligned registry, for
    a validated transaction whose recipient has a wallet or can be given one
    (the registry is below capacity), the applier never raises: it creates
    the recipient's wallet with zero balances if it is missing, debits the
    amount from the sender's balance of the token and credits it to the
    recipient's (to the debited balance when sender and recipient are the
    same wallet), and changes no other balance, no address and no position. *)
Theorem apply_move_debits_and_credits (bc : Blockchain) (tx : Transaction) :
  Spec.balances_aligned bc = true ->
  Spec.is_move tx = true ->
  _validate_transaction bc tx = Ok true ->
  _find_wallet_index bc (to_address tx) <> -1 \/ len (wallets bc) < ELTT_MAX_WALLETS ->
  exists (s r : nat) (bc1 bc' : Blockchain),
    _find_wallet_index bc (from_address tx) = Z.of_nat s /\
    _find_or_create_wallet (to_address tx) bc = (Ok (Z.of_nat r), bc1) /\
    _find_wallet_index bc1 (to_address tx) = Z.of_nat r /\
    (_find_wallet_index bc (to_address tx) <> -1 -> bc1 = bc) /\
    (_find_wallet_index bc (to_address tx) = -1 ->
     r = List.length (wallets bc) /\
     List.length (wallets bc1) = S (List.length (wallets bc)) /\
     forall t, Spec.balance_at bc1 r t = 0%float) /\
    _apply_transaction tx bc = (Ok tt, bc') /\
    map address (wallets bc') = map address (wallets bc1) /\
    Spec.balance_at bc' r (Z.to_nat (token_index tx)) =
      ((if Nat.eqb s r
        then Spec.balance_at bc s (Z.to_nat (token_index tx)) - amount tx
        else Spec.balance_at bc1 r (Z.to_nat (token_index tx))) + amount tx)%float /\
    (s <> r ->
     Spec.balance_at bc' s (Z.to_nat (token_index tx)) =
       (Spec.balance_at bc s (Z.to_nat (token_index tx)) - amount tx)%float) /\
    (forall j t : nat,
       (j <> s /\ j <> r) \/ t <> Z.to_nat (token_index tx) ->
       Spec.balance_at bc' j t = Spec.balance_at bc1 j t).
Proof. exact (apply_move_effect bc tx). Qed.

Lemma apply_move_debits_and_credits_witness :
  exists (s r : nat) (bc1 bc' : Blockchain),
    _find_wallet_index Scenario.registry2 "alice" = Z.of_nat s /\
    _find_or_create_wallet "carol" Scenario.registry2 = (Ok (Z.of_nat r), bc1) /\
    _find_wallet_index bc1 "carol" = Z.of_nat r /\
    (_find_wallet_index Scenario.registry2 "carol" <> -1 -> bc1 = Scenario.registry2) /\
    (_find_wallet_index Scenario.registry2 "carol" = -1 ->
     r = List.length (wallets Scenario.registry2) /\
     List.length (wallets bc1) = S (List.length (wallets Scenario.registry2)) /\
     forall t, Spec.balance_at bc1 r t = 0%float) /\
    _apply_transaction (mkTransaction "alice" "carol" 2 0 TRANSFER "") Scenario.registry2 =
      (Ok tt, bc') /\
    map address (wallets bc') = map address (wallets bc1) /\
    Spec.balance_at bc' r (Z.to_nat 0) =
      ((if Nat.eqb s r
        then Spec.balance_at Scenario.registry2 s (Z.to_nat 0) - 2
        else Spec.balance_at bc1 r (Z.to_nat 0)) + 2)%float /\
    (s <> r ->
     Spec.balance_at bc' s (Z.to_nat 0) =
       (Spec.balance_at Scenario.registry2 s (Z.to_nat 0) - 2)%float) /\
    (forall j t : nat,
       (j <> s /\ j <> r) \/ t <> Z.to_nat 0 ->
       Spec.balance_at bc' j t = Spec.balance_at bc1 j t).
Proof.
  apply (apply_move_debits_and_credits Scenario.registry2
           (mkTransaction "alice" "carol" 2 0 TRANSFER "")).
  - reflexivity.
  - reflexivity.
  - vm_compute; reflexivity.
  - right. vm_compute; reflexivity.
Defined.

End Moves.

(** ** Amounts that are not numbers *)

Section NotANumber.
Import Ledger.

Lemma ltb_nan_r (x y : float) : PrimFloat.is_nan y = true -> (x <? y)%float = false.
Proof.
  intros H. apply is_nan_spec in H. rewrite FloatAxioms.ltb_spec, H.
  unfold SFltb, SFcompare. now destruct (Prim2SF x).
Qed.

Lemma ltb_nan_l (x y : float) : PrimFloat.is_nan x = true -> (x <? y)%float = false.
Proof.
  intros H. apply is_nan_spec in H. rewrite FloatAxioms.ltb_spec, H. reflexivity.
Qed.

Lemma leb_nan_l (x y : float) : PrimFloat.is_nan x = true -> (x <=? y)%float = false.
Proof.
  intros H. apply is_nan_spec in H. rewrite FloatAxioms.leb_spec, H. reflexivity.
Qed.

Lemma sub_nan_r (x y : float) :
  PrimFloat.is_nan y = true -> PrimFloat.is_nan (x - y) = true.
Proof.
  intros H. apply is_nan_spec in H. apply is_nan_spec.
  rewrite FloatAxioms.sub_spec, H. unfold SF64sub, SFsub. now destruct (Prim2SF x).
Qed.

Lemma add_nan_r (x y : float) :
  PrimFloat.is_nan y = true -> PrimFloat.is_nan (x + y) = true.
Proof.
  intros H. apply is_nan_spec in H. apply is_nan_spec.
  rewrite FloatAxioms.add_spec, H. unfold SF64add, SFadd. now destruct (Prim2SF x).
Qed.

Lemma sender_can_pay_nan (bc : Blockchain) (tx : Transaction) :
  PrimFloat.is_nan (amount tx) = true ->
  Spec.balances_aligned bc = true ->
  0 <= token_index tx < len (token_types bc) ->
  _find_wallet_index bc (from_address tx) <> -1 ->
  sender_can_pay bc tx (_find_wallet_index bc (from_address tx)) = Ok true.
Proof.
  intros Hnan Hal Hti Hs. unfold sender_can_pay.
  destruct (find_from_nonneg (wallets bc) (from_address tx)) as [F|F];
    fold (_find_wallet_index bc (from_address tx)) in F; [congruence|].
  replace (_find_wallet_index bc (from_address tx) <? 0) with false by (symmetry; lia).
  destruct (getitem_in_range (wallets bc) _ F) as (w & Hw & ->). cbn [rbind].
  pose proof (aligned_wallet bc _ w Hal Hw) as Hl.
  rewrite getitem_balance by (unfold len in *; lia). cbn [rbind].
  now rewrite (ltb_nan_r _ _ Hnan), (leb_nan_l _ 0%float Hnan).
Qed.

Lemma nan_valid (bc : Blockchain) (tx : Transaction) :
  PrimFloat.is_nan (amount tx) = true ->
  Spec.balances_aligned bc = true ->
  0 <= token_index tx < len (token_types bc) ->
  (ChainSpec.checks_sender (kind tx) = true ->
   _find_wallet_index bc (from_address tx) <> -1) ->
  (kind tx = MINT -> _find_wallet_index bc (to_address tx) <> -1) ->
  _validate_transaction bc tx = Ok true.
Proof.
  intros Hnan Hal Hti Hs Hr. unfold _validate_transaction.
  replace ((token_index tx <? 0) || (len (token_types bc) <=? token_index tx))
    with false by (symmetry; apply orb_false_iff; lia).
  rewrite (ltb_nan_l _ 0%float Hnan).
  destruct (kind tx) eqn:Ek; try reflexivity;
    try (apply sender_can_pay_nan; try assumption; apply Hs; reflexivity).
  specialize (Hr eq_refl).
  destruct (find_from_nonneg (wallets bc) (to_address tx)) as [F|F];
    fold (_find_wallet_index bc (to_address tx)) in F; [congruence|].
  replace (_find_wallet_index bc (to_address tx) <? 0) with false by (symmetry; lia).
  now rewrite (leb_nan_l _ 0%float Hnan).
Qed.

(** Property X11.  A transaction whose amount is NaN passes validation.  None of the
    tests [amount < 0.0], [balance < amount] and [amount <= 0.0] holds for a
    NaN, so for every kind the transaction is valid as soon as its token
    index exists and the wallet the kind asks for exists (the sender's for
    TRANSFER, SWAP, STAKE and BURN, the recipient's for MINT), whatever the
    sender's balance. *)
Theorem nan_amount_passes_validation (bc : Blockchain) (tx : Transaction) :
  PrimFloat.is_nan (amount tx) = true ->
  Spec.balances_aligned bc = true ->
  0 <= token_index tx < len (token_types bc) ->
  (ChainSpec.checks_sender (kind tx) = true ->
   _find_wallet_index bc (from_address tx) <> -1) ->
  (kind tx = MINT -> _find_wallet_index bc (to_address tx) <> -1) ->
  _validate_transaction bc tx = Ok true.
Proof. exact (nan_valid bc tx). Qed.

Lemma nan_amount_passes_validation_witness :
  _validate_transaction Scenario.registry2
    (mkTransaction "bob" "alice" nan 0 TRANSFER "") = Ok true.
Proof.
  apply (nan_amount_passes_validation Scenario.registry2
           (mkTransaction "bob" "alice" nan 0 TRANSFER "")).
  - reflexivity.
  - reflexivity.
  - cbn; lia.
  - intros _. vm_compute. discriminate.
  - discriminate.
Defined.

(** Property X12.  A TRANSFER or SWAP of a NaN amount that is applied on the normal
    path leaves NaN as the balance of the token in the sender's wallet and in
    the recipient's. *)
Theorem nan_move_poisons_balances (bc : Blockchain) (tx : Transaction) :
  PrimFloat.is_nan (amount tx) = true ->
  Spec.balances_aligned bc = true ->
  Spec.is_move tx = true ->
  0 <= token_index tx < len (token_types bc) ->
  _find_wallet_index bc (from_address tx) <> -1 ->
  _find_wallet_index bc (to_address tx) <> -1 \/ len (wallets bc) < ELTT_MAX_WALLETS ->
  exists (s r : nat) (bc1 bc' : Blockchain),
    _validate_transaction bc tx = Ok true /\
    _find_wallet_index bc (from_address tx) = Z.of_nat s /\
    _find_or_create_wallet (to_address tx) bc = (Ok (Z.of_nat r), bc1) /\
    _apply_transaction tx bc = (Ok tt, bc') /\
    PrimFloat.is_nan (Spec.balance_at bc' s (Z.to_nat (token_index tx))) = true /\
    PrimFloat.is_nan (Spec.balance_at bc' r (Z.to_nat (token_index tx))) = true.
Proof.
  intros Hnan Hal Hm Hti Hs Hroom.
  assert (Hv : _validate_transaction bc tx = Ok true).
  { apply nan_valid; try assumption; [intros _; exact Hs|].
    intros Hk. unfold Spec.is_move in Hm. rewrite Hk in Hm. discriminate. }
  destruct (apply_move_effect bc tx Hal Hm Hv Hroom)
    as (s & r & bc1 & bc' & Hsz & Hc & _ & _ & _ & Hrun & _ & Hr & Hsr & _).
  exists s, r, bc1, bc'. repeat (split; [assumption|]).
  assert (Hrn : PrimFloat.is_nan (Spec.balance_at bc' r (Z.to_nat (token_index tx))) = true)
    by (rewrite Hr; now apply add_nan_r).
  split; [|exact Hrn].
  destruct (Nat.eq_dec s r) as [->|Hne]; [exact Hrn|].
  rewrite (Hsr Hne). now apply sub_nan_r.
Qed.

Lemma nan_move_poisons_balances_witness :
  exists (s r : nat) (bc1 bc' : Blockchain),
    _validate_transaction Scenario.registry2
      (mkTransaction "bob" "alice" nan 0 TRANSFER "") = Ok true /\
    _find_wallet_index Scenario.registry2 "bob" = Z.of_nat s /\
    _find_or_create_wallet "alice" Scenario.registry2 = (Ok (Z.of_nat r), bc1) /\
    _apply_transaction (mkTransaction "bob" "alice" nan 0 TRANSFER "")
      Scenario.registry2 = (Ok tt, bc') /\
    PrimFloat.is_nan (Spec.balance_at bc' s (Z.to_nat 0)) = true /\
    PrimFloat.is_nan (Spec.balance_at bc' r (Z.to_nat 0)) = true.
Proof.
  apply (nan_move_poisons_balances Scenario.registry2
           (mkTransaction "bob" "alice" nan 0 TRANSFER "")).
  - reflexivity.
  - reflexivity.
  - reflexivity.
  - cbn; lia.
  - vm_compute. discriminate.
  - left. vm_compute. discriminate.
Defined.

End NotANumber.

(** ** The wallet view *)

Section WalletViewProofs.
Import Ledger.

Lemma find_vs_find_from (ws : list Wallet) (a : string) (i : Z) :
  match find (WalletView.has_address a) ws with
  | None => find_from ws a i = -1
  | Some w =>
      address w = a /\
      exists k, find_from ws a i = i + Z.of_nat k /\ nth_error ws k = Some w
  end.
Proof.
  revert i; induction ws as [|x r IH]; intros i; cbn [find find_from].
  - reflexivity.
  - unfold WalletView.has_address at 1.
    destruct (String.eqb (address x) a) eqn:E.
    + apply String.eqb_eq in E. split; [exact E|]. exists 0%nat. split; [lia | reflexivity].
    + specialize (IH (i + 1)). destruct (find (WalletView.has_address a) r) as [w|].
      * destruct IH as (Ha & k & Hk & Hn). split; [exact Ha|].
        exists (S k). split; [lia | exact Hn].
      * exact IH.
Qed.

Lemma get_wallet_index (bc : Blockchain) (a : string) :
  match WalletView.get_wallet bc a with
  | None => _find_wallet_index bc a = -1
  | Some w =>
      address w = a /\ 0 <= _find_wallet_index bc a /\
      nth_error (wallets bc) (Z.to_nat (_find_wallet_index bc a)) = Some w
  end.
Proof.
  unfold WalletView.get_wallet, _find_wallet_index.
  pose proof (find_vs_find_from (wallets bc) a 0) as H.
  destruct (find (WalletView.has_address a) (wallets bc)) as [w|]; [|exact H].
  destruct H as (Ha & k & Hk & Hn). rewrite Hk.
  split; [exact Ha|]. split; [lia|].
  replace (Z.to_nat (0 + Z.of_nat k)) with k by lia. exact Hn.
Qed.

(** Property X13.  [get_wallet] and [_find_wallet_index] agree: the view returns
    [None] exactly when the lookup returns [-1], and otherwise the wallet at
    the position the lookup returns, which has the requested address. *)
Theorem get_wallet_agrees_with_index (bc : Blockchain) (a : string) :
  match WalletView.get_wallet bc a with
  | None => _find_wallet_index bc a = -1
  | Some w =>
      address w = a /\ 0 <= _find_wallet_index bc a /\
      nth_error (wallets bc) (Z.to_nat (_find_wallet_index bc a)) = Some w
  end.
Proof. exact (get_wallet_index bc a). Qed.

Lemma find_app_fresh (ws : list Wallet) (a : string) (w : Wallet) :
  find (WalletView.has_address a) ws = None -> address w = a ->
  find (WalletView.has_address a) (ws ++ [w]) = Some w.
Proof.
  intros Hn Ha. induction ws as [|x r IH]; cbn [find app] in *.
  - unfold WalletView.has_address. now rewrite Ha, String.eqb_refl.
  - destruct (WalletView.has_address a x); [discriminate | now apply IH].
Qed.

Lemma create_wallet_cases (a : string) (bc : Blockchain) :
  (exists w, WalletView.get_wallet bc a = Some w /\
             WalletView.create_wallet a bc = (Ok w, bc)) \/
  (WalletView.get_wallet bc a = None /\ _find_wallet_index bc a = -1 /\
   WalletView.create_wallet a bc =
     (Ok (ChainSpec.fresh_wallet bc a),
      set_wallets bc (wallets bc ++ [ChainSpec.fresh_wallet bc a]))).
Proof.
  pose proof (find_vs_find_from (wallets bc) a 0) as Hfind.
  unfold WalletView.create_wallet, WalletView.get_wallet, bind, get, put, ret.
  destruct (find (WalletView.has_address a) (wallets bc)) as [w|] eqn:E.
  - left. exists w. split; reflexivity.
  - right. split; [reflexivity|]. split; [exact Hfind|].
    reflexivity.
Qed.

(** Property X14.  [create_wallet] never raises and never refuses: it has no
    capacity test.  It returns the existing wallet of a known address and
    leaves the state as it was; for an unknown address it appends one wallet
    with a zero balance per token type, also to a registry that already
    holds [ELTT_MAX_WALLETS] wallets, where [_find_or_create_wallet] creates
    nothing.  Afterwards [get_wallet] returns the wallet that was returned, a
    second call changes nothing, and alignment and uniqueness of addresses
    are kept. *)
Theorem create_wallet_round_trip (a : string) (bc : Blockchain) :
  exists (w : Wallet) (bc1 : Blockchain),
    WalletView.create_wallet a bc = (Ok w, bc1) /\
    address w = a /\
    WalletView.get_wallet bc1 a = Some w /\
    WalletView.create_wallet a bc1 = (Ok w, bc1) /\
    (WalletView.get_wallet bc a = Some w /\ bc1 = bc \/
     WalletView.get_wallet bc a = None /\ w = ChainSpec.fresh_wallet bc a /\
     bc1 = set_wallets bc (wallets bc ++ [w])) /\
    (WalletView.get_wallet bc a = None -> ELTT_MAX_WALLETS <= len (wallets bc) ->
     _find_or_create_wallet a bc = (Ok (-1), bc) /\
     ELTT_MAX_WALLETS < len (wallets bc1)) /\
    (Spec.balances_aligned bc = true -> Spec.balances_aligned bc1 = true) /\
    (Spec.addresses_unique bc = true -> Spec.addresses_unique bc1 = true).
Proof.
  destruct (create_wallet_cases a bc) as [(w & Hg & Hc)|(Hg & Hm & Hc)].
  - exists w, bc. split; [exact Hc|].
    pose proof (get_wallet_index bc a) as H. rewrite Hg in H.
    split; [apply H|]. split; [exact Hg|]. split; [exact Hc|].
    split; [left; auto|]. split; [congruence|]. auto.
  - exists (ChainSpec.fresh_wallet bc a),
      (set_wallets bc (wallets bc ++ [ChainSpec.fresh_wallet bc a])).
    assert (Hg1 : WalletView.get_wallet
                    (set_wallets bc (wallets bc ++ [ChainSpec.fresh_wallet bc a])) a =
                  Some (ChainSpec.fresh_wallet bc a))
      by (apply find_app_fresh; [exact Hg | reflexivity]).
    split; [exact Hc|]. split; [reflexivity|]. split; [exact Hg1|].
    split.
    { unfold WalletView.create_wallet, bind, get, ret.
      unfold WalletView.get_wallet in Hg1. now rewrite Hg1. }
    split; [right; auto|].
    pose proof (step_add_wallet bc a Hm) as (_ & _ & _ & _ & _ & HL & HU & _).
    split; [|split; assumption].
    intros _ Hfull. split.
    + rewrite (find_or_create_missing _ _ Hm). now apply add_wallet_full.
    + cbn [wallets set_wallets]. unfold len in *. rewrite length_app.
      cbn [List.length]. lia.
Qed.

Lemma create_wallet_round_trip_witness :
  exists (w : Wallet) (bc1 : Blockchain),
    WalletView.create_wallet "newcomer" Scenario.full_registry = (Ok w, bc1) /\
    _find_or_create_wallet "newcomer" Scenario.full_registry =
      (Ok (-1), Scenario.full_registry) /\
    ELTT_MAX_WALLETS < len (wallets bc1).
Proof.
  destruct (create_wallet_round_trip "newcomer" Scenario.full_registry)
    as (w & bc1 & E & _ & _ & _ & _ & Hcap & _).
  exists w, bc1. split; [exact E|].
  apply Hcap; [vm_compute; reflexivity | vm_compute; discriminate].
Defined.

Lemma combine_nth_error {A B : Type} (la : list A) (lb : list B) (k : nat) :
  nth_error (combine la lb) k =
    match nth_error la k, nth_error lb k with
    | Some x, Some y => Some (x, y)
    | _, _ => None
    end.
Proof.
  revert lb k; induction la as [|x r IH]; intros lb k.
  - cbn [combine]. now destruct k.
  - destruct lb as [|y s]; cbn [combine].
    + destruct k; cbn [nth_error]; [reflexivity|]. now destruct (nth_error r k).
    + destruct k; cbn [nth_error]; [reflexivity | apply IH].
Qed.

Lemma combine_unzip {A B : Type} (la : list A) (lb : list B) :
  List.length la = List.length lb ->
  map fst (combine la lb) = la /\ map snd (combine la lb) = lb.
Proof.
  revert lb; induction la as [|x r IH]; intros [|y s] H; try discriminate.
  - split; reflexivity.
  - injection H as H. destruct (IH s H) as [H1 H2]. cbn [combine map fst snd].
    split; congruence.
Qed.

(** Property X15.  [list_wallet_tokens] pairs the k-th token type of the wallet with
    its k-th balance and stops at the shorter of the two lists.  For a wallet
    of a synchronized registry it lists every token type of the registry, in
    order, each with the wallet's balance. *)
Theorem list_wallet_tokens_pairs (w : Wallet) :
  List.length (WalletView.list_wallet_tokens w) =
    Nat.min (List.length (tokens w)) (List.length (balances w)) /\
  (forall k : nat,
     nth_error (WalletView.list_wallet_tokens w) k =
       match nth_error (tokens w) k, nth_error (balances w) k with
       | Some t, Some bal => Some (t, bal)
       | _, _ => None
       end) /\
  (forall bc : Blockchain,
     ChainSpec.registry_synced bc -> In w (wallets bc) ->
     map fst (WalletView.list_wallet_tokens w) = token_types bc /\
     map snd (WalletView.list_wallet_tokens w) = balances w).
Proof.
  unfold WalletView.list_wallet_tokens. split; [apply length_combine|].
  split; [intros k; apply combine_nth_error|].
  intros bc Hs Hin. unfold ChainSpec.registry_synced in Hs.
  rewrite Forall_forall in Hs. destruct (Hs w Hin) as (Ht & _ & Hl).
  rewrite <- Ht. apply combine_unzip. now rewrite Ht.
Qed.

End WalletViewProofs.

(** ** What the validator's registry checks mean *)

Section RegistryChecks.
Import Validator ValidatorSpec ValidatorMeaning.

Lemma first_error_none_iff {A : Type} (body : A -> option ValidatorError) (l : list A) :
  first_error body l = None <-> Forall (fun x => body x = None) l.
Proof.
  induction l as [|x r IH]; cbn [first_error].
  - split; [constructor | reflexivity].
  - destruct (body x) as [e|] eqn:E.
    + split; [discriminate|]. intros H. inversion H; congruence.
    + rewrite IH. split; [now constructor | intros H; now inversion H].
Qed.

Lemma existsb_false_iff {A : Type} (f : A -> bool) (l : list A) :
  existsb f l = false <-> Forall (fun x => f x = false) l.
Proof.
  induction l as [|x r IH]; cbn [existsb].
  - split; [constructor | reflexivity].
  - rewrite orb_false_iff, IH. split.
    + intros [? ?]; now constructor.
    + intros H; now inversion H.
Qed.

Lemma forallb_Forall {A : Type} (f : A -> bool) (l : list A) :
  forallb f l = true <-> Forall (fun x => f x = true) l.
Proof. rewrite forallb_forall, Forall_forall. reflexivity. Qed.

Lemma is_address_valid_iff (a : string) : _is_address_valid a = true <-> address_ok a.
Proof.
  unfold _is_address_valid, address_ok.
  assert (Hlen : 0 <= len (chars a)) by (unfold len; lia).
  destruct ((len (chars a) =? 0) || (ELTT_MAX_ADDRESS_LEN <=? len (chars a))) eqn:E.
  - split; [discriminate|]. intros [H _].
    apply orb_true_iff in E as [E|E]; lia.
  - apply orb_false_iff in E as [E1 E2]. rewrite forallb_Forall. split.
    + intros H. split; [lia|]. eapply Forall_impl; [|exact H]. cbv beta.
      intros ch Hc. apply negb_true_iff, orb_false_iff in Hc as [H1 H2]. lia.
    + intros [_ H]. eapply Forall_impl; [|exact H]. cbv beta.
      intros ch [H1 H2]. apply negb_true_iff, orb_false_iff. lia.
Qed.

Lemma is_address_valid_false (a : string) : _is_address_valid a = false <-> ~ address_ok a.
Proof.
  rewrite <- is_address_valid_iff. destruct (_is_address_valid a); split;
    intros; congruence.
Qed.

Lemma nodup_length {A : Type} (dec : forall x y : A, {x = y} + {x <> y}) (l : list A) :
  (List.length (nodup dec l) <= List.length l)%nat /\
  (List.length (nodup dec l) = List.length l -> NoDup l).
Proof.
  induction l as [|x r [IHle IHeq]]; cbn [nodup List.length].
  - split; [lia | constructor].
  - destruct (in_dec dec x r) as [Hin|Hin]; cbn [List.length].
    + split; [lia | intros H; lia].
    + split; [lia|]. intros H. constructor; [exact Hin | apply IHeq; lia].
Qed.

Lemma symbols_unique_iff (state : BlockchainState) :
  _check_token_symbols_unique state = true <-> NoDup (map symbol (token_types state)).
Proof.
  unfold _check_token_symbols_unique, len. rewrite Z.eqb_eq. split.
  - intros H. apply (nodup_length string_dec). lia.
  - intros H. now rewrite (nodup_fixed_point string_dec H).
Qed.

Lemma wallet_body_iff (n : Z) (w : Wallet) :
  (if negb (_is_address_valid (address w)) then Some WALLET_ADDRESS_INVALID
   else if n <? token_count w then Some TX_TOKEN_INDEX_INVALID
   else if existsb (fun bal => (bal <? 0)%float) (slice_to (balances w) (token_count w))
        then Some WALLET_BALANCE_NEGATIVE
   else None) = None <-> wallet_ok n w.
Proof.
  unfold wallet_ok, not_negative. rewrite <- is_address_valid_iff, <- existsb_false_iff.
  destruct (_is_address_valid (address w)); cbn [negb];
    [|split; [discriminate | intros [? _]; discriminate]].
  destruct (n <? token_count w) eqn:E;
    [split; [discriminate | intros (_ & ? & _); lia]|].
  destruct (existsb _ _);
    [split; [discriminate | intros (_ & _ & ?); discriminate]|].
  split; [intros _; repeat split; lia | reflexivity].
Qed.

Lemma pool_body_iff (n : Z) (p : LiquidityPool) :
  (if bad_index n (token_x_index p) then Some POOL_INDEX_INVALID
   else if bad_index n (token_y_index p) then Some POOL_INDEX_INVALID
   else if bad_index n (lp_token_index p) then Some POOL_INDEX_INVALID
   else if (reserve_x p <? 0)%float || (reserve_y p <? 0)%float
        then Some POOL_RESERVE_NEGATIVE
   else None) = None <-> pool_ok n p.
Proof.
  unfold pool_ok, not_negative, bad_index.
  destruct ((token_x_index p <? 0) || (n <=? token_x_index p)) eqn:Ex;
    [apply orb_true_iff in Ex; split; [discriminate | intros (? & _); lia]|].
  destruct ((token_y_index p <? 0) || (n <=? token_y_index p)) eqn:Ey;
    [apply orb_true_iff in Ey; split; [discriminate | intros (_ & ? & _); lia]|].
  destruct ((lp_token_index p <? 0) || (n <=? lp_token_index p)) eqn:El;
    [apply orb_true_iff in El; split; [discriminate | intros (_ & _ & ? & _); lia]|].
  apply orb_false_iff in Ex, Ey, El.
  destruct (reserve_x p <? 0)%float; cbn [orb];
    [split; [discriminate | intros (_ & _ & _ & ? & _); discriminate]|].
  destruct (reserve_y p <? 0)%float;
    [split; [discriminate | intros (_ & _ & _ & _ & ?); discriminate]|].
  split; [intros _; repeat split; lia | reflexivity].
Qed.


Lemma check_wallets_iff (state : BlockchainState) :
  _check_wallets state = None <->
  Forall (wallet_ok (len (token_types state))) (wallets state).
Proof.
  unfold _check_wallets. rewrite first_error_none_iff.
  split; intros H; (eapply Forall_impl; [|exact H]); cbv beta; intros w;
    apply wallet_body_iff.
Qed.

Lemma check_pools_iff (state : BlockchainState) :
  _check_pools state = None <->
  Forall (pool_ok (len (token_types state))) (pools state).
Proof.
  unfold _check_pools. rewrite first_error_none_iff.
  split; intros H; (eapply Forall_impl; [|exact H]); cbv beta; intros p;
    apply pool_body_iff.
Qed.



End RegistryChecks.

Section Verdicts.
Import Validator ValidatorSpec ValidatorMeaning.

Variable py_hash : fingerprint -> Z.

(** The check that produced a verdict other than OK. *)
Lemma verdict_source (state : BlockchainState) (v : ValidatorError) :
  validate_blockchain py_hash (Some state) = v ->
  (v = TOKEN_SYMBOL_DUPLICATE /\ _check_token_symbols_unique state = false) \/
  _check_wallets state = Some v \/ _check_pools state = Some v \/
  _check_stakes state = Some v \/ _check_chain py_hash state = Some v \/ v = OK.
Proof.
  unfold validate_blockchain.
  destruct (_check_token_symbols_unique state); cbn [negb]; [|intros <-; auto].
  destruct (_check_wallets state) as [e|]; [intros <-; auto|].
  destruct (_check_pools state) as [e|]; [intros <-; auto|].
  destruct (_check_stakes state) as [e|]; [intros <-; auto 6|].
  destruct (_check_chain py_hash state) as [e|]; intros <-; auto 7.
Qed.

Lemma check_txs_bad_index (state : BlockchainState) (l : list Transaction)
    (seen : list Z) :
  check_txs py_hash state seen l = Some TX_TOKEN_INDEX_INVALID ->
  exists tx, In tx l /\ ~ 0 <= token_index tx < len (token_types state).
Proof.
  revert seen; induction l as [|tx r IH]; intros seen; cbn [check_txs];
    [discriminate|].
  destruct (tx_field_error state tx) as [e|] eqn:E.
  - intros [= ->]. exists tx. split; [now left|].
    unfold tx_field_error, bad_index in E.
    destruct ((token_index tx <? 0) || (len (token_types state) <=? token_index tx)) eqn:B.
    + apply orb_true_iff in B. lia.
    + destruct (amount tx <? 0)%float; [discriminate|].
      destruct (negb (in_TxKind (kind tx))); [discriminate|].
      destruct (negb (_is_address_valid (from_address tx))); [discriminate|].
      destruct (negb (_is_address_valid (to_address tx))); discriminate.
  - destruct (existsb _ seen); [discriminate|].
    intros H. destruct (IH _ H) as (tx' & Hin & Hb). exists tx'. split; [now right | exact Hb].
Qed.

Lemma chain_loop_bad_index (state : BlockchainState) (prev : option Block) (ts : Z)
    (l : list Block) :
  chain_loop py_hash state prev ts l = Some TX_TOKEN_INDEX_INVALID ->
  exists b tx, In b l /\ In tx (txs b) /\
               ~ 0 <= token_index tx < len (token_types state).
Proof.
  revert prev ts; induction l as [|b r IH]; intros prev ts; cbn [chain_loop];
    [discriminate|].
  assert (Htx : _check_block_transactions py_hash state b = Some TX_TOKEN_INDEX_INVALID ->
                exists b' tx, In b' (b :: r) /\ In tx (txs b') /\
                              ~ 0 <= token_index tx < len (token_types state)).
  { unfold _check_block_transactions.
    destruct (ELTT_MAX_TX_PER_BLOCK <? len (txs b)); [discriminate|].
    intros H. destruct (check_txs_bad_index _ _ _ H) as (tx & Hin & Hb).
    exists b, tx. split; [now left | auto]. }
  assert (Hrest : forall p t,
            match _check_block_transactions py_hash state b with
            | Some e => Some e
            | None => chain_loop py_hash state p t r
            end = Some TX_TOKEN_INDEX_INVALID ->
            exists b' tx, In b' (b :: r) /\ In tx (txs b') /\
                          ~ 0 <= token_index tx < len (token_types state)).
  { intros p t. destruct (_check_block_transactions py_hash state b) as [e|] eqn:E.
    - intros [= ->]. now apply Htx.
    - intros H. destruct (IH _ _ H) as (b' & tx & Hb & Hrest).
      exists b', tx. split; [now right | exact Hrest]. }
  destruct prev as [p|].
  - destruct (negb (index b =? index p + 1)); [discriminate|].
    destruct (negb (bytes_eqb (prev_hash b) (hash p))); [discriminate|].
    cbn [andb]. destruct (timestamp b <? ts); [discriminate|]. apply Hrest.
  - destruct (negb (bytes_eqb (prev_hash b) zero_hash)); [discriminate|].
    cbn [andb]. apply Hrest.
Qed.

Ltac not_from H range :=
  exfalso; apply range in H; cbn [In] in H;
  repeat (destruct H as [H|H]; [discriminate|]); exact H.

Ltac source H :=
  apply verdict_source in H;
  destruct H as [[H _]|[H|[H|[H|[H|H]]]]].

Lemma wallet_defect (state : BlockchainState) (e : ValidatorError) :
  _check_wallets state = Some e ->
  exists w, In w (wallets state) /\
    ((e = WALLET_ADDRESS_INVALID /\ ~ address_ok (address w)) \/
     (e = TX_TOKEN_INDEX_INVALID /\ len (token_types state) < token_count w) \/
     (e = WALLET_BALANCE_NEGATIVE /\
      exists bal, In bal (slice_to (balances w) (token_count w)) /\
                  (bal <? 0)%float = true)).
Proof.
  unfold _check_wallets. intros H. apply first_error_some in H as (w & Hin & H).
  exists w. split; [exact Hin|].
  destruct (_is_address_valid (address w)) eqn:Ea; cbn [negb] in H.
  - destruct (len (token_types state) <? token_count w) eqn:Et.
    + injection H as <-. right; left. split; [reflexivity | lia].
    + destruct (existsb _ _) eqn:Eb; [|discriminate].
      injection H as <-. right; right. split; [reflexivity|].
      apply existsb_exists in Eb. exact Eb.
  - injection H as <-. left. split; [reflexivity|]. now apply is_address_valid_false.
Qed.

Lemma pool_defect (state : BlockchainState) (e : ValidatorError) :
  _check_pools state = Some e ->
  exists p, In p (pools state) /\
    ((e = POOL_INDEX_INVALID /\
      ~ (0 <= token_x_index p < len (token_types state) /\
         0 <= token_y_index p < len (token_types state) /\
         0 <= lp_token_index p < len (token_types state))) \/
     (e = POOL_RESERVE_NEGATIVE /\
      ((reserve_x p <? 0)%float = true \/ (reserve_y p <? 0)%float = true))).
Proof.
  unfold _check_pools, bad_index. intros H.
  apply first_error_some in H as (p & Hin & H). exists p. split; [exact Hin|].
  destruct ((token_x_index p <? 0) || _) eqn:Ex.
  { injection H as <-. left. split; [reflexivity|]. apply orb_true_iff in Ex. lia. }
  destruct ((token_y_index p <? 0) || _) eqn:Ey.
  { injection H as <-. left. split; [reflexivity|]. apply orb_true_iff in Ey. lia. }
  destruct ((lp_token_index p <? 0) || _) eqn:El.
  { injection H as <-. left. split; [reflexivity|]. apply orb_true_iff in El. lia. }
  destruct ((reserve_x p <? 0)%float || (reserve_y p <? 0)%float) eqn:Er; [|discriminate].
  injection H as <-. right. split; [reflexivity|]. now apply orb_true_iff in Er.
Qed.

Lemma stake_defect (state : BlockchainState) (e : ValidatorError) :
  _check_stakes state = Some e ->
  exists s, In s (stakes state) /\
    ((e = STAKE_OWNER_INVALID /\ ~ address_ok (owner s)) \/
     (e = TX_TOKEN_INDEX_INVALID /\
      ~ 0 <= stake_token_index s < len (token_types state)) \/
     (e = STAKE_AMOUNT_NEGATIVE /\ (stake_amount s <? 0)%float = true) \/
     (e = STAKE_TIME_INCONSISTENT /\ lock_until s < start_timestamp s)).
Proof.
  unfold _check_stakes, bad_index. intros H.
  apply first_error_some in H as (s & Hin & H). exists s. split; [exact Hin|].
  destruct (_is_address_valid (owner s)) eqn:Ea; cbn [negb] in H.
  - destruct ((stake_token_index s <? 0) || _) eqn:Ei.
    { injection H as <-. right; left. split; [reflexivity|].
      apply orb_true_iff in Ei. lia. }
    destruct (stake_amount s <? 0)%float eqn:Em.
    { injection H as <-. right; right; left. split; reflexivity. }
    destruct (lock_until s <? start_timestamp s) eqn:Et; [|discriminate].
    injection H as <-. right; right; right. split; [reflexivity | lia].
  - injection H as <-. left. split; [reflexivity|]. now apply is_address_valid_false.
Qed.

(** Property X17.  What a verdict other than OK points at.  Each registry error code
    is returned only when the state has the defect it names: a repeated
    token symbol, a wallet balance that tests negative among the first
    [token_count] ones, a pool with a token index out of range or a reserve
    that tests negative, a stake with an invalid owner, a negative amount or
    a lock time before its start; NO_BLOCKS only for an empty chain.  The
    code TX_TOKEN_INDEX_INVALID is shared by three checks: it is returned for
    a wallet whose token count exceeds the number of token types, for a
    stake with a token index out of range, and for a transaction with a
    token index out of range. *)
Theorem verdict_points_at_defect (state : BlockchainState) :
  let v := validate_blockchain py_hash (Some state) in
  let n := len (token_types state) in
  (v = TOKEN_SYMBOL_DUPLICATE -> ~ NoDup (map symbol (token_types state))) /\
  (v = WALLET_BALANCE_NEGATIVE ->
   exists w bal, In w (wallets state) /\
     In bal (slice_to (balances w) (token_count w)) /\ (bal <? 0)%float = true) /\
  (v = POOL_INDEX_INVALID ->
   exists p, In p (pools state) /\
     ~ (0 <= token_x_index p < n /\ 0 <= token_y_index p < n /\
        0 <= lp_token_index p < n)) /\
  (v = POOL_RESERVE_NEGATIVE ->
   exists p, In p (pools state) /\
     ((reserve_x p <? 0)%float = true \/ (reserve_y p <? 0)%float = true)) /\
  (v = STAKE_OWNER_INVALID ->
   exists s, In s (stakes state) /\ ~ address_ok (owner s)) /\
  (v = STAKE_AMOUNT_NEGATIVE ->
   exists s, In s (stakes state) /\ (stake_amount s <? 0)%float = true) /\
  (v = STAKE_TIME_INCONSISTENT ->
   exists s, In s (stakes state) /\ lock_until s < start_timestamp s) /\
  (v = NO_BLOCKS -> blocks state = []) /\
  (v = TX_TOKEN_INDEX_INVALID ->
   (exists w, In w (wallets state) /\ n < token_count w) \/
   (exists s, In s (stakes state) /\ ~ 0 <= stake_token_index s < n) \/
   (exists b tx, In b (blocks state) /\ In tx (txs b) /\ ~ 0 <= token_index tx < n)).
Proof.
  intros v n. subst v n.
  split; [|split; [|split; [|split; [|split; [|split; [|split; [|split]]]]]]]; intros H.
  - apply verdict_source in H.
    destruct H as [[_ Hf]|[H|[H|[H|[H|H]]]]]; try discriminate.
    + intros Hn. apply symbols_unique_iff in Hn. congruence.
    + not_from H check_wallets_range.
    + not_from H check_pools_range.
    + not_from H check_stakes_range.
    + not_from H (check_chain_range py_hash).
  - source H; try discriminate.
    + destruct (wallet_defect _ _ H) as (w & Hin & [[? _]|[[? _]|[_ (bal & Hb & Hneg)]]]);
        try discriminate. eauto.
    + not_from H check_pools_range.
    + not_from H check_stakes_range.
    + not_from H (check_chain_range py_hash).
  - source H; try discriminate.
    + not_from H check_wallets_range.
    + destruct (pool_defect _ _ H) as (p & Hin & [[_ Hd]|[? _]]); try discriminate. eauto.
    + not_from H check_stakes_range.
    + not_from H (check_chain_range py_hash).
  - source H; try discriminate.
    + not_from H check_wallets_range.
    + destruct (pool_defect _ _ H) as (p & Hin & [[? _]|[_ Hd]]); try discriminate. eauto.
    + not_from H check_stakes_range.
    + not_from H (check_chain_range py_hash).
  - source H; try discriminate.
    + not_from H check_wallets_range.
    + not_from H check_pools_range.
    + destruct (stake_defect _ _ H) as (s & Hin & [[_ Hd]|[[? _]|[[? _]|[? _]]]]);
        try discriminate. eauto.
    + not_from H (check_chain_range py_hash).
  - source H; try discriminate.
    + not_from H check_wallets_range.
    + not_from H check_pools_range.
    + destruct (stake_defect _ _ H) as (s & Hin & [[? _]|[[? _]|[[_ Hd]|[? _]]]]);
        try discriminate. eauto.
    + not_from H (check_chain_range py_hash).
  - source H; try discriminate.
    + not_from H check_wallets_range.
    + not_from H check_pools_range.
    + destruct (stake_defect _ _ H) as (s & Hin & [[? _]|[[? _]|[[? _]|[_ Hd]]]]);
        try discriminate. eauto.
    + not_from H (check_chain_range py_hash).
  - source H; try discriminate.
    + not_from H check_wallets_range.
    + not_from H check_pools_range.
    + not_from H check_stakes_range.
    + unfold _check_chain in H. destruct (blocks state) as [|g r]; [reflexivity|].
      exfalso. apply chain_loop_range in H. cbn [In] in H.
      repeat (destruct H as [H|H]; [discriminate|]). exact H.
  - source H; try discriminate.
    + destruct (wallet_defect _ _ H) as (w & Hin & [[? _]|[[_ Hd]|[? _]]]);
        try discriminate. left. eauto.
    + not_from H check_pools_range.
    + destruct (stake_defect _ _ H) as (s & Hin & [[? _]|[[_ Hd]|[[? _]|[? _]]]]);
        try discriminate. right; left. eauto.
    + right; right. unfold _check_chain in H.
      destruct (blocks state) as [|g r] eqn:Eb; [discriminate|].
      rewrite <- Eb in H. rewrite <- Eb. exact (chain_loop_bad_index _ _ _ _ H).
Qed.

(** *** Block indices are compared, never read *)

Lemma check_txs_shift (k : Z) (state : BlockchainState) (l : list Transaction)
    (seen : list Z) :
  check_txs py_hash (shift_indices k state) seen l = check_txs py_hash state seen l.
Proof.
  revert seen; induction l as [|tx r IH]; intros seen; cbn [check_txs]; [reflexivity|].
  change (tx_field_error (shift_indices k state) tx) with (tx_field_error state tx).
  destruct (tx_field_error state tx); [reflexivity|].
  destruct (existsb _ seen); [reflexivity | apply IH].
Qed.

Lemma block_check_shift (k : Z) (state : BlockchainState) (b : Block) :
  _check_block_transactions py_hash (shift_indices k state) (shift_block k b) =
  _check_block_transactions py_hash state b.
Proof.
  unfold _check_block_transactions. cbn [txs shift_block].
  destruct (ELTT_MAX_TX_PER_BLOCK <? len (txs b)); [reflexivity | apply check_txs_shift].
Qed.

Lemma chain_loop_shift (k : Z) (state : BlockchainState) (prev : option Block) (ts : Z)
    (l : list Block) :
  chain_loop py_hash (shift_indices k state) (option_map (shift_block k) prev) ts
    (map (shift_block k) l) =
  chain_loop py_hash state prev ts l.
Proof.
  revert prev ts; induction l as [|b r IH]; intros prev ts; cbn [map chain_loop];
    [reflexivity|].
  rewrite block_check_shift.
  specialize (IH (Some b) (timestamp b)). cbn [option_map] in IH.
  change (timestamp (shift_block k b)) with (timestamp b). rewrite IH.
  destruct prev as [p|]; cbn [option_map]; [|reflexivity].
  cbn [index prev_hash hash timestamp shift_block].
  replace (index b + k =? index p + k + 1) with (index b =? index p + 1) by lia.
  reflexivity.
Qed.

(** Property X18.  The validator compares the index of a block with the index of its
    predecessor and reads no index otherwise: adding the same number to the
    index of every block changes no verdict.  In particular it does not ask
    the first block to have index 0. *)
Theorem verdict_ignores_index_origin (k : Z) (state : BlockchainState) :
  validate_blockchain py_hash (Some (shift_indices k state)) =
  validate_blockchain py_hash (Some state).
Proof.
  unfold validate_blockchain.
  change (_check_token_symbols_unique (shift_indices k state))
    with (_check_token_symbols_unique state).
  change (_check_wallets (shift_indices k state)) with (_check_wallets state).
  change (_check_pools (shift_indices k state)) with (_check_pools state).
  change (_check_stakes (shift_indices k state)) with (_check_stakes state).
  assert (Hc : _check_chain py_hash (shift_indices k state) = _check_chain py_hash state).
  { unfold _check_chain. cbn [blocks shift_indices].
    pose proof (chain_loop_shift k state None 0 (blocks state)) as H.
    cbn [option_map] in H. rewrite H. now destruct (blocks state). }
  now rewrite Hc.
Qed.

End Verdicts.

Lemma verdict_points_at_defect_witness :
  exists p : Validator.LiquidityPool,
    In p (Validator.pools (ValidatorSpec.snapshot Fixture.pooled_wrong)) /\
    ~ (0 <= Validator.token_x_index p < 2 /\ 0 <= Validator.token_y_index p < 2 /\
       0 <= Validator.lp_token_index p < 2).
Proof.
  pose proof (verdict_points_at_defect ValidatorSpec.demo_hash
                (ValidatorSpec.snapshot Fixture.pooled_wrong)) as H.
  cbv zeta in H. destruct H as (_ & _ & H & _).
  apply H. vm_compute. reflexivity.
Defined.

(** ** The pool view and the launcher *)

Section PoolViewProofs.
Import Ledger.

Lemma get_pool_cases (bc : Blockchain) (i : Z) :
  ((i < 0 \/ len (pools bc) <= i) /\ PoolView.get_pool bc i = Ok None) \/
  (0 <= i < len (pools bc) /\
   exists p, nth_error (pools bc) (Z.to_nat i) = Some p /\
             Py.index (pools bc) i = Some (Z.to_nat i) /\
             getitem (pools bc) i = Ok p /\
             PoolView.get_pool bc i = Ok (Some p)).
Proof.
  unfold PoolView.get_pool.
  destruct ((i <? 0) || (len (pools bc) <=? i)) eqn:E.
  - left. apply orb_true_iff in E. split; [lia | reflexivity].
  - right. apply orb_false_iff in E.
    assert (Hr : 0 <= i < len (pools bc)) by lia. split; [exact Hr|].
    destruct (getitem_in_range (pools bc) i Hr) as (p & Hn & Hg).
    exists p. split; [exact Hn|]. split; [now apply index_nonneg|].
    split; [exact Hg|]. now rewrite Hg.
Qed.

Lemma pool_update_frame (bc : Blockchain) (k : nat) (p p' : LiquidityPool) :
  nth_error (pools bc) k = Some p ->
  let bc' := PoolView.set_pools bc (set_nth (pools bc) k p') in
  blocks bc' = blocks bc /\ wallets bc' = wallets bc /\
  token_types bc' = token_types bc /\ stakes bc' = stakes bc /\
  List.length (pools bc') = List.length (pools bc) /\
  (forall j, j <> k -> nth_error (pools bc') j = nth_error (pools bc) j) /\
  nth_error (pools bc') k = Some p'.
Proof.
  intros Hn bc'. subst bc'. cbn [blocks wallets token_types stakes pools PoolView.set_pools].
  repeat (split; [reflexivity|]).
  split; [apply length_set_nth|].
  split; [intros j Hj; now apply nth_error_set_nth_neq|].
  apply nth_error_set_nth_eq. apply nth_error_Some. congruence.
Qed.

Lemma add_liquidity_run (i : Z) (ax ay : float) (bc : Blockchain) :
  ((i < 0 \/ len (pools bc) <= i) /\ PoolView.add_liquidity i ax ay bc = (Ok tt, bc)) \/
  (0 <= i < len (pools bc) /\
   exists p, nth_error (pools bc) (Z.to_nat i) = Some p /\
     PoolView.add_liquidity i ax ay bc =
       (Ok tt,
        PoolView.set_pools bc
          (set_nth (pools bc) (Z.to_nat i)
             (PoolView.set_reserves p (reserve_x p + ax) (reserve_y p + ay))))).
Proof.
  unfold PoolView.add_liquidity, bind, get, lift, put, ret.
  destruct (get_pool_cases bc i) as [[Hr ->]|(Hr & p & Hn & Hi & _ & ->)].
  - left. split; [exact Hr | reflexivity].
  - right. split; [exact Hr|]. exists p. split; [exact Hn|].
    unfold setitem. now rewrite Hi.
Qed.

Lemma remove_liquidity_run (i : Z) (sx sy : float) (bc : Blockchain) :
  ((i < 0 \/ len (pools bc) <= i) /\ PoolView.remove_liquidity i sx sy bc = (Ok tt, bc)) \/
  (0 <= i < len (pools bc) /\
   exists p, nth_error (pools bc) (Z.to_nat i) = Some p /\
     PoolView.remove_liquidity i sx sy bc =
       (Ok tt,
        PoolView.set_pools bc
          (set_nth (pools bc) (Z.to_nat i)
             (PoolView.set_reserves p (ChainSpec.clamped (reserve_x p - sx))
                (ChainSpec.clamped (reserve_y p - sy)))))).
Proof.
  unfold PoolView.remove_liquidity, bind, get, lift, put, ret.
  destruct (get_pool_cases bc i) as [[Hr ->]|(Hr & p & Hn & Hi & _ & ->)].
  - left. split; [exact Hr | reflexivity].
  - right. split; [exact Hr|]. exists p. split; [exact Hn|].
    unfold setitem. now rewrite Hi.
Qed.

Lemma clamped_not_negative (x : float) : (ChainSpec.clamped x <? 0)%float = false.
Proof.
  unfold ChainSpec.clamped. destruct (x <? 0)%float eqn:E; [reflexivity | exact E].
Qed.

Lemma snapshot_pools_ok (bc : Blockchain) :
  Validator._check_pools (ValidatorSpec.snapshot bc) = None <->
  Forall (fun p => ValidatorMeaning.pool_ok (len (token_types bc))
                     (ValidatorSpec.snapshot_pool p)) (pools bc).
Proof.
  rewrite check_pools_iff. cbn [Validator.pools Validator.token_types ValidatorSpec.snapshot].
  rewrite Forall_map. unfold Validator.len, len. rewrite length_map. reflexivity.
Qed.

(** Property X19.  [add_liquidity] never raises.  For a pool index that is negative
    or not below the number of pools it changes nothing; otherwise it adds
    the two amounts to the reserves of that pool and changes nothing else:
    not the pool's token indices, no other pool, no block, wallet, token type
    or stake. *)
Theorem add_liquidity_touches_one_pool (i : Z) (ax ay : float) (bc : Blockchain) :
  exists bc' : Blockchain,
    PoolView.add_liquidity i ax ay bc = (Ok tt, bc') /\
    blocks bc' = blocks bc /\ wallets bc' = wallets bc /\
    token_types bc' = token_types bc /\ stakes bc' = stakes bc /\
    List.length (pools bc') = List.length (pools bc) /\
    (i < 0 \/ len (pools bc) <= i -> bc' = bc) /\
    (forall j : nat, Z.of_nat j <> i -> nth_error (pools bc') j = nth_error (pools bc) j) /\
    (0 <= i < len (pools bc) ->
     exists p,
       nth_error (pools bc) (Z.to_nat i) = Some p /\
       nth_error (pools bc') (Z.to_nat i) =
         Some (mkLiquidityPool (token_x_index p) (token_y_index p)
                 (reserve_x p + ax) (reserve_y p + ay) (lp_token_index p))).
Proof.
  destruct (add_liquidity_run i ax ay bc) as [[Hr E]|(Hr & p & Hn & E)].
  - exists bc. split; [exact E|]. repeat (split; [reflexivity|]). intros; lia.
  - eexists. split; [exact E|].
    destruct (pool_update_frame bc (Z.to_nat i) p
                (PoolView.set_reserves p (reserve_x p + ax) (reserve_y p + ay)) Hn)
      as (B & W & T & S & L & F & N).
    repeat (split; [assumption|]).
    split; [lia|]. split; [intros j Hj; apply F; lia|].
    intros _. exists p. split; [exact Hn | exact N].
Qed.

(** Property X20.  [remove_liquidity] never raises and touches at most the reserves
    of the addressed pool, like [add_liquidity]; it subtracts the two shares
    and replaces a result that tests negative by zero.  So neither reserve of
    the pool tests negative afterwards, whatever the shares, and a state whose
    pools pass the validator's pool check still passes it. *)
Theorem remove_liquidity_clamps (i : Z) (sx sy : float) (bc : Blockchain) :
  exists bc' : Blockchain,
    PoolView.remove_liquidity i sx sy bc = (Ok tt, bc') /\
    blocks bc' = blocks bc /\ wallets bc' = wallets bc /\
    token_types bc' = token_types bc /\ stakes bc' = stakes bc /\
    List.length (pools bc') = List.length (pools bc) /\
    (i < 0 \/ len (pools bc) <= i -> bc' = bc) /\
    (forall j : nat, Z.of_nat j <> i -> nth_error (pools bc') j = nth_error (pools bc) j) /\
    (0 <= i < len (pools bc) ->
     exists p p',
       nth_error (pools bc) (Z.to_nat i) = Some p /\
       nth_error (pools bc') (Z.to_nat i) = Some p' /\
       p' = mkLiquidityPool (token_x_index p) (token_y_index p)
              (ChainSpec.clamped (reserve_x p - sx))
              (ChainSpec.clamped (reserve_y p - sy)) (lp_token_index p) /\
       (reserve_x p' <? 0)%float = false /\ (reserve_y p' <? 0)%float = false) /\
    (Validator._check_pools (ValidatorSpec.snapshot bc) = None ->
     Validator._check_pools (ValidatorSpec.snapshot bc') = None).
Proof.
  destruct (remove_liquidity_run i sx sy bc) as [[Hr E]|(Hr & p & Hn & E)].
  - exists bc. split; [exact E|]. repeat (split; [reflexivity|]).
    split; [intros; lia | auto].
  - eexists. split; [exact E|].
    set (p' := PoolView.set_reserves p (ChainSpec.clamped (reserve_x p - sx))
                 (ChainSpec.clamped (reserve_y p - sy))).
    destruct (pool_update_frame bc (Z.to_nat i) p p' Hn) as (B & W & T & S & L & F & N).
    repeat (split; [assumption|]).
    split; [lia|]. split; [intros j Hj; apply F; lia|].
    split.
    + intros _. exists p, p'. split; [exact Hn|]. split; [exact N|].
      split; [reflexivity|]. split; apply clamped_not_negative.
    + rewrite !snapshot_pools_ok. cbn [token_types pools PoolView.set_pools].
      intros H. apply Forall_set_nth; [exact H|].
      rewrite Forall_forall in H. specialize (H p (nth_error_In _ _ Hn)).
      destruct H as (Hx & Hy & Hl & _ & _).
      unfold ValidatorMeaning.pool_ok, ValidatorMeaning.not_negative.
      cbn. repeat (split; [assumption|]). split; apply clamped_not_negative.
Qed.

Lemma remove_liquidity_clamps_witness :
  exists bc' : Blockchain,
    PoolView.remove_liquidity 0 9 2 Fixture.pooled = (Ok tt, bc') /\
    nth_error (pools bc') 0 = Some (mkLiquidityPool 0 1 0%float 5%float 0).
Proof.
  destruct (remove_liquidity_clamps 0 9 2 Fixture.pooled)
    as (bc' & E & _ & _ & _ & _ & _ & _ & _ & Hin & _).
  exists bc'. split; [exact E|].
  destruct Hin as (p & p' & Hp & Hp' & -> & _);
    [vm_compute; split; [discriminate | reflexivity]|].
  vm_compute in Hp. injection Hp as <-.
  change (Z.to_nat 0) with 0%nat in Hp'. rewrite Hp'. vm_compute. reflexivity.
Defined.

Lemma first_error_app {A : Type} (body : A -> option Validator.ValidatorError)
    (l : list A) (x : A) :
  Validator.first_error body (l ++ [x]) =
    match Validator.first_error body l with
    | Some e => Some e
    | None => body x
    end.
Proof.
  induction l as [|y r IH]; cbn [app Validator.first_error].
  - now destruct (body x).
  - destruct (body y); [reflexivity | exact IH].
Qed.

(** Property X21.  [create_pool] never raises and tests nothing: neither the token
    indices nor the number of pools.  It appends a pool with both reserves
    zero.  On a state whose pools pass the validator's pool check, the new
    state passes it exactly when the three indices given are token indices
    of the registry; otherwise the validator answers POOL_INDEX_INVALID. *)
Theorem create_pool_checks_nothing (x y lp : Z) (bc : Blockchain) :
  let pool := mkLiquidityPool x y 0%float 0%float lp in
  let bc' := PoolView.set_pools bc (pools bc ++ [pool]) in
  let n := len (token_types bc) in
  PoolView.create_pool x y lp bc = (Ok pool, bc') /\
  blocks bc' = blocks bc /\ wallets bc' = wallets bc /\
  token_types bc' = token_types bc /\ stakes bc' = stakes bc /\
  (Validator._check_pools (ValidatorSpec.snapshot bc) = None ->
   Validator._check_pools (ValidatorSpec.snapshot bc') =
     if (0 <=? x) && (x <? n) && (0 <=? y) && (y <? n) && (0 <=? lp) && (lp <? n)
     then None else Some Validator.POOL_INDEX_INVALID).
Proof.
  intros pool bc' n. split; [reflexivity|]. repeat (split; [reflexivity|]).
  unfold Validator._check_pools.
  cbn [Validator.pools Validator.token_types ValidatorSpec.snapshot bc'
       pools token_types PoolView.set_pools].
  rewrite map_app. cbn [map]. rewrite first_error_app. intros ->.
  cbn [ValidatorSpec.snapshot_pool pool token_x_index token_y_index lp_token_index
       reserve_x reserve_y Validator.token_x_index Validator.token_y_index
       Validator.lp_token_index Validator.reserve_x Validator.reserve_y].
  unfold Validator.bad_index, Validator.len. rewrite length_map. fold (len (token_types bc)).
  fold n.
  replace ((0 <? 0)%float || (0 <? 0)%float) with false by reflexivity.
  destruct (x <? 0) eqn:Ex1, (n <=? x) eqn:Ex2, (y <? 0) eqn:Ey1, (n <=? y) eqn:Ey2,
           (lp <? 0) eqn:El1, (n <=? lp) eqn:El2; cbn [orb];
    repeat match goal with
           | |- context [?a <=? ?b] => destruct (Z.leb_spec a b)
           | |- context [?a <? ?b] => destruct (Z.ltb_spec a b)
           end; cbn [andb]; try reflexivity; lia.
Qed.

Lemma create_pool_checks_nothing_witness :
  PoolView.create_pool 0 9 0 Fixture.pooled =
    (Ok (mkLiquidityPool 0 9 0%float 0%float 0), Fixture.pooled_wrong) /\
  Validator._check_pools (ValidatorSpec.snapshot Fixture.pooled_wrong) =
    Some Validator.POOL_INDEX_INVALID.
Proof.
  pose proof (create_pool_checks_nothing 0 9 0 Fixture.pooled) as H. cbv zeta in H.
  destruct H as (E & _ & _ & _ & _ & H). split; [exact E|].
  unfold Fixture.pooled_wrong. rewrite H; vm_compute; reflexivity.
Defined.

(** Property X22.  The launcher module's own copies of [create_pool], [add_liquidity]
    and [remove_liquidity], which test the pool index in place, behave on
    every input as the pool module's functions, which go through [get_pool];
    and the swap builder ignores its [token_out_index] argument. *)
Theorem launcher_agrees_with_pool_view :
  (forall (x y lp : Z) (bc : Blockchain),
     Launcher.create_pool x y lp bc = PoolView.create_pool x y lp bc) /\
  (forall (i : Z) (ax ay : float) (bc : Blockchain),
     Launcher.add_liquidity i ax ay bc = PoolView.add_liquidity i ax ay bc) /\
  (forall (i : Z) (sx sy : float) (bc : Blockchain),
     Launcher.remove_liquidity i sx sy bc = PoolView.remove_liquidity i sx sy bc) /\
  (forall (f t : string) (a : float) (tin out1 out2 : Z) (m : string),
     Launcher.build_swap_tx f t a tin out1 m = Launcher.build_swap_tx f t a tin out2 m).
Proof.
  split; [reflexivity|]. split; [|split; [|reflexivity]].
  - intros i ax ay bc.
    unfold Launcher.add_liquidity, PoolView.add_liquidity, PoolView.get_pool,
      bind, get, lift, put, ret.
    destruct ((i <? 0) || (len (pools bc) <=? i)); [reflexivity|].
    destruct (getitem (pools bc) i); reflexivity.
  - intros i sx sy bc.
    unfold Launcher.remove_liquidity, PoolView.remove_liquidity, PoolView.get_pool,
      bind, get, lift, put, ret.
    destruct ((i <? 0) || (len (pools bc) <=? i)); [reflexivity|].
    destruct (getitem (pools bc) i); reflexivity.
Qed.

End PoolViewProofs.

(** ** The registry as the validator sees it *)

Section RegistryAndValidator.
Import Ledger.

Lemma NoDup_snoc {A : Type} (l : list A) (x : A) :
  NoDup (l ++ [x]) <-> NoDup l /\ ~ In x l.
Proof.
  induction l as [|y r IH]; cbn [app].
  - split; [intros _; split; [constructor | intros []] | intros _; repeat constructor; intros []].
  - rewrite !NoDup_cons_iff, IH, in_app_iff. cbn [In]. intuition congruence.
Qed.

Lemma snapshot_symbols (l : list TokenType) :
  map Validator.symbol (map ValidatorSpec.snapshot_token l) = map symbol l.
Proof. rewrite map_map. apply map_ext. reflexivity. Qed.

Lemma add_token_type_room (nm sym : string) (dec : Z) (k : TokenKind) (ebf : float)
    (bc : Blockchain) :
  len (token_types bc) < ELTT_MAX_TOKEN_TYPES ->
  token_types (snd (add_token_type nm sym dec k ebf bc)) =
    token_types bc ++ [mkTokenType (str_take 64 nm) (str_take 16 sym) dec k ebf] /\
  wallets (snd (add_token_type nm sym dec k ebf bc)) =
    map (fun w =>
           mkWallet (address w)
             (len (token_types bc ++
                   [mkTokenType (str_take 64 nm) (str_take 16 sym) dec k ebf]))
             (token_types bc ++
              [mkTokenType (str_take 64 nm) (str_take 16 sym) dec k ebf])
             (balances w ++ [0%float])) (wallets bc).
Proof.
  intros H. unfold add_token_type, bind, get, put, ret.
  replace (ELTT_MAX_TOKEN_TYPES <=? len (token_types bc)) with false by (symmetry; lia).
  split; reflexivity.
Qed.

(** Property X23.  [add_token_type] does not compare the new symbol with the
    registered ones.  Below capacity, the state after it passes the
    validator's symbol check exactly when the state before did and the first
    16 characters of the new symbol are not a registered symbol; when they
    are, also for a longer symbol that differs after its sixteenth
    character, the validator answers TOKEN_SYMBOL_DUPLICATE. *)
Theorem add_token_type_admits_duplicate_symbol (nm sym : string) (dec : Z)
    (k : TokenKind) (ebf : float) (bc : Blockchain) :
  len (token_types bc) < ELTT_MAX_TOKEN_TYPES ->
  (Validator._check_token_symbols_unique
     (ValidatorSpec.snapshot (snd (add_token_type nm sym dec k ebf bc))) = true <->
   Validator._check_token_symbols_unique (ValidatorSpec.snapshot bc) = true /\
   ~ In (str_take 16 sym) (map symbol (token_types bc))) /\
  (In (str_take 16 sym) (map symbol (token_types bc)) ->
   forall py_hash : Validator.fingerprint -> Z,
     Validator.validate_blockchain py_hash
       (Some (ValidatorSpec.snapshot (snd (add_token_type nm sym dec k ebf bc)))) =
     Validator.TOKEN_SYMBOL_DUPLICATE).
Proof.
  intros Hroom. destruct (add_token_type_room nm sym dec k ebf bc Hroom) as [HT _].
  assert (Hiff : Validator._check_token_symbols_unique
                   (ValidatorSpec.snapshot (snd (add_token_type nm sym dec k ebf bc))) = true <->
                 Validator._check_token_symbols_unique (ValidatorSpec.snapshot bc) = true /\
                 ~ In (str_take 16 sym) (map symbol (token_types bc))).
  { rewrite !symbols_unique_iff.
    cbn [Validator.token_types ValidatorSpec.snapshot].
    rewrite !snapshot_symbols, HT, map_app. cbn [map symbol]. apply NoDup_snoc. }
  split; [exact Hiff|].
  intros Hin py_hash. unfold Validator.validate_blockchain.
  destruct (Validator._check_token_symbols_unique
              (ValidatorSpec.snapshot (snd (add_token_type nm sym dec k ebf bc)))) eqn:E;
    [|reflexivity].
  exfalso. destruct (proj1 Hiff eq_refl) as [_ Hn]. exact (Hn Hin).
Qed.

Lemma add_token_type_admits_duplicate_symbol_witness :
  Validator.validate_blockchain ValidatorSpec.demo_hash
    (Some (ValidatorSpec.snapshot
             (snd (add_token_type "Gold bar" "GOLD-2024-SERIES-B" 2 GENERIC 1
                     (snd (add_token_type "Gold coin" "GOLD-2024-SERIES-A" 2 GENERIC 1
                             Scenario.registry2)))))) =
  Validator.TOKEN_SYMBOL_DUPLICATE.
Proof.
  apply (add_token_type_admits_duplicate_symbol "Gold bar" "GOLD-2024-SERIES-B" 2
           GENERIC 1
           (snd (add_token_type "Gold coin" "GOLD-2024-SERIES-A" 2 GENERIC 1
                   Scenario.registry2))).
  - vm_compute. reflexivity.
  - vm_compute. right. left. reflexivity.
Defined.

(** Property X24.  The state that [init_blockchain] and [create_genesis] build, for
    any owner address and any timestamp that fits 64 bits, is one the
    validator accepts, whatever the hash function of the interpreter. *)
Theorem fresh_chain_passes_validator (py_hash : Validator.fingerprint -> Z)
    (owner_address : string) (ts : Z) :
  0 <= ts < 2 ^ 64 ->
  Validator.validate_blockchain py_hash
    (Some (ValidatorSpec.snapshot
             (snd (create_genesis owner_address ts init_blockchain)))) = Validator.OK.
Proof.
  intros Hts. destruct (genesis_hash ts Hts) as [h Hh].
  unfold create_genesis, bind, lift, ret, build_genesis_block.
  rewrite Hh. cbn [rbind]. rewrite (genesis_accepted init_blockchain ts h Hh).
  cbn [snd]. vm_compute. reflexivity.
Qed.

Lemma fresh_chain_passes_validator_witness :
  Validator.validate_blockchain ValidatorSpec.demo_hash
    (Some (ValidatorSpec.snapshot
             (snd (create_genesis "owner" 1700000000 init_blockchain)))) = Validator.OK.
Proof.
  apply (fresh_chain_passes_validator ValidatorSpec.demo_hash "owner" 1700000000). lia.
Defined.

Lemma synced_aligned (bc : Blockchain) :
  ChainSpec.registry_synced bc -> Spec.balances_aligned bc = true.
Proof.
  unfold ChainSpec.registry_synced, Spec.balances_aligned. intros H.
  apply forallb_forall. rewrite Forall_forall in H. intros w Hw.
  destruct (H w Hw) as (_ & _ & Hl). now apply Nat.eqb_eq.
Qed.

Lemma synced_add_token_type (nm sym : string) (dec : Z) (k : TokenKind) (ebf : float)
    (bc : Blockchain) :
  ChainSpec.registry_synced bc ->
  ChainSpec.registry_synced (snd (add_token_type nm sym dec k ebf bc)).
Proof.
  intros H. destruct (Z_lt_le_dec (len (token_types bc)) ELTT_MAX_TOKEN_TYPES) as [R|R].
  - destruct (add_token_type_room nm sym dec k ebf bc R) as [HT HW].
    unfold ChainSpec.registry_synced. rewrite HT, HW. apply Forall_map.
    eapply Forall_impl; [|exact H]. cbv beta. intros w (_ & _ & Hl).
    unfold ChainSpec.wallet_synced. cbn [tokens token_count balances].
    split; [reflexivity|]. split; [reflexivity|].
    rewrite !length_app. cbn [List.length]. lia.
  - unfold add_token_type, bind, get, ret.
    replace (ELTT_MAX_TOKEN_TYPES <=? len (token_types bc)) with true by (symmetry; lia).
    exact H.
Qed.

Lemma synced_append_block (block : Block) (bc : Blockchain) :
  ChainSpec.registry_synced bc ->
  ChainSpec.registry_synced (snd (append_block block bc)).
Proof.
  intros H. unfold append_block, bind, get, lift, put, ret.
  destruct (_validate_block bc block) as [[|]|e]; cbn [negb snd]; try exact H.
  destruct (apply_all (txs block) (set_blocks bc (blocks bc ++ [block])))
    as [[u|e] bc1] eqn:E; cbn [snd];
    apply (apply_all_frame _ _ _ _ E); exact H.
Qed.

Lemma synced_create_wallet (a : string) (bc : Blockchain) :
  ChainSpec.registry_synced bc ->
  ChainSpec.registry_synced (snd (WalletView.create_wallet a bc)).
Proof.
  intros H. destruct (create_wallet_cases a bc) as [(w & _ & ->)|(_ & Hm & ->)];
    cbn [snd]; [exact H|].
  apply (step_add_wallet bc a Hm). exact H.
Qed.

Lemma slice_to_all {A : Type} (l : list A) :
  slice_to l (Z.of_nat (List.length l)) = l.
Proof.
  unfold slice_to. replace (Z.of_nat (List.length l) <? 0) with false
    by (symmetry; apply Z.ltb_ge; lia).
  rewrite Nat2Z.id. apply firstn_all.
Qed.

Lemma synced_wallet_check (bc : Blockchain) :
  ChainSpec.registry_synced bc ->
  (Validator._check_wallets (ValidatorSpec.snapshot bc) = None <->
   Forall (fun w => ValidatorMeaning.address_ok (address w) /\
                    Forall ValidatorMeaning.not_negative (balances w)) (wallets bc)).
Proof.
  intros H. rewrite check_wallets_iff.
  cbn [Validator.wallets Validator.token_types ValidatorSpec.snapshot].
  rewrite Forall_map. unfold ChainSpec.registry_synced in H.
  rewrite !Forall_forall in *. split; intros Hw w Hin;
    specialize (Hw w Hin); destruct (H w Hin) as (_ & Hc & Hl);
    unfold ValidatorMeaning.wallet_ok in *;
    cbn [ValidatorSpec.snapshot_wallet Validator.address Validator.token_count
         Validator.balances] in *.
  - destruct Hw as (Ha & _ & Hb). split; [exact Ha|].
    rewrite Hc in Hb. unfold len in Hb. rewrite <- Hl in Hb.
    now rewrite (slice_to_all (balances w)) in Hb.
  - destruct Hw as [Ha Hb]. split; [exact Ha|].
    split; [rewrite Hc; unfold Validator.len, len; rewrite length_map; lia|].
    rewrite Hc. unfold len. rewrite <- Hl.
    now rewrite (slice_to_all (balances w)).
Qed.

(** Property X25.  Every wallet of the registry carries the registry's list of token
    types, its length as token count, and one balance per token type.  This
    holds in the state [init_blockchain] returns and is kept by
    [add_token_type], by [append_block] (accepted, rejected or interrupted)
    and by [create_wallet].  In such a state the balance vectors are aligned,
    and the validator's wallet check, which looks at the first [token_count]
    balances of a wallet, looks at all of them. *)
Theorem registry_stays_synced :
  ChainSpec.registry_synced init_blockchain /\
  (forall (nm sym : string) (dec : Z) (k : TokenKind) (ebf : float) (bc : Blockchain),
     ChainSpec.registry_synced bc ->
     ChainSpec.registry_synced (snd (add_token_type nm sym dec k ebf bc))) /\
  (forall (block : Block) (bc : Blockchain),
     ChainSpec.registry_synced bc ->
     ChainSpec.registry_synced (snd (append_block block bc))) /\
  (forall (a : string) (bc : Blockchain),
     ChainSpec.registry_synced bc ->
     ChainSpec.registry_synced (snd (WalletView.create_wallet a bc))) /\
  (forall bc : Blockchain,
     ChainSpec.registry_synced bc ->
     Spec.balances_aligned bc = true /\
     (Validator._check_wallets (ValidatorSpec.snapshot bc) = None <->
      Forall (fun w => ValidatorMeaning.address_ok (address w) /\
                       Forall ValidatorMeaning.not_negative (balances w))
             (wallets bc))).
Proof.
  split; [constructor|].
  split; [exact synced_add_token_type|].
  split; [exact synced_append_block|].
  split; [exact synced_create_wallet|].
  intros bc H. split; [now apply synced_aligned | now apply synced_wallet_check].
Qed.

End RegistryAndValidator.

(** ** Built transactions *)

Section Builders.
Import Ledger.

Lemma pack_int32_length (z : Z) (b : bytes) :
  pack_int32 z = Ok b -> List.length b = 4%nat.
Proof.
  unfold pack_int32. destruct ((- 2 ^ 31 <=? z) && (z <? 2 ^ 31)); [|discriminate].
  intros [= <-]. reflexivity.
Qed.

Lemma utf8_length_lower (s : string) :
  Z.of_nat (String.length s) <= len (utf8_encode s).
Proof.
  unfold len. induction s as [|c r IH]; cbn [utf8_encode String.length List.length].
  - lia.
  - rewrite length_app.
    assert (Hc : (1 <= List.length (utf8_char c))%nat).
    { unfold utf8_char. destruct (Z.of_N (N_of_ascii c) <? 128); cbn [List.length]; lia. }
    lia.
Qed.

(** Property X26.  A serialized transaction is 19 bytes longer than the UTF-8
    encodings of its two addresses and its memo together: three terminating
    zero bytes, 8 bytes of amount (whatever its bit pattern, should it be a
    NaN), 4 of token index and 4 of kind.  An
    encoding has at least one byte per character.  So the size handed to the
    two byte-value functions of the energy formula is at least 19, and their
    branch for a size that is not positive is never taken. *)
Theorem serialized_length (nan_bits : Z) (tx : Transaction) (ser : bytes) :
  _serialize_transaction nan_bits tx = Ok ser ->
  len ser =
    len (utf8_encode (from_address tx)) + len (utf8_encode (to_address tx)) +
    len (utf8_encode (memo tx)) + 19 /\
  Z.of_nat (String.length (from_address tx)) + Z.of_nat (String.length (to_address tx)) +
    Z.of_nat (String.length (memo tx)) + 19 <= len ser /\
  _si_byte_value_from_size (len ser) = float_of_int (len ser) /\
  _binary_byte_value_from_size (len ser) = float_of_int (len ser).
Proof.
  unfold _serialize_transaction.
  destruct (pack_int32 (token_index tx)) as [ti|e] eqn:Eti; cbn [rbind]; [|discriminate].
  destruct (pack_int32 (kind_code (kind tx))) as [kc|e] eqn:Ekc; cbn [rbind];
    [|discriminate].
  intros Hser.
  apply pack_int32_length in Eti, Ekc.
  pose proof (utf8_length_lower (from_address tx)) as Hf.
  pose proof (utf8_length_lower (to_address tx)) as Ht.
  pose proof (utf8_length_lower (memo tx)) as Hm.
  assert (Hlen : len ser =
                 len (utf8_encode (from_address tx)) + len (utf8_encode (to_address tx)) +
                 len (utf8_encode (memo tx)) + 19).
  { injection Hser as <-. unfold len.
    repeat (rewrite !length_app; cbn [List.length]). rewrite Eti, Ekc. lia. }
  rewrite Hlen. split; [reflexivity|]. split; [lia|].
  unfold _si_byte_value_from_size, _binary_byte_value_from_size.
  assert (Hpos : 0 < len (utf8_encode (from_address tx)) + len (utf8_encode (to_address tx)) +
                     len (utf8_encode (memo tx)) + 19) by lia.
  destruct (Z.leb_spec
              (len (utf8_encode (from_address tx)) + len (utf8_encode (to_address tx)) +
               len (utf8_encode (memo tx)) + 19) 0); [lia|].
  split; reflexivity.
Qed.

Lemma serialized_length_witness :
  len (Spec.tx_layout 0 Scenario.tx_alice_bob) =
    len (utf8_encode (from_address Scenario.tx_alice_bob)) +
    len (utf8_encode (to_address Scenario.tx_alice_bob)) +
    len (utf8_encode (memo Scenario.tx_alice_bob)) + 19.
Proof.
  apply (serialized_length 0 Scenario.tx_alice_bob
           (Spec.tx_layout 0 Scenario.tx_alice_bob)).
  vm_compute. reflexivity.
Defined.

(** Property X27.  An ADD_LIQUIDITY or REMOVE_LIQUIDITY transaction built by the pool
    view is valid as soon as its token index exists and its amount does not
    test negative; no wallet and no balance is asked for.  Applying it never
    raises, changes no balance and no pool: existing wallets are left as
    they are, at most two zero-balance wallets are appended, and the exact
    total of every token is unchanged. *)
Theorem liquidity_transactions_move_nothing (from_addr pool_address : string)
    (amt : float) (tidx : Z) (memo_text : string) (bc : Blockchain) (tx : Transaction) :
  tx = PoolView.build_add_liquidity_tx from_addr pool_address amt tidx memo_text \/
  tx = PoolView.build_remove_liquidity_tx from_addr pool_address amt tidx memo_text ->
  _validate_transaction bc tx =
    Ok ((0 <=? tidx) && (tidx <? len (token_types bc)) && negb (amt <? 0)%float) /\
  exists (bc' : Blockchain) (added : list Wallet),
    _apply_transaction tx bc = (Ok tt, bc') /\
    blocks bc' = blocks bc /\ token_types bc' = token_types bc /\
    pools bc' = pools bc /\ stakes bc' = stakes bc /\
    wallets bc' = wallets bc ++ added /\
    (List.length added <= 2)%nat /\
    (forall t : nat, Spec.total_balance bc' t = Spec.total_balance bc t).
Proof.
  intros Htx. split.
  - unfold _validate_transaction.
    assert (Hf : token_index tx = tidx /\ amount tx = amt /\
                 (kind tx = ADD_LIQUIDITY \/ kind tx = REMOVE_LIQUIDITY))
      by (destruct Htx as [-> | ->]; cbn; auto).
    destruct Hf as (-> & -> & Hk).
    destruct (tidx <? 0) eqn:E1, (len (token_types bc) <=? tidx) eqn:E2; cbn [orb];
      try (replace ((0 <=? tidx) && (tidx <? len (token_types bc))) with false
             by (symmetry; apply andb_false_iff; lia); reflexivity).
    replace ((0 <=? tidx) && (tidx <? len (token_types bc))) with true
      by (symmetry; apply andb_true_iff; lia).
    cbn [andb]. destruct (amt <? 0)%float; [reflexivity|].
    destruct Hk as [-> | ->]; reflexivity.
  - apply apply_inert. destruct Htx as [-> | ->]; reflexivity.
Qed.

Lemma liquidity_transactions_move_nothing_witness :
  _validate_transaction Scenario.registry2
    (PoolView.build_add_liquidity_tx "nobody" "pool" 1000 0 "") =
    Ok ((0 <=? 0) && (0 <? len (token_types Scenario.registry2)) && negb (1000 <? 0)%float) /\
  exists (bc' : Blockchain) (added : list Wallet),
    _apply_transaction (PoolView.build_add_liquidity_tx "nobody" "pool" 1000 0 "")
      Scenario.registry2 = (Ok tt, bc') /\
    blocks bc' = blocks Scenario.registry2 /\
    token_types bc' = token_types Scenario.registry2 /\
    pools bc' = pools Scenario.registry2 /\ stakes bc' = stakes Scenario.registry2 /\
    wallets bc' = wallets Scenario.registry2 ++ added /\
    (List.length added <= 2)%nat /\
    (forall t : nat, Spec.total_balance bc' t = Spec.total_balance Scenario.registry2 t).
Proof.
  apply (liquidity_transactions_move_nothing "nobody" "pool" 1000 0 ""
           Scenario.registry2).
  left. reflexivity.
Defined.

(** Property X28.  The chain engine processes a SWAP exactly as a TRANSFER with the
    same fields: it validates the two alike and applies them alike, moving
    the amount of the one token from the sender to the recipient.  So the
    swap built by the launcher is handled as the transfer built by the wallet
    view from the same arguments; the token to receive plays no part. *)
Theorem swap_is_processed_as_transfer :
  (forall (tx : Transaction) (bc : Blockchain),
     kind tx = SWAP ->
     let transfer := mkTransaction (from_address tx) (to_address tx) (amount tx)
                       (token_index tx) TRANSFER (memo tx) in
     _validate_transaction bc tx = _validate_transaction bc transfer /\
     _apply_transaction tx bc = _apply_transaction transfer bc) /\
  (forall (f t : string) (a : float) (tin tout : Z) (m : string) (bc : Blockchain),
     _validate_transaction bc (Launcher.build_swap_tx f t a tin tout m) =
       _validate_transaction bc (WalletView.build_transfer_tx f t a tin m) /\
     _apply_transaction (Launcher.build_swap_tx f t a tin tout m) bc =
       _apply_transaction (WalletView.build_transfer_tx f t a tin m) bc).
Proof.
  split.
  - intros tx bc Hk transfer. subst transfer.
    unfold _validate_transaction, _apply_transaction, sender_can_pay.
    rewrite Hk. cbn [kind from_address to_address token_index amount]. split; reflexivity.
  - intros. split; reflexivity.
Qed.

End Builders.

Section ChainVerdicts.
Import Validator ValidatorSpec ValidatorMeaning.

Variable py_hash : fingerprint -> Z.

Lemma in_TxKind_all (k : TxKind) : in_TxKind k = true.
Proof. destruct k; reflexivity. Qed.

Lemma tx_defect (state : BlockchainState) (tx : Transaction) (e : ValidatorError) :
  tx_field_error state tx = Some e ->
  (e = TX_TOKEN_INDEX_INVALID /\ ~ 0 <= token_index tx < len (token_types state)) \/
  (e = TX_AMOUNT_NEGATIVE /\ (amount tx <? 0)%float = true) \/
  (e = WALLET_ADDRESS_INVALID /\
   (~ address_ok (from_address tx) \/ ~ address_ok (to_address tx))).
Proof.
  unfold tx_field_error, bad_index.
  destruct ((token_index tx <? 0) || (len (token_types state) <=? token_index tx)) eqn:B.
  { intros [= <-]. left. split; [reflexivity|]. apply orb_true_iff in B. lia. }
  destruct (amount tx <? 0)%float eqn:A.
  { intros [= <-]. right; left. split; reflexivity. }
  rewrite in_TxKind_all. cbn [negb].
  destruct (_is_address_valid (from_address tx)) eqn:F; cbn [negb].
  - destruct (_is_address_valid (to_address tx)) eqn:T; cbn [negb]; [discriminate|].
    intros [= <-]. right; right. split; [reflexivity|]. right.
    now apply is_address_valid_false.
  - intros [= <-]. right; right. split; [reflexivity|]. left.
    now apply is_address_valid_false.
Qed.

Lemma check_txs_source (state : BlockchainState) (l : list Transaction) (seen : list Z)
    (e : ValidatorError) :
  check_txs py_hash state seen l = Some e ->
  (exists tx, In tx l /\ tx_field_error state tx = Some e) \/
  (e = TX_REPLAY_DUPLICATE_IN_BLOCK /\
   ~ (NoDup (map (fp_hash py_hash) l) /\
      forall tx, In tx l -> ~ In (fp_hash py_hash tx) seen)).
Proof.
  revert seen; induction l as [|tx r IH]; intros seen; cbn [check_txs];
    [discriminate|].
  destruct (tx_field_error state tx) as [e'|] eqn:E.
  - intros [= <-]. left. exists tx. split; [now left | exact E].
  - fold (fp_hash py_hash tx).
    destruct (existsb (Z.eqb (fp_hash py_hash tx)) seen) eqn:S.
    + intros [= <-]. right. split; [reflexivity|]. intros [_ H].
      apply seen_spec in S. apply (H tx); [now left | exact S].
    + intros H. destruct (IH _ H) as [(tx' & Hin & Hf)|[-> Hn]].
      * left. exists tx'. split; [now right | exact Hf].
      * right. split; [reflexivity|]. intros [Hnd Hseen]. apply Hn.
        cbn [map] in Hnd. apply NoDup_cons_iff in Hnd as [Hh Hnd].
        split; [exact Hnd|]. intros tx' Hin Hs. apply in_app_iff in Hs as [Hs|Hs].
        -- apply (Hseen tx'); [now right | exact Hs].
        -- destruct Hs as [Hs|[]]. apply Hh. rewrite Hs. now apply in_map.
Qed.

Lemma block_check_source (state : BlockchainState) (b : Block) (e : ValidatorError) :
  _check_block_transactions py_hash state b = Some e ->
  (e = UNKNOWN /\ ELTT_MAX_TX_PER_BLOCK < len (txs b)) \/
  (exists tx, In tx (txs b) /\ tx_field_error state tx = Some e) \/
  (e = TX_REPLAY_DUPLICATE_IN_BLOCK /\ ~ NoDup (map (fp_hash py_hash) (txs b))).
Proof.
  unfold _check_block_transactions.
  destruct (ELTT_MAX_TX_PER_BLOCK <? len (txs b)) eqn:E.
  - intros [= <-]. left. split; [reflexivity | lia].
  - intros H. destruct (check_txs_source _ _ _ _ H) as [Hf|[-> Hn]].
    + right; left. exact Hf.
    + right; right. split; [reflexivity|]. intros Hnd. apply Hn.
      split; [exact Hnd | intros tx _ []].
Qed.

Lemma chain_loop_source (state : BlockchainState) (p : Block) (l : list Block)
    (e : ValidatorError) :
  chain_loop py_hash state (Some p) (timestamp p) l = Some e ->
  (exists pre q b post, p :: l = pre ++ q :: b :: post /\ link_defect e q b) \/
  (exists b, In b l /\ _check_block_transactions py_hash state b = Some e).
Proof.
  revert p; induction l as [|b r IH]; intros p; [discriminate|].
  rewrite chain_loop_cons.
  destruct (index b =? index p + 1) eqn:Ei; cbn [negb].
  2:{ intros [= <-]. left. exists [], p, b, r. split; [reflexivity|].
      left. split; [reflexivity | lia]. }
  destruct (bytes_eqb (prev_hash b) (hash p)) eqn:Eh; cbn [negb].
  2:{ intros [= <-]. left. exists [], p, b, r. split; [reflexivity|].
      right; left. split; [reflexivity|]. now apply bytes_eqb_neq. }
  destruct (timestamp b <? timestamp p) eqn:Et.
  { intros [= <-]. left. exists [], p, b, r. split; [reflexivity|].
    right; right. split; [reflexivity | lia]. }
  destruct (_check_block_transactions py_hash state b) as [e'|] eqn:Eb.
  - intros [= <-]. right. exists b. split; [now left | exact Eb].
  - intros H. destruct (IH _ H) as [(pre & q & b' & post & Hl & Hd)|(b' & Hin & Hc)].
    + left. exists (p :: pre), q, b', post. split; [now rewrite Hl | exact Hd].
    + right. exists b'. split; [now right | exact Hc].
Qed.

Lemma check_chain_source (state : BlockchainState) (e : ValidatorError) :
  _check_chain py_hash state = Some e ->
  (e = NO_BLOCKS /\ blocks state = []) \/
  (e = GENESIS_PREV_HASH /\
   exists g r, blocks state = g :: r /\ prev_hash g <> zero_hash) \/
  (exists pre q b post, blocks state = pre ++ q :: b :: post /\ link_defect e q b) \/
  (exists b, In b (blocks state) /\ _check_block_transactions py_hash state b = Some e).
Proof.
  unfold _check_chain. destruct (blocks state) as [|g r] eqn:Eb.
  - intros [= <-]. left. split; reflexivity.
  - rewrite chain_loop_first.
    destruct (bytes_eqb (prev_hash g) zero_hash) eqn:Ez; cbn [negb].
    2:{ intros [= <-]. right; left. split; [reflexivity|]. exists g, r.
        split; [reflexivity|]. now apply bytes_eqb_neq. }
    destruct (_check_block_transactions py_hash state g) as [e'|] eqn:Eg.
    + intros [= <-]. right; right; right. exists g. split; [now left | exact Eg].
    + intros H. destruct (chain_loop_source _ _ _ _ H) as [Hd|(b & Hin & Hc)].
      * right; right; left. exact Hd.
      * right; right; right. exists b. split; [now right | exact Hc].
Qed.

Ltac other_check H range :=
  exfalso; apply range in H; cbn [In] in H;
  repeat (destruct H as [H|H]; [discriminate|]); exact H.

(** Property X29.  What a chain or transaction verdict points at.
    GENESIS_PREV_HASH is returned only when the first block's previous-hash
    is not all zero; BLOCK_INDEX_SEQUENCE, BLOCK_PREV_HASH_MISMATCH and
    TIMESTAMP_NON_MONOTONIC only when two neighbouring blocks break the
    respective rule; UNKNOWN only for a block of more than 256 transactions;
    TX_AMOUNT_NEGATIVE only for a transaction whose amount tests negative;
    TX_REPLAY_DUPLICATE_IN_BLOCK only for a block in which two transactions
    have the same fingerprint hash; WALLET_ADDRESS_INVALID for a wallet or a
    transaction with an invalid address.  TX_KIND_INVALID is never returned:
    the kind of a transaction is one of the 13 members of [TxKind], as its
    type says, and the membership test holds for each of them. *)
Theorem chain_verdict_points_at_defect (state : BlockchainState) :
  let v := validate_blockchain py_hash (Some state) in
  (v = GENESIS_PREV_HASH ->
   exists g r, blocks state = g :: r /\ prev_hash g <> zero_hash) /\
  (v = BLOCK_INDEX_SEQUENCE ->
   exists pre q b post,
     blocks state = pre ++ q :: b :: post /\ index b <> index q + 1) /\
  (v = BLOCK_PREV_HASH_MISMATCH ->
   exists pre q b post,
     blocks state = pre ++ q :: b :: post /\ prev_hash b <> hash q) /\
  (v = TIMESTAMP_NON_MONOTONIC ->
   exists pre q b post,
     blocks state = pre ++ q :: b :: post /\ timestamp b < timestamp q) /\
  (v = UNKNOWN ->
   exists b, In b (blocks state) /\ ELTT_MAX_TX_PER_BLOCK < len (txs b)) /\
  (v = TX_AMOUNT_NEGATIVE ->
   exists b tx, In b (blocks state) /\ In tx (txs b) /\ (amount tx <? 0)%float = true) /\
  (v = TX_REPLAY_DUPLICATE_IN_BLOCK ->
   exists b, In b (blocks state) /\ ~ NoDup (map (fp_hash py_hash) (txs b))) /\
  (v = WALLET_ADDRESS_INVALID ->
   (exists w, In w (wallets state) /\ ~ address_ok (address w)) \/
   (exists b tx, In b (blocks state) /\ In tx (txs b) /\
      (~ address_ok (from_address tx) \/ ~ address_ok (to_address tx)))) /\
  v <> TX_KIND_INVALID.
Proof.
  intros v. subst v.
  assert (Hlink : forall e q b,
            link_defect e q b ->
            (e = BLOCK_INDEX_SEQUENCE -> index b <> index q + 1) /\
            (e = BLOCK_PREV_HASH_MISMATCH -> prev_hash b <> hash q) /\
            (e = TIMESTAMP_NON_MONOTONIC -> timestamp b < timestamp q) /\
            (e = BLOCK_INDEX_SEQUENCE \/ e = BLOCK_PREV_HASH_MISMATCH \/
             e = TIMESTAMP_NON_MONOTONIC)).
  { intros e q b [[-> H]|[[-> H]|[-> H]]]; repeat split; auto; discriminate. }
  assert (Hblock : forall e b,
            _check_block_transactions py_hash state b = Some e ->
            (e = UNKNOWN /\ ELTT_MAX_TX_PER_BLOCK < len (txs b)) \/
            (e = TX_REPLAY_DUPLICATE_IN_BLOCK /\
             ~ NoDup (map (fp_hash py_hash) (txs b))) \/
            (exists tx, In tx (txs b) /\
               ((e = TX_TOKEN_INDEX_INVALID /\
                 ~ 0 <= token_index tx < len (token_types state)) \/
                (e = TX_AMOUNT_NEGATIVE /\ (amount tx <? 0)%float = true) \/
                (e = WALLET_ADDRESS_INVALID /\
                 (~ address_ok (from_address tx) \/ ~ address_ok (to_address tx)))))).
  { intros e b H. destruct (block_check_source _ _ _ H) as [Hu|[(tx & Hin & Hf)|Hd]].
    - left; exact Hu.
    - right; right. exists tx. split; [exact Hin | now apply tx_defect].
    - right; left; exact Hd. }
  assert (Hchain : forall e,
            validate_blockchain py_hash (Some state) = e ->
            In e [GENESIS_PREV_HASH; BLOCK_INDEX_SEQUENCE; BLOCK_PREV_HASH_MISMATCH;
                  TIMESTAMP_NON_MONOTONIC; UNKNOWN; TX_AMOUNT_NEGATIVE;
                  TX_REPLAY_DUPLICATE_IN_BLOCK] ->
            _check_chain py_hash state = Some e).
  { intros e H Hin. apply verdict_source in H.
    destruct H as [[H _]|[H|[H|[H|[H|H]]]]].
    - subst e. cbn [In] in Hin. repeat (destruct Hin as [Hin|Hin]; [discriminate|]).
      destruct Hin.
    - exfalso. apply check_wallets_range in H. cbn [In] in *.
      repeat (destruct H as [H|H];
              [subst e; repeat (destruct Hin as [Hin|Hin]; [discriminate|]); exact Hin|]).
      exact H.
    - exfalso. apply check_pools_range in H. cbn [In] in *.
      repeat (destruct H as [H|H];
              [subst e; repeat (destruct Hin as [Hin|Hin]; [discriminate|]); exact Hin|]).
      exact H.
    - exfalso. apply check_stakes_range in H. cbn [In] in *.
      repeat (destruct H as [H|H];
              [subst e; repeat (destruct Hin as [Hin|Hin]; [discriminate|]); exact Hin|]).
      exact H.
    - exact H.
    - subst e. cbn [In] in Hin. repeat (destruct Hin as [Hin|Hin]; [discriminate|]).
      destruct Hin. }
  assert (Hsrc : forall e,
            validate_blockchain py_hash (Some state) = e ->
            In e [GENESIS_PREV_HASH; BLOCK_INDEX_SEQUENCE; BLOCK_PREV_HASH_MISMATCH;
                  TIMESTAMP_NON_MONOTONIC; UNKNOWN; TX_AMOUNT_NEGATIVE;
                  TX_REPLAY_DUPLICATE_IN_BLOCK] ->
            (e = GENESIS_PREV_HASH /\
             exists g r, blocks state = g :: r /\ prev_hash g <> zero_hash) \/
            (exists pre q b post,
               blocks state = pre ++ q :: b :: post /\ link_defect e q b) \/
            (exists b, In b (blocks state) /\
               _check_block_transactions py_hash state b = Some e)).
  { intros e H Hin. pose proof (Hchain e H Hin) as Hc.
    apply check_chain_source in Hc. destruct Hc as [[-> _]|Hc]; [|exact Hc].
    cbn [In] in Hin. repeat (destruct Hin as [Hin|Hin]; [discriminate|]). destruct Hin. }
  split; [|split; [|split; [|split; [|split; [|split; [|split; [|split]]]]]]].
  - intros H. destruct (Hsrc _ H) as [[_ Hg]|[(pre & q & b & post & _ & Hd)|(b & _ & Hb)]].
    + cbn [In]; auto.
    + exact Hg.
    + apply Hlink in Hd as (_ & _ & _ & [?|[?|?]]); discriminate.
    + apply Hblock in Hb as [[? _]|[[? _]|(tx & _ & [[? _]|[[? _]|[? _]]])]]; discriminate.
  - intros H. destruct (Hsrc _ H) as [[? _]|[(pre & q & b & post & Hl & Hd)|(b & _ & Hb)]].
    + cbn [In]; auto.
    + discriminate.
    + exists pre, q, b, post. split; [exact Hl|]. now apply (Hlink _ _ _ Hd).
    + apply Hblock in Hb as [[? _]|[[? _]|(tx & _ & [[? _]|[[? _]|[? _]]])]]; discriminate.
  - intros H. destruct (Hsrc _ H) as [[? _]|[(pre & q & b & post & Hl & Hd)|(b & _ & Hb)]].
    + cbn [In]; auto.
    + discriminate.
    + exists pre, q, b, post. split; [exact Hl|]. now apply (Hlink _ _ _ Hd).
    + apply Hblock in Hb as [[? _]|[[? _]|(tx & _ & [[? _]|[[? _]|[? _]]])]]; discriminate.
  - intros H. destruct (Hsrc _ H) as [[? _]|[(pre & q & b & post & Hl & Hd)|(b & _ & Hb)]].
    + cbn [In]; auto 10.
    + discriminate.
    + exists pre, q, b, post. split; [exact Hl|]. now apply (Hlink _ _ _ Hd).
    + apply Hblock in Hb as [[? _]|[[? _]|(tx & _ & [[? _]|[[? _]|[? _]]])]]; discriminate.
  - intros H. destruct (Hsrc _ H) as [[? _]|[(pre & q & b & post & Hl & Hd)|(b & Hin & Hb)]].
    + cbn [In]; auto 10.
    + discriminate.
    + apply Hlink in Hd as (_ & _ & _ & [?|[?|?]]); discriminate.
    + apply Hblock in Hb as [[_ Hu]|[[? _]|(tx & _ & [[? _]|[[? _]|[? _]]])]];
        try discriminate. eauto.
  - intros H. destruct (Hsrc _ H) as [[? _]|[(pre & q & b & post & Hl & Hd)|(b & Hin & Hb)]].
    + cbn [In]; auto 10.
    + discriminate.
    + apply Hlink in Hd as (_ & _ & _ & [?|[?|?]]); discriminate.
    + apply Hblock in Hb as [[? _]|[[? _]|(tx & Htx & [[? _]|[[_ Ha]|[? _]]])]];
        try discriminate. eauto.
  - intros H. destruct (Hsrc _ H) as [[? _]|[(pre & q & b & post & Hl & Hd)|(b & Hin & Hb)]].
    + cbn [In]; auto 10.
    + discriminate.
    + apply Hlink in Hd as (_ & _ & _ & [?|[?|?]]); discriminate.
    + apply Hblock in Hb as [[? _]|[[_ Hd]|(tx & Htx & [[? _]|[[? _]|[? _]]])]];
        try discriminate. eauto.
  - intros H. apply verdict_source in H.
    destruct H as [[H _]|[H|[H|[H|[H|H]]]]]; try discriminate.
    + destruct (wallet_defect _ _ H) as (w & Hin & [[_ Hd]|[[? _]|[? _]]]);
        try discriminate. left. eauto.
    + other_check H check_pools_range.
    + other_check H check_stakes_range.
    + apply check_chain_source in H.
      destruct H as [[? _]|[[? _]|[(pre & q & b & post & _ & Hd)|(b & Hin & Hb)]]];
        try discriminate.
      * apply Hlink in Hd as (_ & _ & _ & [?|[?|?]]); discriminate.
      * apply Hblock in Hb as [[? _]|[[? _]|(tx & Htx & [[? _]|[[? _]|[_ Ha]]])]];
          try discriminate. right. eauto.
  - intros H. apply verdict_source in H.
    destruct H as [[H _]|[H|[H|[H|[H|H]]]]]; try discriminate.
    + other_check H check_wallets_range.
    + other_check H check_pools_range.
    + other_check H check_stakes_range.
    + apply check_chain_source in H.
      destruct H as [[? _]|[[? _]|[(pre & q & b & post & _ & Hd)|(b & Hin & Hb)]]];
        try discriminate.
      * apply Hlink in Hd as (_ & _ & _ & [?|[?|?]]); discriminate.
      * apply Hblock in Hb as [[? _]|[[? _]|(tx & Htx & [[? _]|[[? _]|[? _]]])]];
          discriminate.
Qed.

End ChainVerdicts.

Lemma chain_verdict_points_at_defect_witness :
  exists b : Validator.Block,
    In b (Validator.blocks ValidatorSpec.snapshot_replay) /\
    ~ NoDup (map (ValidatorSpec.fp_hash ValidatorSpec.demo_hash) (Validator.txs b)).
Proof.
  pose proof (chain_verdict_points_at_defect ValidatorSpec.demo_hash
                ValidatorSpec.snapshot_replay) as H.
  cbv zeta in H. destruct H as (_ & _ & _ & _ & _ & _ & H & _).
  apply H. vm_compute. reflexivity.
Defined.

(** ** Reading a block header back *)

Section HeaderRoundTrip.
Import Ledger.

Lemma Z_of_byte_of_Z (z : Z) : Z_of_byte (byte_of_Z z) = z mod 256.
Proof.
  unfold Z_of_byte, byte_of_Z.
  assert (Hr : 0 <= z mod 256 < 256) by (apply Z.mod_pos_bound; lia).
  destruct (Byte.of_N (Z.to_N (z mod 256))) as [b|] eqn:E.
  - apply Byte.to_of_N in E. rewrite E. lia.
  - apply Byte.of_N_None_iff in E. lia.
Qed.

Lemma from_be_bytes (n : nat) (z acc : Z) :
  fold_left (fun a x => a * 256 + Z_of_byte x) (be_bytes n z) acc =
    acc * 2 ^ (8 * Z.of_nat n) + z mod 2 ^ (8 * Z.of_nat n).
Proof.
  revert acc; induction n as [|n IH]; intros acc.
  - cbn [be_bytes fold_left]. change (8 * Z.of_nat 0) with 0.
    rewrite Z.pow_0_r, Z.mod_1_r. lia.
  - cbn [be_bytes fold_left]. rewrite IH, Z_of_byte_of_Z.
    rewrite Z.shiftr_div_pow2 by lia.
    replace (8 * Z.of_nat (S n)) with (8 * Z.of_nat n + 8) by lia.
    rewrite Z.pow_add_r by lia. change (2 ^ 8) with 256.
    assert (Hm : 0 < 2 ^ (8 * Z.of_nat n)) by (apply Z.pow_pos_nonneg; lia).
    rewrite (Z.rem_mul_r z (2 ^ (8 * Z.of_nat n)) 256) by lia.
    ring.
Qed.

Lemma unpack_pack (n : nat) (z : Z) (b : bytes) :
  pack_unsigned n z = Ok b -> int_from_bytes_big b = z /\ List.length b = n.
Proof.
  intros H. pose proof (pack_unsigned_inv n z b H) as Hr.
  rewrite (pack_unsigned_ok n z Hr) in H. injection H as <-.
  split; [|apply length_be_bytes].
  unfold int_from_bytes_big. rewrite from_be_bytes. rewrite Z.mod_small; lia.
Qed.

Lemma firstn_exact {A : Type} (k : nat) (a b : list A) :
  List.length a = k -> firstn k (a ++ b) = a.
Proof.
  intros <-. rewrite firstn_app, Nat.sub_diag, firstn_all. cbn [firstn]. apply app_nil_r.
Qed.

Lemma skipn_exact {A : Type} (k : nat) (a b : list A) :
  List.length a = k -> skipn k (a ++ b) = b.
Proof. intros <-. rewrite skipn_app, Nat.sub_diag, skipn_all. reflexivity. Qed.

Lemma header_parts (b : Block) (h : bytes) :
  _serialize_block_header b = Ok h ->
  exists i t n : bytes,
    h = i ++ t ++ prev_hash b ++ n /\
    List.length i = 4%nat /\ List.length t = 8%nat /\ List.length n = 8%nat /\
    int_from_bytes_big i = index b /\ int_from_bytes_big t = timestamp b /\
    int_from_bytes_big n = len (txs b).
Proof.
  unfold _serialize_block_header.
  destruct (pack_unsigned 4 (index b)) as [i|e] eqn:Ei; cbn [rbind]; [|discriminate].
  destruct (pack_unsigned 8 (timestamp b)) as [t|e] eqn:Et; cbn [rbind]; [|discriminate].
  destruct (pack_unsigned 8 (len (txs b))) as [n|e] eqn:En; cbn [rbind]; [|discriminate].
  intros H. apply unpack_pack in Ei as [Hi Li], Et as [Ht Lt], En as [Hn Ln].
  exists i, t, n. split; [congruence|]. auto 10.
Qed.

(** Property X30.  A block header can be read back.  When [_serialize_block_header]
    succeeds, the header is 20 bytes longer than the previous-hash; its
    first 4 bytes read as a big-endian integer give the index, the next 8
    the timestamp, the last 8 the number of transactions, and the bytes in
    between are the previous-hash.  So two blocks with the same header have
    the same index, timestamp, previous-hash and number of transactions. *)
Theorem block_header_reads_back (b : Block) (h : bytes) :
  _serialize_block_header b = Ok h ->
  List.length h = (20 + List.length (prev_hash b))%nat /\
  int_from_bytes_big (slice h 0 4) = index b /\
  int_from_bytes_big (slice h 4 12) = timestamp b /\
  slice h 12 (12 + List.length (prev_hash b)) = prev_hash b /\
  int_from_bytes_big (skipn (12 + List.length (prev_hash b)) h) = len (txs b) /\
  (forall b2 : Block,
     _serialize_block_header b2 = Ok h ->
     index b2 = index b /\ timestamp b2 = timestamp b /\
     prev_hash b2 = prev_hash b /\ List.length (txs b2) = List.length (txs b)).
Proof.
  assert (Hread : forall (b0 : Block) (h0 : bytes),
            _serialize_block_header b0 = Ok h0 ->
            List.length h0 = (20 + List.length (prev_hash b0))%nat /\
            int_from_bytes_big (slice h0 0 4) = index b0 /\
            int_from_bytes_big (slice h0 4 12) = timestamp b0 /\
            slice h0 12 (12 + List.length (prev_hash b0)) = prev_hash b0 /\
            int_from_bytes_big (skipn (12 + List.length (prev_hash b0)) h0) =
              len (txs b0)).
  { intros b0 h0 H0.
    destruct (header_parts b0 h0 H0) as (i & t & n & -> & Li & Lt & Ln & Hi & Ht & Hn).
    split; [rewrite !length_app; lia|].
    unfold slice.
    split.
    { cbn [skipn]. change (4 - 0)%nat with 4%nat. now rewrite (firstn_exact 4 i _ Li). }
    split.
    { rewrite (skipn_exact 4 i _ Li). change (12 - 4)%nat with 8%nat.
      now rewrite (firstn_exact 8 t _ Lt). }
    assert (Hskip : skipn 12 (i ++ t ++ prev_hash b0 ++ n) = prev_hash b0 ++ n).
    { rewrite app_assoc. apply skipn_exact. rewrite length_app. lia. }
    split.
    { rewrite Hskip.
      replace (12 + List.length (prev_hash b0) - 12)%nat
        with (List.length (prev_hash b0)) by lia.
      now apply firstn_exact. }
    replace (i ++ t ++ prev_hash b0 ++ n) with ((i ++ t ++ prev_hash b0) ++ n)
      by (now rewrite <- !app_assoc).
    rewrite skipn_exact; [exact Hn|]. rewrite !length_app. lia. }
  intros H. destruct (Hread b h H) as (L & Hi & Ht & Hp & Hn).
  repeat (split; [assumption|]).
  intros b2 H2. destruct (Hread b2 h H2) as (L2 & Hi2 & Ht2 & Hp2 & Hn2).
  assert (Hlen : List.length (prev_hash b2) = List.length (prev_hash b)) by lia.
  rewrite Hlen in Hp2, Hn2.
  split; [congruence|]. split; [congruence|]. split; [congruence|].
  unfold len in *. lia.
Qed.

Lemma block_header_reads_back_witness :
  exists h : bytes,
    _serialize_block_header Scenario.block3 = Ok h /\
    List.length h = (20 + List.length (prev_hash Scenario.block3))%nat /\
    int_from_bytes_big (slice h 0 4) = index Scenario.block3 /\
    int_from_bytes_big (slice h 4 12) = timestamp Scenario.block3.
Proof.
  destruct (_serialize_block_header Scenario.block3) as [h|e] eqn:E;
    [|vm_compute in E; discriminate].
  exists h. split; [reflexivity|].
  destruct (block_header_reads_back Scenario.block3 h E) as (L & Hi & Ht & _).
  auto.
Defined.

End HeaderRoundTrip.
